(** * Agency router: keyword scoring, complexity assessment, routing, cache

    A shallow embedding of the agency-router worker
    (keyword-matcher.ts, complexity-classifier.ts, router-engine.ts,
    cache.ts and the POST /api/route handler of index.ts), followed by
    the properties of the routing specification that were checked against
    it.

    Modelling conventions.
    - A JavaScript string is a [string]: a sequence of code units, each
      read as a code unit below 256 (the Latin-1 block).  [toLowerCase],
      the regular-expression classes [\s] and [\w] and [trim] are written
      out for exactly that range.  Texts with code units from 256 on
      are outside the model; on some of them [toLowerCase] changes the
      length of the text.
    - A JavaScript number is a binary64 value, held as the rational it
      denotes ([Q]).  Every arithmetic operation on numbers rounds its
      exact result to the nearest binary64 value, ties to the even
      significand ([Js.fl]), and a decimal literal of the source is the
      binary64 value nearest to it.  Infinities and NaN are not
      modelled: no division has a zero divisor, and an overflow would
      take a price per token beyond [10^300] in a row of the database.  Integer counters (lengths,
      complexity points, milliseconds) are [Z] or [nat]; they stay far
      below [2^53], where binary64 arithmetic on integers is exact.
      Numeric statements are up to [Qeq].
    - A [Map] or plain object used as a map is an association list in
      insertion order ([JsMap]), as the code iterates over them.
    - The clock ([performance.now], [Date.now], [toISOString]), the KV
      namespace, the D1 database and SHA-256 are inputs of the model. *)

From Stdlib Require Import List String Ascii ZArith QArith Qround Lia Bool.
From Stdlib Require Import Permutation Sorted Lqa Qabs Qpower Qreduction.
From Stdlib Require Import SpecFloat.
Import ListNotations.

Local Open Scope string_scope.
Local Open Scope list_scope.

(* ================================================================= *)
(** ** JavaScript primitives used by the worker *)

Module Js.

(** *** Characters and strings *)

Definition code (c : ascii) : nat := nat_of_ascii c.

Definition between (lo hi n : nat) : bool :=
  Nat.leb lo n && Nat.leb n hi.

(** [String.prototype.toLowerCase] on code units below 256: A-Z and the
    Latin-1 capitals U+00C0..U+00DE (U+00D7, the multiplication sign,
    excepted) move up by 32. *)
Definition lower_char (c : ascii) : ascii :=
  let n := code c in
  if between 65 90 n || (between 192 222 n && negb (Nat.eqb n 215))
  then ascii_of_nat (n + 32)
  else c.

Fixpoint toLowerCase (s : string) : string :=
  match s with
  | EmptyString => EmptyString
  | String c t => String (lower_char c) (toLowerCase t)
  end.

(** The class [\s] (and the characters removed by [trim]) below 256:
    TAB, LF, VT, FF, CR, SPACE and NBSP. *)
Definition is_space (c : ascii) : bool :=
  let n := code c in
  between 9 13 n || Nat.eqb n 32 || Nat.eqb n 160.

(** The class [\w]: [A-Za-z0-9_]. *)
Definition is_word (c : ascii) : bool :=
  let n := code c in
  between 65 90 n || between 97 122 n || between 48 57 n || Nat.eqb n 95.

(** [s.includes(sub)] *)
Fixpoint includes (s sub : string) : bool :=
  String.prefix sub s ||
  match s with
  | EmptyString => false
  | String _ t => includes t sub
  end.

(** [s.split(/C+/)] for a character class [C]: every maximal run of
    separator characters ends one piece and starts the next, so a
    leading or trailing run leaves an empty piece, and the empty string
    splits into one empty piece.  [in_run] tells that the previous
    character was a separator. *)
Fixpoint split_go (sep : ascii -> bool) (in_run : bool) (s : string)
  : list string :=
  match s with
  | EmptyString => [EmptyString]
  | String c t =>
      if sep c then
        if in_run then split_go sep true t
        else EmptyString :: split_go sep true t
      else
        match split_go sep false t with
        | piece :: rest => String c piece :: rest
        | [] => [String c EmptyString]
        end
  end.

Definition split_runs (sep : ascii -> bool) (s : string) : list string :=
  split_go sep false s.

(** [s.replace(/[^\w]/g, "")] *)
Fixpoint strip_non_word (s : string) : string :=
  match s with
  | EmptyString => EmptyString
  | String c t =>
      if is_word c then String c (strip_non_word t) else strip_non_word t
  end.

Fixpoint trimStart (s : string) : string :=
  match s with
  | EmptyString => EmptyString
  | String c t => if is_space c then trimStart t else s
  end.

Fixpoint trimEnd (s : string) : string :=
  match s with
  | EmptyString => EmptyString
  | String c t =>
      match trimEnd t with
      | EmptyString => if is_space c then EmptyString else String c EmptyString
      | t' => String c t'
      end
  end.

Definition trim (s : string) : string := trimEnd (trimStart s).

(** Truthiness of a string: only the empty string is falsy. *)
Definition truthy (s : string) : bool :=
  match s with EmptyString => false | _ => true end.

(** [a || b] on strings. *)
Definition or_else (a b : string) : string := if truthy a then a else b.

(** [xs.join(sep)] *)
Fixpoint join (sep : string) (xs : list string) : string :=
  match xs with
  | [] => EmptyString
  | [x] => x
  | x :: rest => (x ++ sep ++ join sep rest)%string
  end.

(** [xs.slice(0, n)] *)
Definition slice0 {A : Type} (n : nat) (xs : list A) : list A := firstn n xs.

(** [new Set(xs).has(x)] on strings. *)
Definition Set_has (xs : list string) (x : string) : bool :=
  existsb (String.eqb x) xs.

(** *** Numbers

    Binary64 rounding.  A number other than zero lies between two
    consecutive powers of two, [2^e <= |x| < 2^(e+1)]; the binary64
    values there are the multiples of [2^(e-52)], and below [2^-1022]
    the multiples of [2^-1074]. *)

(** [floor (log2 |x|)] for a number other than zero. *)
Definition exponent (x : Q) : Z :=
  if Qeq_bool x 0 then 0%Z
  else
    let k := (Z.log2 (Z.abs (Qnum x)) - Z.log2 (Zpos (Qden x)))%Z in
    if Qle_bool (2 ^ k)%Q (Qabs x) then k else (k - 1)%Z.

(** [x] lies between [2^e] and [2^(e+1)]. *)
Definition in_binade (e : Z) (x : Q) : Prop :=
  (2 ^ e <= Qabs x /\ Qabs x < 2 ^ (e + 1))%Q.

(** The binary logarithm of the distance between the binary64 values
    around [x]. *)
Definition spacing (x : Q) : Z := Z.max (exponent x - 52) (-1074).

(** The integer nearest to [q]; of two equally near ones, the even one. *)
Definition nearest_even (q : Q) : Z :=
  let f := Qfloor q in
  match Qcompare (q - inject_Z f) (1 # 2) with
  | Lt => f
  | Gt => (f + 1)%Z
  | Eq => if Z.even f then f else (f + 1)%Z
  end.

(** The binary64 value nearest to [x]. *)
Definition fl (x : Q) : Q :=
  Qred (inject_Z (nearest_even (x / 2 ^ spacing x)) * 2 ^ spacing x)%Q.

(** Every binary64 value is a whole multiple of [2^-1074]. *)
Definition on_grid (x : Q) : Prop :=
  exists n : Z, (x == inject_Z n * 2 ^ (-1074))%Q.

(** [a + b], [a - b], [a * b] and [a / b] on numbers. *)
Definition fadd (a b : Q) : Q := fl (a + b)%Q.
Definition fsub (a b : Q) : Q := fl (a - b)%Q.
Definition fmul (a b : Q) : Q := fl (a * b)%Q.
Definition fdiv (a b : Q) : Q := fl (a / b)%Q.

Definition Qltb (a b : Q) : bool := negb (Qle_bool b a).
Definition Qgeb (a b : Q) : bool := Qle_bool b a.

Definition Math_min (a b : Q) : Q := if Qle_bool a b then a else b.

(** [Math.round]: the nearest integer, halves towards +infinity. *)
Definition Math_round (x : Q) : Z := Qfloor (x + (1 # 2))%Q.

(** [Math.round(x * 100) / 100] *)
Definition round2 (x : Q) : Q :=
  fdiv (inject_Z (Math_round (fmul x 100))) 100.

(** [Math.ceil(n / 4)] on a length. *)
Definition ceil_div4 (n : nat) : Z := ((Z.of_nat n + 3) / 4)%Z.

(** *** Insertion-ordered maps with string keys ([Map], plain objects) *)

Definition JsMap (V : Type) : Type := list (string * V).

Fixpoint jm_get {V : Type} (m : JsMap V) (k : string) : option V :=
  match m with
  | [] => None
  | (k', v) :: rest => if String.eqb k k' then Some v else jm_get rest k
  end.

(** [m.set(k, v)]: an existing key keeps its position, a new key goes
    last. *)
Fixpoint jm_set {V : Type} (m : JsMap V) (k : string) (v : V) : JsMap V :=
  match m with
  | [] => [(k, v)]
  | (k', v') :: rest =>
      if String.eqb k k' then (k', v) :: rest
      else (k', v') :: jm_set rest k v
  end.

Definition jm_keys {V : Type} (m : JsMap V) : list string := map fst m.
Definition jm_values {V : Type} (m : JsMap V) : list V := map snd m.

(** *** [toSorted] with a comparator [(a, b) => key(b) - key(a)]

    The rounded difference of two binary64 values has the sign of the
    exact one, so the comparator orders as the keys compare.  The sort
    is stable and the comparator a total preorder, so the result is the
    one list that is in descending key order with equal keys in their
    original order; insertion from the right builds it. *)
Fixpoint insert_desc {A : Type} (key : A -> Q) (x : A) (l : list A)
  : list A :=
  match l with
  | [] => [x]
  | y :: t =>
      if Qltb (key x) (key y) then y :: insert_desc key x t
      else x :: y :: t
  end.

Definition toSorted_desc {A : Type} (key : A -> Q) (l : list A) : list A :=
  fold_right (insert_desc key) [] l.

(** [m.delete(k)] *)
Fixpoint jm_delete {V : Type} (m : JsMap V) (k : string) : JsMap V :=
  match m with
  | [] => []
  | (k', v') :: rest =>
      if String.eqb k k' then rest else (k', v') :: jm_delete rest k
  end.

End Js.

(* ================================================================= *)
(** ** keyword-matcher.ts *)

Module KeywordMatcher.
Import Js.
Local Open Scope Q_scope.

Record KeywordMatch := mkKeywordMatch {
  km_keyword : string;
  km_agent : string;
  km_confidence : Q;
  km_domain : string
}.

Record AgentScore := mkAgentScore {
  as_agent : string;
  as_score : Q;
  as_matches : list KeywordMatch;
  as_primaryDomain : string
}.

(** [KEYWORD_SETS], as [Object.entries] lists it. *)
Definition KEYWORD_SETS : list (string * list (string * list string)) :=
  [ ("codegen",
     [ ("implementation",
        [ "implement"; "build"; "code"; "develop"; "create"; "write";
          "function"; "method"; "class"; "component"; "api"; "endpoint";
          "route"; "debug"; "fix"; "error"; "bug"; "optimize"; "refactor";
          "performance"; "test"; "unit test"; "integration test"; "deploy";
          "release"; "setup"; "configure"; "installation"; "library";
          "framework"; "javascript"; "typescript"; "python"; "node.js";
          "react"; "vue"; "angular"; "rust"; "go"; "java"; "database";
          "sql"; "query" ]) ]);
    ("planning",
     [ ("strategy",
        [ "plan"; "strategy"; "roadmap"; "timeline"; "project"; "workflow";
          "process"; "architecture"; "design"; "design document";
          "proposal"; "requirement"; "scope"; "milestone"; "deadline";
          "goal"; "objective"; "task"; "deliverable"; "stakeholder"; "team";
          "resource"; "budget"; "cost"; "estimate"; "schedule"; "phase";
          "sprint"; "epic"; "user story"; "acceptance criteria"; "risk";
          "constraint"; "dependency"; "communication"; "review";
          "approval"; "governance" ]) ]);
    ("security",
     [ ("security",
        [ "security"; "vulnerability"; "exploit"; "attack"; "threat";
          "risk"; "penetration test"; "audit"; "compliance"; "encryption";
          "authentication"; "authorization"; "permission";
          "access control"; "sensitive data"; "privacy"; "breach";
          "secure"; "secure coding"; "owasp"; "cwe"; "cve"; "malware";
          "phishing"; "injection"; "xss"; "csrf"; "token"; "jwt";
          "api key"; "credential"; "secret"; "tls"; "ssl"; "certificate";
          "firewall"; "ddos"; "intrusion"; "forensic";
          "incident response"; "hardening"; "defense" ]) ]);
    ("infrastructure",
     [ ("operations",
        [ "infrastructure"; "deploy"; "cloud"; "aws"; "azure"; "gcp";
          "cloudflare"; "kubernetes"; "docker"; "container"; "ci/cd";
          "github actions"; "jenkins"; "gitlab"; "devops"; "terraform";
          "infrastructure as code"; "monitoring"; "logging";
          "observability"; "metrics"; "alerting"; "uptime"; "sla";
          "disaster recovery"; "backup"; "load balancer"; "cdn";
          "database"; "cache"; "queue"; "message broker"; "api gateway";
          "reverse proxy"; "ssl"; "certificate"; "dns"; "domain";
          "network"; "scaling"; "auto-scaling" ]) ]) ].

Definition DEFAULT_CONFIDENCE : Q := fl 0.85.
Definition KEYWORD_WEIGHT : Q := fl 1.0.
Definition COMPOUND_KEYWORD_BOOST : Q := fl 0.15.

(** [tokenize]: split on white space, drop the non-word characters of
    each piece, keep the pieces longer than two. *)
Definition tokenize (text : string) : list string :=
  filter (fun word => Nat.ltb 2 (String.length word))
         (map strip_non_word (split_runs is_space text)).

Definition compoundPatterns : list string :=
  [ "design document"; "unit test"; "integration test"; "user story";
    "acceptance criteria"; "api gateway"; "reverse proxy"; "load balancer";
    "message broker"; "disaster recovery"; "auto scaling";
    "infrastructure as code"; "ci/cd"; "github actions";
    "penetration test"; "access control"; "sensitive data";
    "secure coding"; "api key"; "jwt token"; "ssl certificate"; "node.js";
    "sql query" ].

Definition extractCompoundKeywords (text : string) : list string :=
  filter (fun pattern => includes text pattern) compoundPatterns.

(** The three accumulators of the scoring loops. *)
Record ScoreAcc := mkScoreAcc {
  acc_matches : list KeywordMatch;
  acc_totalScore : Q;
  acc_domainScores : JsMap Q
}.

(** [domainScores[domain] += x]; the loop has set the key to 0 before the
    first use, so the key is always there. *)
Definition bump (domainScores : JsMap Q) (domain : string) (x : Q)
  : JsMap Q :=
  match jm_get domainScores domain with
  | Some old => jm_set domainScores domain (fadd old x)
  | None => domainScores
  end.

(** Body of [for (const keyword of keywords)]. *)
Definition keywordStep (allKeywords : list string)
    (normalizedText agent domain : string)
    (acc : ScoreAcc) (keyword : string) : ScoreAcc :=
  let acc1 :=
    if Set_has allKeywords keyword then
      let baseConfidence := DEFAULT_CONFIDENCE in
      mkScoreAcc
        (acc_matches acc ++
           [mkKeywordMatch keyword agent baseConfidence domain])
        (fadd (acc_totalScore acc) baseConfidence)
        (bump (acc_domainScores acc) domain baseConfidence)
    else acc in
  if includes normalizedText keyword then
    let phraseBoost := fmul KEYWORD_WEIGHT COMPOUND_KEYWORD_BOOST in
    mkScoreAcc
      (acc_matches acc1)
      (fadd (acc_totalScore acc1) phraseBoost)
      (bump (acc_domainScores acc1) domain phraseBoost)
  else acc1.

(** Body of [for (const [domain, keywords] of Object.entries(domains))]. *)
Definition domainStep (allKeywords : list string)
    (normalizedText agent : string)
    (acc : ScoreAcc) (entry : string * list string) : ScoreAcc :=
  let '(domain, keywords) := entry in
  let acc0 :=
    mkScoreAcc (acc_matches acc) (acc_totalScore acc)
               (jm_set (acc_domainScores acc) domain 0) in
  fold_left (keywordStep allKeywords normalizedText agent domain)
            keywords acc0.

(** One iteration of the loop over the agents: the [AgentScore] stored
    under [agent]. *)
Definition scoreAgent (allKeywords : list string) (normalizedText : string)
    (agent : string) (domains : list (string * list string)) : AgentScore :=
  let acc :=
    fold_left (domainStep allKeywords normalizedText agent) domains
              (mkScoreAcc [] 0 []) in
  let normalizedScore :=
    Math_min 100 (fmul (fdiv (acc_totalScore acc) 10) 10) in
  let primaryDomain :=
    match toSorted_desc snd (acc_domainScores acc) with
    | (d, _) :: _ => or_else d "unknown"
    | [] => "unknown"
    end in
  mkAgentScore agent normalizedScore (acc_matches acc) primaryDomain.

Definition scoreMessage (text : string) : list AgentScore :=
  let normalizedText := toLowerCase text in
  let words := tokenize normalizedText in
  let compounds := extractCompoundKeywords normalizedText in
  let allKeywords := words ++ compounds in
  let agentScores :=
    fold_left
      (fun (m : JsMap AgentScore) (entry : string * _) =>
         let '(agent, domains) := entry in
         jm_set m agent (scoreAgent allKeywords normalizedText agent domains))
      KEYWORD_SETS [] in
  toSorted_desc as_score (jm_values agentScores).

(** [scores[1]?.score || 0] *)
Definition secondScoreOf (scores : list AgentScore) : Q :=
  match nth_error scores 1 with
  | Some s => if Qeq_bool (as_score s) 0 then 0 else as_score s
  | None => 0
  end.

Definition getConfidenceScore (scores : list AgentScore) : Q :=
  match scores with
  | [] => 0
  | top :: _ =>
      let topScore := as_score top in
      let secondScore := secondScoreOf scores in
      if Qgeb topScore 50 && Qgeb (fsub topScore secondScore) 20 then
        Math_min (fl 0.95)
                 (fadd (fl 0.7) (fmul (fdiv topScore 100) (fl 0.25)))
      else if Qgeb topScore 30 then
        fadd (fl 0.6) (fmul (fdiv topScore 100) (fl 0.35))
      else
        Math_min (fl 0.5) (fdiv topScore 100)
  end.

(** The list [extractDomain] searches, in its order. *)
Definition known_domains : list string :=
  [ "javascript"; "typescript"; "python"; "node.js"; "react"; "vue";
    "angular"; "rust"; "go"; "java"; "kubernetes"; "docker"; "aws"; "azure";
    "gcp"; "cloudflare"; "github"; "gitlab" ].

(** [extractDomain]: the first listed domain the lowercased text
    contains, or [null]. *)
Definition extractDomain (text : string) : option string :=
  find (fun domain => includes (toLowerCase text) domain) known_domains.

Definition complexIndicators : list string :=
  [ "distributed"; "concurrency"; "performance"; "optimization";
    "architecture"; "refactor"; "redesign"; "integration"; "migration";
    "scalability" ].

Definition moderateIndicators : list string :=
  [ "debug"; "test"; "configure"; "setup"; "deploy"; "review" ].

(** One of the two loops of [detectComplexity]: [weight] points for each
    indicator the text contains. *)
Definition indicatorLoop (weight : Z) (normalizedText : string)
    (indicators : list string) (complexityScore : Z) : Z :=
  fold_left
    (fun score indicator =>
       if includes normalizedText indicator then (score + weight)%Z
       else score)
    indicators complexityScore.

(** [detectComplexity], with its result as the string it is. *)
Definition detectComplexity (text : string) : string :=
  let normalizedText := toLowerCase text in
  let score1 := indicatorLoop 2 normalizedText complexIndicators 0%Z in
  let complexityScore :=
    indicatorLoop 1 normalizedText moderateIndicators score1 in
  if (4 <=? complexityScore)%Z then "complex"
  else if (2 <=? complexityScore)%Z then "moderate"
  else "simple".

End KeywordMatcher.

(* ================================================================= *)
(** ** complexity-classifier.ts *)

Module ComplexityClassifier.
Import Js.

Inductive Level := simple | moderate | complex.

Definition Level_eqb (a b : Level) : bool :=
  match a, b with
  | simple, simple | moderate, moderate | complex, complex => true
  | _, _ => false
  end.

(** The string a [Level] is in the source. *)
Definition level_string (l : Level) : string :=
  match l with
  | simple => "simple"
  | moderate => "moderate"
  | complex => "complex"
  end.

Record ComplexityAssessment := mkAssessment {
  ca_level : Level;
  ca_score : Z;
  ca_factors : list string;
  ca_estimatedTokens : Z;
  ca_suggestedAgent : string
}.

(** [COMPLEXITY_INDICATORS.complex.keywords] *)
Definition complex_keywords : list string :=
  [ "design"; "architect"; "optimize"; "refactor"; "migrate"; "distributed";
    "performance"; "scalability"; "security"; "compliance"; "multi-step";
    "strategic"; "comprehensive"; "advanced"; "custom" ].

(** [COMPLEXITY_INDICATORS.moderate.keywords] *)
Definition moderate_keywords : list string :=
  [ "implement"; "integrate"; "configure"; "debug"; "troubleshoot"; "modify";
    "update"; "improve"; "enhance"; "add"; "change"; "convert"; "analyze";
    "review" ].

Definition AGENT_COMPLEXITY_MAPPING : JsMap Level :=
  [ ("codegen", moderate); ("planning", complex); ("security", complex);
    ("infrastructure", complex) ].

Definition topicKeywords : list (string * list string) :=
  [ ("frontend", ["react"; "vue"; "angular"; "component"; "ui"; "ux"]);
    ("backend", ["node"; "python"; "api"; "database"; "server"]);
    ("devops", ["kubernetes"; "docker"; "ci/cd"; "deploy"; "cloud"]);
    ("security", ["security"; "vulnerability"; "encryption"; "auth"]);
    ("database", ["sql"; "mongodb"; "postgres"; "query"; "schema"]) ].

Definition detectTopics (text : string) : list string :=
  map fst
      (filter (fun entry => existsb (fun k => includes text k) (snd entry))
              topicKeywords).

Definition suggestAgent (level : Level) : string :=
  match level with
  | simple => "codegen"
  | moderate => "codegen"
  | complex => "planning"
  end.

(** [/[.!?]+/] *)
Definition is_sentence_end (c : ascii) : bool :=
  let n := code c in Nat.eqb n 46 || Nat.eqb n 33 || Nat.eqb n 63.

(** [/```|<|>|{|}|\[|\]|=>|;/.test(text)] *)
Definition hasCodeBlocks (text : string) : bool :=
  existsb (fun p => includes text p)
          [ "```"; "<"; ">"; "{"; "}"; "["; "]"; "=>"; ";" ].

(** [/must|should|cannot|don't|constraint|requirement/.test(text)] *)
Definition hasConstraints (text : string) : bool :=
  existsb (fun p => includes text p)
          [ "must"; "should"; "cannot"; "don't"; "constraint"; "requirement" ].

(** The running pair [(complexityScore, factors)]. *)
Definition Tally : Type := (Z * list string)%type.

Definition add_factor (t : Tally) (points : Z) (factor : string) : Tally :=
  ((fst t + points)%Z, snd t ++ [factor]).

Definition lengthStep (text : string) (t : Tally) : Tally :=
  if Nat.ltb 1500 (String.length text) then
    add_factor t 2 "Long message (>1500 chars)"
  else if Nat.ltb 500 (String.length text) then
    add_factor t 1 "Medium message (500-1500 chars)"
  else t.

Definition sentencesOf (text : string) : list string :=
  filter (fun s => truthy (trim s)) (split_runs is_sentence_end text).

Definition sentenceStep (text : string) (t : Tally) : Tally :=
  let n := List.length (sentencesOf text) in
  if Nat.ltb 10 n then
    add_factor t 2 "Multiple requirements (>10 sentences)"
  else if Nat.ltb 5 n then
    add_factor t 1 "Several requirements (5-10 sentences)"
  else t.

(** The two keyword steps: [weight] points for each listed keyword that
    occurs in the text, and one factor when any does. *)
Definition indicatorStep (label : string) (weight : Z)
    (keywords : list string) (normalizedText : string) (t : Tally) : Tally :=
  let matches := filter (fun k => includes normalizedText k) keywords in
  let t1 : Tally := ((fst t + Z.of_nat (List.length matches) * weight)%Z, snd t) in
  if Nat.ltb 0 (List.length matches) then
    (fst t1, snd t1 ++ [(label ++ join ", " (slice0 3 matches))%string])
  else t1.

Definition codeStep (text : string) (t : Tally) : Tally :=
  if hasCodeBlocks text then add_factor t 1 "Contains code or technical syntax"
  else t.

Definition topicStep (normalizedText : string) (t : Tally) : Tally :=
  let topics := detectTopics normalizedText in
  if Nat.ltb 2 (List.length topics) then
    add_factor t 1 ("Multiple topics: " ++ join ", " topics)%string
  else t.

Definition constraintStep (normalizedText : string) (t : Tally) : Tally :=
  if hasConstraints normalizedText then
    add_factor t 1 "Contains explicit constraints"
  else t.

Definition levelOfScore (complexityScore : Z) : Level :=
  if (6 <=? complexityScore)%Z then complex
  else if (3 <=? complexityScore)%Z then moderate
  else simple.

(** [assessComplexity(text, agent?)].  The unused locals [lines] and
    [words] are left out. *)
Definition assessComplexity (text : string) (agent : option string)
  : ComplexityAssessment :=
  let normalizedText := toLowerCase text in
  let t0 : Tally := (0%Z, []) in
  let t1 := lengthStep text t0 in
  let t2 := sentenceStep text t1 in
  let t3 := indicatorStep "Complex indicators: " 2 complex_keywords
                          normalizedText t2 in
  let t4 := indicatorStep "Moderate indicators: " 1 moderate_keywords
                          normalizedText t3 in
  let t5 := codeStep text t4 in
  let t6 := topicStep normalizedText t5 in
  let t7 := constraintStep normalizedText t6 in
  let complexityScore := fst t7 in
  let level0 := levelOfScore complexityScore in
  let '(level, factors) :=
    match agent with
    | Some a =>
        if truthy a then
          match jm_get AGENT_COMPLEXITY_MAPPING a with
          | Some complex =>
              if Level_eqb level0 simple then
                (moderate,
                 snd t7 ++
                   [("Adjusted for " ++ a ++ " agent complexity baseline")%string])
              else (level0, snd t7)
          | _ => (level0, snd t7)
          end
        else (level0, snd t7)
    | None => (level0, snd t7)
    end in
  mkAssessment level complexityScore factors
               (ceil_div4 (String.length text)) (suggestAgent level).

(** The multiplier both cost estimates apply. *)
Definition multiplierOf (level : Level) : Q :=
  match level with
  | simple => fl 1.0
  | moderate => fl 1.5
  | complex => fl 2.5
  end.

(** [ComplexityClassifier.estimateCost(complexity, modelPricingPerMToken)] *)
Definition estimateCost (complexity : ComplexityAssessment)
    (modelPricingPerMToken : Q) : Q :=
  let tokens := inject_Z (ca_estimatedTokens complexity) in
  let baseCost := fmul (fdiv tokens 1000000) modelPricingPerMToken in
  fmul baseCost (multiplierOf (ca_level complexity)).

(** The default of [modelPricingPerMToken]. *)
Definition DEFAULT_PRICING : Q := 3%Q.

(** [assessBatch] *)
Definition assessBatch (messages : list string) (agent : option string)
  : list ComplexityAssessment :=
  map (fun msg => assessComplexity msg agent) messages.

End ComplexityClassifier.

(* ================================================================= *)
(** ** router-engine.ts *)

Module RouterEngine.
Import Js KeywordMatcher ComplexityClassifier.
Local Open Scope Q_scope.

(** A promise that has settled. *)
Inductive Promise (A : Type) : Type :=
| Resolved (value : A)
| Rejected (reason : string).
Arguments Resolved {A} value.
Arguments Rejected {A} reason.

Record Agent := mkAgent {
  ag_id : string;
  ag_name : string;
  ag_description : string;
  ag_keywords : list string;
  ag_domains : list string;
  ag_costPerToken : option Q;
  ag_maxTokens : option Z;
  ag_enabled : bool
}.

Record RoutingDecision := mkRoutingDecision {
  rd_agent : string;
  rd_confidence : Q;
  rd_reason : string;
  rd_skillFilesUsed : list string;
  rd_estimatedCost : Q;
  rd_complexity : string;
  rd_latency : Q;
  rd_timestamp : string;
  rd_matchedKeywords : list string
}.

Record SkillFile := mkSkillFile {
  sf_id : string;
  sf_name : string;
  sf_agent : string;
  sf_description : string;
  sf_keywords : list string
}.

Definition STATIC_AGENTS : list Agent :=
  [ mkAgent "codegen" "Code Generation Agent"
      "Expert in code implementation, debugging, and testing"
      [ "implement"; "build"; "code"; "debug"; "test"; "function"; "api";
        "optimize"; "refactor" ]
      [ "javascript"; "typescript"; "python"; "rust"; "go" ]
      (Some (fl 0.003)) (Some 4000%Z) true;
    mkAgent "planning" "Planning & Strategy Agent"
      "Expert in project planning, roadmapping, and strategic thinking"
      [ "plan"; "strategy"; "roadmap"; "design"; "architecture"; "timeline";
        "proposal" ]
      [ "project management"; "architecture" ]
      (Some (fl 0.002)) (Some 8000%Z) true;
    mkAgent "security" "Security & Compliance Agent"
      "Expert in security analysis, threat modeling, and compliance"
      [ "security"; "vulnerability"; "exploit"; "threat"; "penetration";
        "encryption"; "compliance" ]
      [ "security"; "compliance" ]
      (Some (fl 0.004)) (Some 6000%Z) true;
    mkAgent "infrastructure" "Infrastructure & DevOps Agent"
      "Expert in infrastructure, deployment, and operations"
      [ "infrastructure"; "deploy"; "cloud"; "kubernetes"; "docker"; "ci/cd";
        "monitoring" ]
      [ "cloud"; "devops"; "kubernetes" ]
      (Some (fl 0.003)) (Some 5000%Z) true ].

Definition STATIC_SKILL_FILES : list SkillFile :=
  [ mkSkillFile "task-complexity-assessment" "Task Complexity Assessment"
      "planning" "Assess complexity and determine routing path"
      [ "complexity"; "assessment"; "routing" ];
    mkSkillFile "agent-codegen" "Code Generation Strategies"
      "codegen" "Strategies for code implementation"
      [ "code"; "generate"; "implement" ];
    mkSkillFile "keyword-matching-strategy" "Keyword Matching Strategy"
      "planning" "Strategy for keyword-based routing"
      [ "matching"; "strategy"; "routing" ];
    mkSkillFile "security-threat-modeling" "Security Threat Modeling"
      "security" "Threat modeling and risk assessment"
      [ "threat"; "security"; "risk" ];
    mkSkillFile "infrastructure-deployment" "Infrastructure Deployment"
      "infrastructure" "Deployment strategies and patterns"
      [ "deploy"; "infrastructure"; "cloud" ] ].

Definition FALLBACK_AGENT : string := "planning".

(** *** The D1 database, as the engine reads it

    A row's JSON columns are given parsed; [None] stands for a text on
    which [JSON.parse] throws.  A query is given by its rows; [None]
    stands for a query that throws. *)
Record AgentRow := mkAgentRow {
  ar_id : string;
  ar_name : string;
  ar_description : string;
  ar_keywords : option (list string);
  ar_domains : option (list string);
  ar_cost_per_token : option Q;
  ar_max_tokens : option Z
}.

Record SkillRow := mkSkillRow {
  sr_id : string;
  sr_name : string;
  sr_agent : string;
  sr_description : string;
  sr_keywords : option (list string)
}.

Record D1Database := mkD1 {
  d1_enabled_agents : option (list AgentRow);
  d1_skill_files : option (list SkillRow)
}.

(** The engine: its two maps and the database handle. *)
Record Engine := mkEngine {
  db : option D1Database;
  agents : JsMap Agent;
  skillFiles : JsMap SkillFile
}.

(** [new RouterEngine(db, agents, skillFiles)] *)
Definition new (db : option D1Database) (agents : list Agent)
    (skillFiles : list SkillFile) : Engine :=
  mkEngine db
    (fold_left (fun m agent => jm_set m (ag_id agent) agent) agents [])
    (fold_left (fun m skill => jm_set m (sf_id skill) skill) skillFiles []).

(** [new RouterEngine(db)] and [new RouterEngine()] *)
Definition new_default (db : option D1Database) : Engine :=
  new db STATIC_AGENTS STATIC_SKILL_FILES.

(** The loop of [loadAgentsFromDB]: a row whose JSON does not parse throws
    out of the loop, the rows before it stay stored. *)
Fixpoint storeAgentRows (m : JsMap Agent) (rows : list AgentRow)
  : JsMap Agent :=
  match rows with
  | [] => m
  | r :: rest =>
      match ar_keywords r, ar_domains r with
      | Some ks, Some ds =>
          storeAgentRows
            (jm_set m (ar_id r)
               (mkAgent (ar_id r) (ar_name r) (ar_description r) ks ds
                        (ar_cost_per_token r) (ar_max_tokens r) true))
            rest
      | _, _ => m
      end
  end.

Definition loadAgentsFromDB (e : Engine) : Engine :=
  match db e with
  | None => e
  | Some d =>
      match d1_enabled_agents d with
      | Some rows => mkEngine (db e) (storeAgentRows (agents e) rows) (skillFiles e)
      | None => e
      end
  end.

Fixpoint storeSkillRows (m : JsMap SkillFile) (rows : list SkillRow)
  : JsMap SkillFile :=
  match rows with
  | [] => m
  | r :: rest =>
      match sr_keywords r with
      | Some ks =>
          storeSkillRows
            (jm_set m (sr_id r)
               (mkSkillFile (sr_id r) (sr_name r) (sr_agent r)
                            (sr_description r) ks))
            rest
      | None => m
      end
  end.

Definition loadSkillFilesFromDB (e : Engine) : Engine :=
  match db e with
  | None => e
  | Some d =>
      match d1_skill_files d with
      | Some rows => mkEngine (db e) (agents e) (storeSkillRows (skillFiles e) rows)
      | None => e
      end
  end.

(** [getAgents()], [getAgent(id)], [getSkillFiles()] *)
Definition getAgents (e : Engine) : list Agent :=
  filter ag_enabled (jm_values (agents e)).

Definition getAgent (e : Engine) (id : string) : option Agent :=
  jm_get (agents e) id.

Definition getSkillFiles (e : Engine) : list SkillFile :=
  jm_values (skillFiles e).

(** [findRelevantSkills] *)
Definition overlaps (skill : SkillFile) (keywords : list string) : bool :=
  existsb
    (fun k => existsb (fun mk => includes mk k || includes k mk) keywords)
    (sf_keywords skill).

Definition findRelevantSkills (e : Engine) (agentId : string)
    (keywords : list string) : list string :=
  let relevant :=
    map fst
        (filter (fun entry : string * SkillFile =>
                   String.eqb (sf_agent (snd entry)) agentId
                   && overlaps (snd entry) keywords)
                (skillFiles e)) in
  slice0 3 relevant.

(** [buildReason] *)
Definition buildReason (agent : string) (keywords : list string)
    (confidence : Q) (complexity : string) : string :=
  match keywords with
  | [] => ("Routed to " ++ agent ++ " (fallback, low keyword match)")%string
  | _ =>
      let keywordList := join ", " (slice0 3 keywords) in
      let confidenceLevel :=
        if Qgeb confidence (fl 0.75) then "high"
        else if Qgeb confidence (fl 0.5) then "medium" else "low" in
      ("Keywords: " ++ keywordList ++ " matched " ++ agent ++ " agent (" ++
       confidenceLevel ++ " confidence, " ++ complexity ++ " complexity)")%string
  end.

(** [estimateCost]: [0.5] when the agent is unknown or has no (or a zero)
    [costPerToken]. *)
Definition estimateCost (e : Engine) (agentId : string)
    (complexity : ComplexityAssessment) : Q :=
  let priced :=
    match jm_get (agents e) agentId with
    | Some agent =>
        match ag_costPerToken agent with
        | Some c => if Qeq_bool c 0 then None else Some c
        | None => None
        end
    | None => None
    end in
  match priced with
  | None => fl 0.5
  | Some costPerToken =>
      let tokens := inject_Z (ca_estimatedTokens complexity) in
      let baseCost := fmul (fdiv tokens 1000) costPerToken in
      let multiplier :=
        match ca_level complexity with
        | simple => fl 1.0
        | moderate => fl 1.5
        | complex => fl 2.5
        end in
      fmul baseCost multiplier
  end.

(** What a call of [route] reads from the clock. *)
Record Clock := mkClock {
  perf_start : Q;
  perf_end : Q;
  iso_now : string
}.

(** [topScore?.agent || FALLBACK_AGENT] *)
Definition defaultAgent (agentScores : list AgentScore) : string :=
  match agentScores with
  | topScore :: _ => or_else (as_agent topScore) FALLBACK_AGENT
  | [] => FALLBACK_AGENT
  end.

(** The complexity override of [route]. *)
Definition selectAgent (agentScores : list AgentScore) (level : Level)
  : string :=
  let selectedAgent := defaultAgent agentScores in
  if Level_eqb level complex && negb (String.eqb selectedAgent "planning") then
    match find (fun a => String.eqb (as_agent a) "planning") agentScores with
    | Some planningScore =>
        if Qgeb (as_score planningScore) 20 then "planning" else selectedAgent
    | None => selectedAgent
    end
  else selectedAgent.

(** [topScore?.matches.slice(0, 5).map((m) => m.keyword) || []] *)
Definition topKeywords (agentScores : list AgentScore) : list string :=
  match agentScores with
  | topScore :: _ => map km_keyword (slice0 5 (as_matches topScore))
  | [] => []
  end.

(** [route(message, userId, context)] *)
Definition route (e : Engine) (message : string) (userId : option string)
    (context : option string) (clock : Clock) : Promise RoutingDecision :=
  let startTime := perf_start clock in
  let agentScores := scoreMessage message in
  let confidence := getConfidenceScore agentScores in
  let complexity := assessComplexity message None in
  let selectedAgent := selectAgent agentScores (ca_level complexity) in
  let matchedKeywords := topKeywords agentScores in
  let estimatedCost := estimateCost e selectedAgent complexity in
  let skillFilesUsed := findRelevantSkills e selectedAgent matchedKeywords in
  let reason :=
    buildReason selectedAgent matchedKeywords confidence
                (level_string (ca_level complexity)) in
  let latency := round2 (fsub (perf_end clock) startTime) in
  Resolved
    (mkRoutingDecision selectedAgent (round2 confidence) reason skillFilesUsed
       (round2 estimatedCost) (level_string (ca_level complexity)) latency
       (iso_now clock) matchedKeywords).

End RouterEngine.

(* ================================================================= *)
(** ** cache.ts: the routing cache *)

Module RoutingCache.
Import Js.
Local Open Scope Z_scope.

Record CachedRoutingDecision := mkCached {
  crd_agent : string;
  crd_confidence : Q;
  crd_reason : string;
  crd_timestamp : Z;
  crd_ttl : Z;
  crd_hash : string
}.

Record CacheStats := mkStats {
  hits : Z;
  misses : Z;
  hitRate : Q;
  totalRequests : Z;
  avgLatency : Q
}.

Definition CACHE_TTL_SECONDS : Z := 3600.

(** *** The KV namespace, as the cache uses it

    A read gives a stored decision, [null], or throws.  A write either
    stores the value or throws. *)
Inductive KvRead :=
| KvValue (decision : CachedRoutingDecision)
| KvNull
| KvThrows.

Record KVNamespace := mkKV {
  kv_read : string -> KvRead;
  kv_writable : bool
}.

Definition kv_put (kv : KVNamespace) (key : string)
    (value : CachedRoutingDecision) : option KVNamespace :=
  if kv_writable kv then
    Some (mkKV (fun k => if String.eqb k key then KvValue value
                         else kv_read kv k)
               true)
  else None.

Record Cache := mkCache {
  cache : JsMap CachedRoutingDecision;
  stats : CacheStats;
  kvNamespace : option KVNamespace
}.

Definition zero_stats : CacheStats := mkStats 0 0 0%Q 0 0%Q.

(** [new RoutingCache(kvNamespace)] *)
Definition new (kv : option KVNamespace) : Cache := mkCache [] zero_stats kv.

(** [isExpired], with the value of [Date.now()] it reads. *)
Definition isExpired (now : Z) (decision : CachedRoutingDecision) : bool :=
  let age := now - crd_timestamp decision in
  age >? crd_ttl decision * 1000.

Definition updateStats (s : CacheStats) : CacheStats :=
  let total := hits s + misses s in
  mkStats (hits s) (misses s)
          (if total >? 0 then fdiv (inject_Z (hits s)) (inject_Z total)
           else 0%Q)
          total (avgLatency s).

Definition count_hit (s : CacheStats) : CacheStats :=
  updateStats (mkStats (hits s + 1) (misses s) (hitRate s)
                       (totalRequests s) (avgLatency s)).

Definition count_miss (s : CacheStats) : CacheStats :=
  updateStats (mkStats (hits s) (misses s + 1) (hitRate s)
                       (totalRequests s) (avgLatency s)).

Definition kv_key (messageHash : string) : string :=
  ("routing:" ++ messageHash)%string.

(** The two readings of [Date.now()] a call of [get] can make: one when
    it checks the entry in memory, one when it checks the entry read from
    KV. *)
Record GetClock := mkGetClock {
  now_memory : Z;
  now_kv : Z
}.

(** The entry [get] accepts from memory. *)
Definition fresh_in_memory (c : Cache) (clock : GetClock)
    (messageHash : string) : option CachedRoutingDecision :=
  match jm_get (cache c) messageHash with
  | Some cached =>
      if negb (isExpired (now_memory clock) cached) then Some cached else None
  | None => None
  end.

(** The entry [get] accepts from KV; a read that throws is caught. *)
Definition fresh_in_kv (c : Cache) (clock : GetClock)
    (messageHash : string) : option CachedRoutingDecision :=
  match kvNamespace c with
  | Some kv =>
      match kv_read kv (kv_key messageHash) with
      | KvValue kvCached =>
          if negb (isExpired (now_kv clock) kvCached) then Some kvCached
          else None
      | KvNull => None
      | KvThrows => None
      end
  | None => None
  end.

(** [get(messageHash)]: the result and the cache afterwards. *)
Definition get (c : Cache) (clock : GetClock) (messageHash : string)
  : option CachedRoutingDecision * Cache :=
  match fresh_in_memory c clock messageHash with
  | Some cached =>
      (Some cached, mkCache (cache c) (count_hit (stats c)) (kvNamespace c))
  | None =>
      match fresh_in_kv c clock messageHash with
      | Some kvCached =>
          (Some kvCached,
           mkCache (jm_set (cache c) messageHash kvCached)
                   (count_hit (stats c)) (kvNamespace c))
      | None =>
          (None, mkCache (cache c) (count_miss (stats c)) (kvNamespace c))
      end
  end.

(** [set(messageHash, decision)]: a KV write that throws is caught. *)
Definition set (c : Cache) (messageHash : string)
    (decision : CachedRoutingDecision) : Cache :=
  let memory := jm_set (cache c) messageHash decision in
  match kvNamespace c with
  | Some kv =>
      match kv_put kv (kv_key messageHash) decision with
      | Some kv' => mkCache memory (stats c) (Some kv')
      | None => mkCache memory (stats c) (Some kv)
      end
  | None => mkCache memory (stats c) None
  end.

(** [cleanup()], with the value of [Date.now()] it reads: the number of
    entries deleted and the cache afterwards.  The loop visits the entries
    of the map and deletes the current one when it has expired. *)
Definition cleanupStep (now : Z)
    (st : JsMap CachedRoutingDecision * Z)
    (entry : string * CachedRoutingDecision)
  : JsMap CachedRoutingDecision * Z :=
  let '(key, value) := entry in
  if now - crd_timestamp value >? crd_ttl value * 1000 then
    (jm_delete (fst st) key, snd st + 1)
  else st.

Definition cleanup (c : Cache) (now : Z) : Z * Cache :=
  let '(memory, cleaned) :=
    fold_left (cleanupStep now) (cache c) (cache c, 0) in
  (cleaned, mkCache memory (stats c) (kvNamespace c)).

(** [getStats()], [resetStats()] *)
Definition getStats (c : Cache) : CacheStats := stats c.

Definition resetStats (c : Cache) : Cache :=
  mkCache (cache c) zero_stats (kvNamespace c).

(** [clearAll()]: the map in memory is emptied, KV is left as it is. *)
Definition clearAll (c : Cache) : Cache :=
  mkCache [] (stats c) (kvNamespace c).

(** The calls a program can make on a cache. *)
Inductive CacheOp :=
| OpGet (clock : GetClock) (messageHash : string)
| OpSet (messageHash : string) (decision : CachedRoutingDecision)
| OpCleanup (now : Z)
| OpResetStats
| OpClearAll.

Definition applyOp (c : Cache) (op : CacheOp) : Cache :=
  match op with
  | OpGet clock h => snd (get c clock h)
  | OpSet h d => set c h d
  | OpCleanup now => snd (cleanup c now)
  | OpResetStats => resetStats c
  | OpClearAll => clearAll c
  end.

(** A cache after a sequence of calls, starting from a new one. *)
Definition runOps (kv : option KVNamespace) (ops : list CacheOp) : Cache :=
  fold_left applyOp ops (new kv).

End RoutingCache.

(* ================================================================= *)
(** ** index.ts: the POST /api/route handler *)

Module Worker.
Import Js RouterEngine RoutingCache.

(** The audit entry handed to [auditLogger.log]. *)
Record AuditLogEntry := mkAudit {
  al_id : string;
  al_timestamp : Z;
  al_messageHash : string;
  al_message : string;
  al_agent : string;
  al_confidence : Q;
  al_complexity : string;
  al_estimatedCost : Q;
  al_cached : bool;
  al_latency : Q;
  al_userId : option string;
  al_metadata : option string
}.

(** The globals of the module once [initializeRouter] has run; the audit
    logger is kept as the list of entries it was handed, oldest first. *)
Record Services := mkServices {
  routerEngine : Engine;
  routingCache : Cache;
  auditLogger : list AuditLogEntry
}.

Record Env := mkEnv {
  SKILL_GRAPH_DB : option D1Database;
  ROUTING_CACHE : option KVNamespace
}.

(** [initializeRouter(env)]; [None] is the state before the first
    request. *)
Definition initializeRouter (env : Env) (st : option Services) : Services :=
  match st with
  | Some s => s
  | None =>
      mkServices
        (loadSkillFilesFromDB
           (loadAgentsFromDB (RouterEngine.new_default (SKILL_GRAPH_DB env))))
        (RoutingCache.new (ROUTING_CACHE env))
        []
  end.

(** The JSON body of a request. *)
Record Body := mkBody {
  body_message : option string;
  body_userId : option string;
  body_context : option string
}.

(** The [timestamp] of a response: the ISO string of a fresh decision, or
    the number stored in a cache entry. *)
Inductive Timestamp :=
| TsIso (s : string)
| TsMillis (t : Z).

Record RouteResponse := mkRouteResponse {
  rr_agent : string;
  rr_confidence : Q;
  rr_reason : string;
  rr_skillFilesUsed : list string;
  rr_estimatedCost : Q;
  rr_complexity : string;
  rr_latency : Q;
  rr_timestamp : Timestamp;
  rr_cached : bool;
  rr_matchedKeywords : list string
}.

Inductive Response :=
| Json200 (body : RouteResponse)
| JsonError (status : Z) (error code : string) (message : option string).

(** [routingDecision], of type [any] in the handler: what the cache
    returned, or what the engine returned. *)
Inductive AnyDecision :=
| FromCache (c : CachedRoutingDecision)
| FromEngine (d : RoutingDecision).

Definition any_agent (r : AnyDecision) : string :=
  match r with FromCache c => crd_agent c | FromEngine d => rd_agent d end.

Definition any_confidence (r : AnyDecision) : Q :=
  match r with
  | FromCache c => crd_confidence c
  | FromEngine d => rd_confidence d
  end.

Definition any_reason (r : AnyDecision) : string :=
  match r with FromCache c => crd_reason c | FromEngine d => rd_reason d end.

(** [routingDecision.complexity || "unknown"] *)
Definition any_complexity (r : AnyDecision) : string :=
  match r with
  | FromCache _ => "unknown"
  | FromEngine d => or_else (rd_complexity d) "unknown"
  end.

(** [routingDecision.estimatedCost || 0] *)
Definition any_estimatedCost (r : AnyDecision) : Q :=
  match r with
  | FromCache _ => 0%Q
  | FromEngine d =>
      if Qeq_bool (rd_estimatedCost d) 0 then 0%Q else rd_estimatedCost d
  end.

(** [routingDecision.skillFilesUsed || []] *)
Definition any_skillFilesUsed (r : AnyDecision) : list string :=
  match r with FromCache _ => [] | FromEngine d => rd_skillFilesUsed d end.

(** [routingDecision.matchedKeywords || []] *)
Definition any_matchedKeywords (r : AnyDecision) : list string :=
  match r with FromCache _ => [] | FromEngine d => rd_matchedKeywords d end.

(** [routingDecision.timestamp || new Date().toISOString()] *)
Definition any_timestamp (r : AnyDecision) (iso : string) : Timestamp :=
  match r with
  | FromCache c =>
      if Z.eqb (crd_timestamp c) 0 then TsIso iso
      else TsMillis (crd_timestamp c)
  | FromEngine d => TsIso (or_else (rd_timestamp d) iso)
  end.

(** What one request reads from its surroundings; [am_body_error] is the
    message of the error thrown when the body cannot be read. *)
Record Ambient := mkAmbient {
  am_perf_start : Q;
  am_perf_end : Q;
  am_get_clock : GetClock;
  am_route_clock : Clock;
  am_date_now_cache : Z;
  am_date_now_audit : Z;
  am_iso_now : string;
  am_uuid : string;
  am_body_error : string
}.

Section Handler.

(** [RoutingCache.generateHash]: the SHA-256 digest in hex. *)
Variable generateHash : string -> string.

(** The handler past the check of [message]. *)
Definition routeMessage (s : Services) (message : string)
    (userId context : option string) (amb : Ambient) : Response * Services :=
  let messageHash := generateHash message in
  let '(hit, cache1) := RoutingCache.get (routingCache s) (am_get_clock amb)
                                         messageHash in
  let outcome : Promise (bool * AnyDecision * Cache) :=
    match hit with
    | Some c => Resolved (true, FromCache c, cache1)
    | None =>
        match route (routerEngine s) message userId context
                    (am_route_clock amb) with
        | Resolved d =>
            Resolved
              (false, FromEngine d,
               RoutingCache.set cache1 messageHash
                 (mkCached (rd_agent d) (rd_confidence d) (rd_reason d)
                           (am_date_now_cache amb) 3600 messageHash))
        | Rejected reason => Rejected reason
        end
    end in
  match outcome with
  | Rejected reason =>
      (JsonError 500 "Routing failed" "ROUTING_ERROR" (Some reason),
       mkServices (routerEngine s) cache1 (auditLogger s))
  | Resolved (cached, routingDecision, cache2) =>
      let latency := round2 (fsub (am_perf_end amb) (am_perf_start amb)) in
      let entry :=
        mkAudit (am_uuid amb) (am_date_now_audit amb) messageHash
                (substring 0 500 message)
                (any_agent routingDecision) (any_confidence routingDecision)
                (any_complexity routingDecision)
                (any_estimatedCost routingDecision)
                cached latency userId context in
      (Json200
         (mkRouteResponse
            (any_agent routingDecision) (any_confidence routingDecision)
            (any_reason routingDecision) (any_skillFilesUsed routingDecision)
            (any_estimatedCost routingDecision)
            (any_complexity routingDecision) latency
            (any_timestamp routingDecision (am_iso_now amb))
            cached (any_matchedKeywords routingDecision)),
       mkServices (routerEngine s) cache2 (auditLogger s ++ [entry]))
  end.

(** [app.post("/api/route", ...)]: [body] is [None] when reading
    [body.message] throws, that is when [c.req.json()] throws (no body,
    or one that is not JSON) or yields [null].  The answer and the
    globals afterwards. *)
Definition postRoute (env : Env) (st : option Services) (body : option Body)
    (amb : Ambient) : Response * Services :=
  let s := initializeRouter env st in
  match body with
  | None =>
      (JsonError 500 "Routing failed" "ROUTING_ERROR"
                 (Some (am_body_error amb)), s)
  | Some b =>
      match body_message b with
      | None =>
          (JsonError 400 "Missing required field: message" "INVALID_REQUEST"
                     None, s)
      | Some message =>
          if truthy message then
            routeMessage s message (body_userId b) (body_context b) amb
          else
            (JsonError 400 "Missing required field: message"
                       "INVALID_REQUEST" None, s)
      end
  end.

End Handler.

(** *** POST /api/analyze *)

Record MatchView := mkMatchView {
  mv_keyword : string;
  mv_confidence : Q;
  mv_domain : string
}.

Record AgentView := mkAgentView {
  av_agent : string;
  av_score : Q;
  av_domain : string;
  av_matches : list MatchView
}.

Record ComplexityView := mkComplexityView {
  cv_level : string;
  cv_score : Z;
  cv_factors : list string;
  cv_estimatedTokens : Z
}.

Record AnalyzeResponse := mkAnalyzeResponse {
  an_complexity : ComplexityView;
  an_agents : list AgentView;
  an_confidence : Q;
  an_domain : option string;
  an_estimatedCost : Q;
  an_timestamp : string
}.

Inductive AnalyzeResult :=
| Analyze200 (body : AnalyzeResponse)
| AnalyzeError (status : Z) (error code : string) (message : option string).

Definition agentView (score : KeywordMatcher.AgentScore) : AgentView :=
  mkAgentView
    (KeywordMatcher.as_agent score) (KeywordMatcher.as_score score)
    (KeywordMatcher.as_primaryDomain score)
    (map (fun m => mkMatchView (KeywordMatcher.km_keyword m)
                               (KeywordMatcher.km_confidence m)
                               (KeywordMatcher.km_domain m))
         (slice0 5 (KeywordMatcher.as_matches score))).

(** [app.post("/api/analyze", ...)]: [body] is [None] when reading
    [body.message] throws, and [bodyError] is then the message of the
    error; [iso] is the value of [new Date().toISOString()]. *)
Definition postAnalyze (body : option Body) (iso bodyError : string)
  : AnalyzeResult :=
  match body with
  | None =>
      AnalyzeError 500 "Analysis failed" "ANALYSIS_ERROR" (Some bodyError)
  | Some b =>
      match body_message b with
      | None =>
          AnalyzeError 400 "Missing required field: message"
                       "INVALID_REQUEST" None
      | Some message =>
          if truthy message then
            let agentScores := KeywordMatcher.scoreMessage message in
            let confidence := KeywordMatcher.getConfidenceScore agentScores in
            let complexity :=
              ComplexityClassifier.assessComplexity message None in
            let estimatedCost :=
              ComplexityClassifier.estimateCost
                complexity ComplexityClassifier.DEFAULT_PRICING in
            let domain := KeywordMatcher.extractDomain message in
            Analyze200
              (mkAnalyzeResponse
                 (mkComplexityView
                    (ComplexityClassifier.level_string
                       (ComplexityClassifier.ca_level complexity))
                    (ComplexityClassifier.ca_score complexity)
                    (ComplexityClassifier.ca_factors complexity)
                    (ComplexityClassifier.ca_estimatedTokens complexity))
                 (map agentView agentScores)
                 (round2 confidence) domain (round2 estimatedCost) iso)
          else
            AnalyzeError 400 "Missing required field: message"
                         "INVALID_REQUEST" None
      end
  end.

(** *** POST /api/admin/clear-cache: the globals afterwards *)
Definition postClearCache (env : Env) (st : option Services) : Services :=
  let s := initializeRouter env st in
  mkServices (routerEngine s)
             (RoutingCache.resetStats (RoutingCache.clearAll (routingCache s)))
             (auditLogger s).

(** *** The life of a worker

    The globals ([routerEngine], [routingCache], [auditLogger],
    [isInitialized]) live as long as the worker; every request finds
    them as the request before left them.  /health and /api/analyze do
    not touch them; the four GET endpoints /api/routing-stats,
    /api/agents, /api/skill-files and /api/keyword-search initialize
    them and then only read. *)
Inductive Request :=
| PostRoute (body : option Body) (amb : Ambient)
| PostClearCache
| GetReadOnly.

(** The globals after one request. *)
Definition serve (generateHash : string -> string) (env : Env)
    (st : option Services) (request : Request) : Services :=
  match request with
  | PostRoute body amb => snd (postRoute generateHash env st body amb)
  | PostClearCache => postClearCache env st
  | GetReadOnly => initializeRouter env st
  end.

(** The globals after the requests a worker has answered, one after the
    other, since it started. *)
Definition served (generateHash : string -> string) (env : Env)
    (requests : list Request) : option Services :=
  fold_left (fun st request => Some (serve generateHash env st request))
            requests None.

End Worker.

(* ================================================================= *)
(** ** Registry states the engine can be in *)

Module Registry.
Import Js KeywordMatcher RouterEngine.

(** The agent ids [scoreMessage] can rank: the keys of [KEYWORD_SETS]. *)
Definition scored_ids : list string := map fst KEYWORD_SETS.

(** [id] names an agent that [getAgents] lists (present and enabled). *)
Definition enabled_in (e : Engine) (id : string) : Prop :=
  exists a, In a (getAgents e) /\ ag_id a = id.

(** The engines a program can hold: built by the constructor, then
    reloaded from D1 any number of times. *)
Inductive reachable : Engine -> Prop :=
| reach_new : forall d ags sks, reachable (RouterEngine.new d ags sks)
| reach_agents : forall e, reachable e -> reachable (loadAgentsFromDB e)
| reach_skills : forall e, reachable e -> reachable (loadSkillFilesFromDB e).

(** Every key of the map is the id of the value stored under it. *)
Definition keyed_by {V : Type} (id : V -> string) (m : JsMap V) : Prop :=
  forall k v, In (k, v) m -> id v = k.

(** A map is well keyed when no key repeats and each value sits under
    its own id. *)
Definition well_keyed {V : Type} (id : V -> string) (m : JsMap V) : Prop :=
  NoDup (jm_keys m) /\ keyed_by id m.

(** The agent map holds an enabled agent under [id]. *)
Definition holds_enabled (m : JsMap Agent) (id : string) : Prop :=
  exists a, jm_get m id = Some a /\ ag_id a = id /\ ag_enabled a = true.

End Registry.

(* ================================================================= *)
(** ** Concrete inputs used in the examples below *)

Module Scenarios.
Import Js KeywordMatcher RouterEngine RoutingCache Worker.

Definition clock0 : Clock := mkClock 0%Q 1.5%Q "2026-02-18T00:00:00.000Z".

(** The static agents with the code generation agent switched off. *)
Definition agents_codegen_off : list Agent :=
  map (fun a =>
         if String.eqb (ag_id a) "codegen" then
           mkAgent (ag_id a) (ag_name a) (ag_description a) (ag_keywords a)
                   (ag_domains a) (ag_costPerToken a) (ag_maxTokens a) false
         else a)
      STATIC_AGENTS.

Definition registry_codegen_off : Engine :=
  RouterEngine.new None agents_codegen_off STATIC_SKILL_FILES.

(** A registry built from no agents and no skill files. *)
Definition registry_empty : Engine := RouterEngine.new None [] [].

Definition login_text : string := "Fix the login bug".

Definition debug_text : string :=
  "Implement and debug the payment processing function".

Definition payment_text : string :=
  "Design a secure payment API with caching".

(** A long task description: 25 code generation keywords, 22 planning
    keywords, and enough complexity indicators to be complex. *)
Definition handover_text : string :=
  "Plan the project roadmap and timeline: design the architecture, write the proposal and requirement scope, set each milestone, deadline, goal and objective, list every task and deliverable per stakeholder and team, fix the resource budget, cost estimate and schedule, then implement, build, code, develop, create, test, debug, optimize and refactor every function, method, class, component, endpoint and route, deploy the release, setup and configure the library, framework and database query.".

Definition env0 : Env := mkEnv None None.

Definition ambient0 : Ambient :=
  mkAmbient 0%Q 1.5%Q (mkGetClock 1000 1000) clock0 1000 1000
            "2026-02-18T00:00:00.000Z" "00000000-0000-4000-8000-000000000000"
            "Unexpected end of JSON input".

(** A stand-in for the digest in the examples: the text itself. *)
Definition digest0 (text : string) : string := text.

Definition body_of (message : string) : Body :=
  mkBody (Some message) None None.

(** An entry stored at time 1000 with the handler's TTL, held both in
    memory and in KV, and a clock one millisecond past its expiry. *)
Definition old_entry : CachedRoutingDecision :=
  mkCached "codegen" (Js.fl 0.02) "Keywords: fix, bug matched codegen agent"
           1000 3600 "h0".

Definition old_cache : Cache :=
  mkCache [("h0", old_entry)] zero_stats
          (Some (mkKV (fun k => if String.eqb k "routing:h0"
                                then KvValue old_entry else KvNull)
                      true)).

Definition late_clock : GetClock := mkGetClock 3601001 3601001.

(** The globals after a first request for [login_text]. *)
Definition warmed_up : Services :=
  snd (postRoute digest0 env0 None (Some (body_of login_text)) ambient0).

End Scenarios.

(* ================================================================= *)
(** ** Notions used to state further properties *)

Module Notions.
Import Js KeywordMatcher ComplexityClassifier RouterEngine RoutingCache.
Import Worker.

(** The rational a finite binary64 value of the Standard Library's
    specification of floating-point arithmetic denotes. *)
Definition b64_value (f : spec_float) : Q :=
  match f with
  | S754_finite s m e =>
      ((if s then -1 else 1) * inject_Z (Zpos m) * 2 ^ e)%Q
  | _ => 0%Q
  end.

(** An integer as a binary64 value of that specification. *)
Definition b64_of_Z (z : Z) : spec_float := binary_normalize 53 1024 z 0 false.

(** A text of ASCII characters only.  On such a text [toLowerCase] is
    [String.prototype.toLowerCase] to the letter; beyond Latin-1 the
    method of the language can change the length of a text (U+0130
    becomes two code units), which no [string] here can show. *)
Fixpoint ascii_only (s : string) : bool :=
  match s with
  | EmptyString => true
  | String c t => Nat.ltb (code c) 128 && ascii_only t
  end.

(** A request that carries no message: its body could not be read, or
    has no [message], or has the empty string as [message]. *)
Definition no_message (body : option Body) : Prop :=
  match body with
  | None => True
  | Some b => body_message b = None \/ body_message b = Some ""%string
  end.

(** The keywords [KEYWORD_SETS] lists for an agent, all domains together. *)
Definition keywords_of (agent : string) : list string :=
  match jm_get KEYWORD_SETS agent with
  | Some domains => flat_map snd domains
  | None => []
  end.

(** The set [allKeywords] of [scoreMessage]: the tokens and the compound
    phrases of the lowercased text. *)
Definition candidates (text : string) : list string :=
  tokenize (toLowerCase text) ++ extractCompoundKeywords (toLowerCase text).

(** The length of a list as a number. *)
Definition count {A : Type} (l : list A) : Q :=
  inject_Z (Z.of_nat (List.length l)).

(** What one rounded addition can be off by while the total is below
    64: [2^-47] covers the rounding of the sum ([2^-48]) and the distance
    of the increment from its decimal. *)
Definition rounding_slack : Q := 1 # 140737488355328.

(** The running total [t] of the scoring loop after [j] keywords, [m] of
    them matched and [h] of them found in the text: at most [j], and
    within one [rounding_slack] per addition of the exact sum. *)
Definition tracked (t : Q) (j : Z) (m h : Q) : Prop :=
  (0 <= t /\ t <= inject_Z j /\
   0.85 * m + 0.15 * h - (m + h) * rounding_slack <= t /\
   t <= 0.85 * m + 0.15 * h + (m + h) * rounding_slack)%Q.

(** In descending order of score. *)
Definition ranked (l : list AgentScore) : Prop :=
  StronglySorted (fun a b => (as_score b <= as_score a)%Q) l.

(** The scores of the agents in the order of [KEYWORD_SETS], before
    [scoreMessage] sorts them. *)
Definition unsortedScores (text : string) : list AgentScore :=
  map (fun entry : string * list (string * list string) =>
         scoreAgent (candidates text) (toLowerCase text)
                    (fst entry) (snd entry))
      KEYWORD_SETS.

(** The number of [get] calls in a sequence of calls since the last
    [resetStats]. *)
Definition getsSinceReset (ops : list CacheOp) : Z :=
  fold_left
    (fun n op =>
       match op with
       | OpGet _ _ => (n + 1)%Z
       | OpResetStats => 0%Z
       | _ => n
       end)
    ops 0%Z.

(** An entry that has not expired at the time [now]. *)
Definition fresh_at (now : Z) (d : CachedRoutingDecision) : Prop :=
  (now - crd_timestamp d <= crd_ttl d * 1000)%Z.

(** What the counters of a cache satisfy after [gets] calls of [get]
    since the last reset. *)
Definition stats_ok (s : CacheStats) (gets : Z) : Prop :=
  (hits s + misses s = gets /\ totalRequests s = hits s + misses s /\
   0 <= hits s /\ 0 <= misses s)%Z /\
  avgLatency s = 0%Q /\
  hitRate s = (if (hits s + misses s >? 0)%Z
               then Js.fdiv (inject_Z (hits s))
                            (inject_Z (hits s + misses s))
               else 0%Q).

(** The agents whose baseline in [AGENT_COMPLEXITY_MAPPING] is complex. *)
Definition complex_baseline (agent : option string) : bool :=
  match agent with
  | Some a =>
      match jm_get AGENT_COMPLEXITY_MAPPING a with
      | Some complex => true
      | _ => false
      end
  | None => false
  end.

(** How many of the listed keywords the text contains. *)
Definition found (keywords : list string) (normalizedText : string) : Z :=
  Z.of_nat (List.length
              (filter (fun k => includes normalizedText k) keywords)).

(** A word as [tokenize] can produce it: three or more characters, all of
    the class [\w]. *)
Fixpoint all_word_chars (s : string) : bool :=
  match s with
  | EmptyString => true
  | String c t => is_word c && all_word_chars t
  end.

Definition token_shaped (s : string) : bool :=
  Nat.ltb 2 (String.length s) && all_word_chars s.

(** The text has a character that is not white space. *)
Fixpoint has_visible (s : string) : bool :=
  match s with
  | EmptyString => false
  | String c t => negb (is_space c) || has_visible t
  end.

(** Every character of the pattern is its own and only its own
    lowercase form. *)
Fixpoint caseless (p : string) : Prop :=
  match p with
  | EmptyString => True
  | String c t => (forall x, lower_char x = c <-> x = c) /\ caseless t
  end.

(** The name of the first keyword group [KEYWORD_SETS] lists for an
    agent. *)
Definition first_domain_of (agent : string) : string :=
  match jm_get KEYWORD_SETS agent with
  | Some ((domain, _) :: _) => domain
  | _ => "unknown"
  end.

End Notions.

(* ================================================================= *)
(** ** Further concrete inputs *)

Module Samples.
Import Js KeywordMatcher ComplexityClassifier RouterEngine RoutingCache.
Import Worker Scenarios.

(** Three rows of the agents table; the second one has keywords that are
    not JSON. *)
Definition row_docs : AgentRow :=
  mkAgentRow "docs" "Documentation Agent" "Writes documentation"
             (Some ["docs"; "readme"]) (Some ["markdown"])
             (Some (Js.fl 0.001)) (Some 2000%Z).

Definition row_broken : AgentRow :=
  mkAgentRow "broken" "Broken Agent" "Keywords do not parse"
             None (Some []) None None.

(** A text on which exact sums would tie code generation and security
    at 1.9: one matched keyword each (implement, hardening) and six
    further keywords each that occur inside longer words. *)
Definition tie_text : string :=
  "implement pythonic developer querying refactoring databases methods hardening permissions secured csrf-safe cwe-79 defenses antiphishing".

(** A complex task description on which exact sums would give planning
    exactly 20: 17 matched keywords, and 20 further keywords that occur
    inside longer words. *)
Definition threshold_text : string :=
  "plan strategy roadmaps timelines project workflows processs architectures design design document proposals requirement scopes milestones deadlines goal objectives task deliverables stakeholder team resources budgets costs estimate schedules phases sprint user story acceptance criteria risk constraint dependency communications reviews approvals governances, then implement, build, code, develop, create, write, test, debug, fix, optimize and refactor every function, method, class, component, endpoint and route, deploy the release, setup and configure the library, framework and database query.".

Definition row_data : AgentRow :=
  mkAgentRow "data" "Data Agent" "Analyses data"
             (Some ["data"]) (Some ["sql"]) (Some (Js.fl 0.002)) (Some 3000%Z).

End Samples.

(* ================================================================= *)
(** ** Facts about the primitives *)

Section JsFacts.
Import Js.

Lemma insert_desc_perm {A : Type} (key : A -> Q) (x : A) (l : list A) :
  Permutation (insert_desc key x l) (x :: l).
Proof.
  induction l as [|y t IH]; simpl.
  - apply Permutation_refl.
  - destruct (Qltb (key x) (key y)).
    + eapply perm_trans; [apply perm_skip, IH | apply perm_swap].
    + apply Permutation_refl.
Qed.

Lemma toSorted_desc_perm {A : Type} (key : A -> Q) (l : list A) :
  Permutation (toSorted_desc key l) l.
Proof.
  unfold toSorted_desc.
  induction l as [|x t IH]; simpl.
  - constructor.
  - eapply perm_trans; [apply insert_desc_perm | now apply perm_skip].
Qed.

Lemma toSorted_desc_In {A : Type} (key : A -> Q) (l : list A) (x : A) :
  In x (toSorted_desc key l) <-> In x l.
Proof.
  split; apply Permutation_in;
    [apply toSorted_desc_perm | apply Permutation_sym, toSorted_desc_perm].
Qed.

Lemma jm_get_absent {V : Type} (m : JsMap V) (k : string) :
  ~ In k (jm_keys m) -> jm_get m k = None.
Proof.
  induction m as [|[k' v'] rest IH]; simpl; intros Hk; [reflexivity|].
  destruct (String.eqb_spec k k') as [->|Hne].
  - exfalso. apply Hk. now left.
  - apply IH. intros Hin. apply Hk. now right.
Qed.

Lemma jm_set_fresh {V : Type} (m : JsMap V) (k : string) (v : V) :
  ~ In k (jm_keys m) -> jm_set m k v = m ++ [(k, v)].
Proof.
  induction m as [|[k' v'] rest IH]; simpl; intros Hk; [reflexivity|].
  destruct (String.eqb_spec k k') as [->|Hne].
  - exfalso. apply Hk. now left.
  - f_equal. apply IH. intros Hin. apply Hk. now right.
Qed.

Lemma jm_keys_set {V : Type} (m : JsMap V) (k : string) (v : V) :
  forall x, In x (jm_keys (jm_set m k v)) <-> x = k \/ In x (jm_keys m).
Proof.
  induction m as [|[k' v'] rest IH]; simpl; intros x.
  - intuition congruence.
  - destruct (String.eqb_spec k k') as [->|Hne]; simpl.
    + intuition congruence.
    + rewrite IH. intuition congruence.
Qed.

Lemma jm_set_NoDup {V : Type} (m : JsMap V) (k : string) (v : V) :
  NoDup (jm_keys m) -> NoDup (jm_keys (jm_set m k v)).
Proof.
  induction m as [|[k' v'] rest IH]; simpl; intros Hnd.
  - constructor; [intros [] | constructor].
  - inversion Hnd as [|? ? Hnotin Hrest]; subst.
    destruct (String.eqb_spec k k') as [->|Hne]; simpl.
    + now constructor.
    + constructor; [|now apply IH].
      intros Hin. apply jm_keys_set in Hin. destruct Hin as [Heq|Hin].
      * now apply Hne.
      * now apply Hnotin.
Qed.

Lemma jm_set_In {V : Type} (m : JsMap V) (k : string) (v : V) :
  forall k0 v0, In (k0, v0) (jm_set m k v) ->
                (k0 = k /\ v0 = v) \/ In (k0, v0) m.
Proof.
  induction m as [|[k' v'] rest IH]; simpl; intros k0 v0 Hin.
  - destruct Hin as [Heq|[]]. inversion Heq. now left.
  - destruct (String.eqb_spec k k') as [->|Hne]; simpl in Hin.
    + destruct Hin as [Heq|Hin]; [inversion Heq; now left | right; now right].
    + destruct Hin as [Heq|Hin]; [right; now left|].
      destruct (IH _ _ Hin) as [H|H]; [now left | right; now right].
Qed.

(** In a map without repeated keys, an entry met while iterating is the
    one [get] returns for its key. *)
Lemma jm_get_of_In {V : Type} (m : JsMap V) (k : string) (v : V) :
  NoDup (jm_keys m) -> In (k, v) m -> jm_get m k = Some v.
Proof.
  induction m as [|[k' v'] rest IH]; simpl; intros Hnd Hin; [contradiction|].
  inversion Hnd as [|? ? Hnotin Hrest]; subst.
  destruct Hin as [Heq|Hin].
  - inversion Heq; subst. now rewrite String.eqb_refl.
  - destruct (String.eqb_spec k k') as [->|Hne].
    + exfalso. apply Hnotin. unfold jm_keys.
      change k' with (fst (k', v)). now apply in_map.
    + now apply IH.
Qed.

(** Storing computed values under distinct fresh keys, one after the
    other, lists them in that order. *)
Lemma fold_jm_set_distinct {D V : Type} (g : string -> D -> V)
    (l : list (string * D)) :
  forall m0 : JsMap V,
    NoDup (jm_keys m0 ++ map fst l) ->
    fold_left (fun (m : JsMap V) (entry : string * D) =>
                 let '(a, d) := entry in jm_set m a (g a d)) l m0
    = m0 ++ map (fun entry => (fst entry, g (fst entry) (snd entry))) l.
Proof.
  induction l as [|[a d] rest IH]; simpl; intros m0 Hnd.
  - now rewrite app_nil_r.
  - assert (Hfresh : ~ In a (jm_keys m0)).
    { intros Hin. apply NoDup_remove_2 in Hnd. apply Hnd.
      apply in_or_app. now left. }
    rewrite (jm_set_fresh _ _ _ Hfresh), IH.
    + now rewrite <- app_assoc.
    + unfold jm_keys in *. rewrite map_app, <- app_assoc. simpl.
      exact Hnd.
Qed.

Lemma slice0_length {A : Type} (n : nat) (xs : list A) :
  (List.length (slice0 n xs) <= n)%nat.
Proof. unfold slice0. apply firstn_le_length. Qed.

Lemma slice0_In {A : Type} (n : nat) (xs : list A) (x : A) :
  In x (slice0 n xs) -> In x xs.
Proof.
  unfold slice0. revert xs.
  induction n as [|n IH]; intros [|y t]; simpl; try tauto.
  intros [H|H]; [now left | right; now apply IH].
Qed.

End JsFacts.

(* ================================================================= *)
(** ** Facts about binary64 rounding *)

Section NumberFacts.
Import Js.
Local Open Scope Q_scope.

(** *** Powers of two *)

Lemma pow2_pos (e : Z) : 0 < 2 ^ e.
Proof. apply Qpower_0_lt. reflexivity. Qed.

Lemma pow2_nonzero (e : Z) : ~ 2 ^ e == 0.
Proof.
  intros H. pose proof (pow2_pos e) as Hp. rewrite H in Hp.
  exact (Qlt_irrefl 0 Hp).
Qed.

Lemma pow2_le (a b : Z) : (a <= b)%Z -> 2 ^ a <= 2 ^ b.
Proof. intros H. apply Qpower_le_compat_l; [exact H | discriminate]. Qed.

Lemma pow2_lt (a b : Z) : (a < b)%Z -> 2 ^ a < 2 ^ b.
Proof. intros H. apply Qpower_lt_compat_l; [exact H | reflexivity]. Qed.

Lemma pow2_succ (a : Z) : 2 ^ (a + 1) == 2 * 2 ^ a.
Proof.
  rewrite Qpower_plus by discriminate.
  change (2 ^ 1) with 2. ring.
Qed.

Lemma pow2_Z (a : Z) : (0 <= a)%Z -> inject_Z (2 ^ a) == 2 ^ a.
Proof. intros H. rewrite Zpower_Qpower by exact H. reflexivity. Qed.

Lemma in_binade_unique (e1 e2 : Z) (x : Q) :
  in_binade e1 x -> in_binade e2 x -> e1 = e2.
Proof.
  intros [L1 U1] [L2 U2].
  assert (H12 : (e1 < e2 + 1)%Z).
  { apply (Qpower_lt_compat_l_inv 2); [| reflexivity].
    eapply Qle_lt_trans; eassumption. }
  assert (H21 : (e2 < e1 + 1)%Z).
  { apply (Qpower_lt_compat_l_inv 2); [| reflexivity].
    eapply Qle_lt_trans; eassumption. }
  lia.
Qed.

Lemma Qabs_as_fraction (x : Q) :
  Qabs x == inject_Z (Z.abs (Qnum x)) / inject_Z (Zpos (Qden x)).
Proof.
  destruct x as [n d]. cbn [Qnum Qden].
  rewrite <- Zabs_Qabs. rewrite (Qmake_Qdiv (Z.abs n) d). reflexivity.
Qed.

Lemma exponent_spec (x : Q) : ~ x == 0 -> in_binade (exponent x) x.
Proof.
  intros Hx. unfold exponent.
  destruct (Qeq_bool x 0) eqn:E0.
  { apply Qeq_bool_eq in E0. contradiction. }
  set (n := Z.abs (Qnum x)). set (d := Zpos (Qden x)).
  assert (Hn : (0 < n)%Z).
  { unfold n. destruct x as [xn xd]. cbn [Qnum].
    assert (xn <> 0)%Z; [| lia].
    intros ->. apply Hx. reflexivity. }
  assert (Hd : (0 < d)%Z) by (unfold d; lia).
  destruct (Z.log2_spec n Hn) as [Ln Un].
  destruct (Z.log2_spec d Hd) as [Ld Ud].
  pose proof (Z.log2_nonneg n) as Nn. pose proof (Z.log2_nonneg d) as Nd.
  set (a := Z.log2 n) in *. set (b := Z.log2 d) in *.
  assert (Habs : Qabs x == inject_Z n / inject_Z d) by apply Qabs_as_fraction.
  assert (Qd : inject_Z 0 < inject_Z d) by (rewrite <- Zlt_Qlt; exact Hd).
  change (inject_Z 0) with 0 in Qd.
  assert (QLn : 2 ^ a <= inject_Z n).
  { rewrite <- pow2_Z by exact Nn. rewrite <- Zle_Qle. exact Ln. }
  assert (QUn : inject_Z n < 2 * 2 ^ a).
  { rewrite <- pow2_succ.
    replace (a + 1)%Z with (Z.succ a) by lia.
    rewrite <- pow2_Z by lia. rewrite <- Zlt_Qlt. exact Un. }
  assert (QLd : 2 ^ b <= inject_Z d).
  { rewrite <- pow2_Z by exact Nd. rewrite <- Zle_Qle. exact Ld. }
  assert (QUd : inject_Z d < 2 * 2 ^ b).
  { rewrite <- pow2_succ.
    replace (b + 1)%Z with (Z.succ b) by lia.
    rewrite <- pow2_Z by lia. rewrite <- Zlt_Qlt. exact Ud. }
  assert (Hk : 2 ^ (a - b) * 2 ^ b == 2 ^ a).
  { rewrite <- Qpower_plus by discriminate.
    replace (a - b + b)%Z with a by lia. reflexivity. }
  pose proof (pow2_pos (a - b)) as Pk. pose proof (pow2_pos b) as Pb.
  pose proof (pow2_pos a) as Pa.
  (* upper bound: |x| < 2^(a-b+1) *)
  assert (Up : Qabs x < 2 ^ (a - b + 1)).
  { rewrite Habs. apply Qlt_shift_div_r; [exact Qd|].
    rewrite pow2_succ.
    generalize dependent (2 ^ (a - b)). generalize dependent (2 ^ a).
    generalize dependent (2 ^ b). generalize dependent (inject_Z d).
    generalize dependent (inject_Z n). intros. nra. }
  (* lower bound: 2^(a-b-1) <= |x| *)
  assert (Lo : 2 ^ (a - b - 1) <= Qabs x).
  { rewrite Habs. apply Qle_shift_div_l; [exact Qd|].
    assert (Hk1 : 2 * 2 ^ (a - b - 1) == 2 ^ (a - b)).
    { rewrite <- pow2_succ. replace (a - b - 1 + 1)%Z with (a - b)%Z by lia.
      reflexivity. }
    generalize dependent (2 ^ (a - b - 1)).
    generalize dependent (2 ^ (a - b)). generalize dependent (2 ^ a).
    generalize dependent (2 ^ b). generalize dependent (inject_Z d).
    generalize dependent (inject_Z n). intros. nra. }
  fold n d a b.
  destruct (Qle_bool (2 ^ (a - b)) (Qabs x)) eqn:E.
  - apply Qle_bool_iff in E. split; assumption.
  - split; [exact Lo|].
    replace (a - b - 1 + 1)%Z with (a - b)%Z by lia.
    apply Qnot_le_lt. intros H. apply Qle_bool_iff in H. congruence.
Qed.


Lemma exponent_eq (x y : Q) : x == y -> exponent x = exponent y.
Proof.
  intros E.
  destruct (Qeq_dec x 0) as [Z0|NZ].
  - unfold exponent.
    assert (Hy : y == 0) by (rewrite <- E; exact Z0).
    apply Qeq_bool_iff in Z0. apply Qeq_bool_iff in Hy.
    rewrite Z0, Hy. reflexivity.
  - assert (NZy : ~ y == 0) by (rewrite <- E; exact NZ).
    apply (in_binade_unique _ _ x).
    + apply exponent_spec. exact NZ.
    + destruct (exponent_spec y NZy) as [L U].
      split; rewrite E; assumption.
Qed.

Lemma exponent_le (x y : Q) :
  ~ x == 0 -> Qabs x <= Qabs y -> (exponent x <= exponent y)%Z.
Proof.
  intros NZ H.
  assert (NZy : ~ y == 0).
  { intros E0. rewrite E0 in H. change (Qabs 0) with 0 in H.
    apply NZ. pose proof (Qabs_nonneg x).
    assert (E : Qabs x == 0) by lra.
    destruct (Qabs_Qle_condition x 0) as [F _].
    destruct F as [F1 F2]; [lra|]. lra. }
  destruct (exponent_spec x NZ) as [Lx _].
  destruct (exponent_spec y NZy) as [_ Uy].
  assert (Hlt : (exponent x < exponent y + 1)%Z).
  { apply (Qpower_lt_compat_l_inv 2); [| reflexivity]. lra. }
  lia.
Qed.

(** *** Rounding to the nearest integer *)

Lemma nearest_even_cases (q : Q) :
  let f := Qfloor q in
  (nearest_even q = f /\ q - inject_Z f <= 1 # 2) \/
  (nearest_even q = (f + 1)%Z /\ 1 # 2 <= q - inject_Z f).
Proof.
  intros f. unfold nearest_even. fold f.
  destruct (Qcompare_spec (q - inject_Z f) (1 # 2)) as [E|L|G].
  - destruct (Z.even f); [left | right]; split; try reflexivity; lra.
  - left. split; [reflexivity | lra].
  - right. split; [reflexivity | lra].
Qed.

Lemma nearest_even_eq (p q : Q) : p == q -> nearest_even p = nearest_even q.
Proof.
  intros E. unfold nearest_even.
  assert (Ef : Qfloor p = Qfloor q) by (rewrite E; reflexivity).
  rewrite Ef.
  assert (Ec : (p - inject_Z (Qfloor q) ?= 1 # 2)
               = (q - inject_Z (Qfloor q) ?= 1 # 2)).
  { rewrite E. reflexivity. }
  rewrite Ec. reflexivity.
Qed.

Lemma nearest_even_le (p q : Q) :
  p <= q -> (nearest_even p <= nearest_even q)%Z.
Proof.
  intros H.
  pose proof (Qfloor_resp_le p q H) as Hf.
  pose proof (Qfloor_le p) as Lp. pose proof (Qlt_floor p) as Up.
  pose proof (Qfloor_le q) as Lq. pose proof (Qlt_floor q) as Uq.
  destruct (Z.eq_dec (Qfloor p) (Qfloor q)) as [E|NE].
  - unfold nearest_even. rewrite E.
    destruct (Qcompare_spec (p - inject_Z (Qfloor q)) (1 # 2)) as [E1|L1|G1];
    destruct (Qcompare_spec (q - inject_Z (Qfloor q)) (1 # 2)) as [E2|L2|G2];
    try destruct (Z.even (Qfloor q)); try lia; exfalso; lra.
  - assert (Hlt : (Qfloor p + 1 <= Qfloor q)%Z) by lia.
    destruct (nearest_even_cases p) as [[-> _]|[-> _]];
    destruct (nearest_even_cases q) as [[-> _]|[-> _]]; lia.
Qed.

Lemma nearest_even_Z (z : Z) : nearest_even (inject_Z z) = z.
Proof.
  unfold nearest_even. rewrite Qfloor_Z.
  destruct (Qcompare_spec (inject_Z z - inject_Z z) (1 # 2)) as [E|L|G].
  - exfalso. lra.
  - reflexivity.
  - exfalso. lra.
Qed.

Lemma nearest_even_near (q : Q) :
  q - (1 # 2) <= inject_Z (nearest_even q) <= q + (1 # 2).
Proof.
  pose proof (Qfloor_le q) as Lq. pose proof (Qlt_floor q) as Uq.
  rewrite inject_Z_plus in Uq. change (inject_Z 1) with 1 in Uq.
  destruct (nearest_even_cases q) as [[-> H]|[-> H]].
  - lra.
  - rewrite inject_Z_plus. change (inject_Z 1) with 1. lra.
Qed.

(** *** Rounding to binary64 *)

Lemma fl_unfold (x : Q) :
  fl x == inject_Z (nearest_even (x / 2 ^ spacing x)) * 2 ^ spacing x.
Proof. unfold fl. rewrite Qred_correct. reflexivity. Qed.

Lemma fl_eq (x y : Q) : x == y -> fl x = fl y.
Proof.
  intros E. unfold fl. apply Qred_complete.
  assert (Es : spacing x = spacing y)
    by (unfold spacing; rewrite (exponent_eq x y E); reflexivity).
  rewrite Es.
  rewrite (nearest_even_eq (x / 2 ^ spacing y) (y / 2 ^ spacing y)).
  - reflexivity.
  - rewrite E. reflexivity.
Qed.

Lemma fl_nonneg (x : Q) : 0 <= x -> 0 <= fl x.
Proof.
  intros H. rewrite fl_unfold.
  pose proof (pow2_pos (spacing x)) as P.
  apply Qmult_le_0_compat; [| lra].
  change 0 with (inject_Z 0). rewrite <- Zle_Qle.
  rewrite <- (nearest_even_Z 0). apply nearest_even_le.
  change (inject_Z 0) with 0. apply Qle_shift_div_l; [exact P | lra].
Qed.


Lemma pow2_split (k s : Z) : 2 ^ k == 2 ^ (k - s) * 2 ^ s.
Proof.
  rewrite <- Qpower_plus by discriminate.
  replace (k - s + s)%Z with k by lia. reflexivity.
Qed.

(** Rounding at spacing [2^s] does not cross a power of two above it. *)
Lemma scaled_below_pow2 (q : Q) (k s : Z) :
  (s <= k)%Z -> q <= 2 ^ k ->
  inject_Z (nearest_even (q / 2 ^ s)) * 2 ^ s <= 2 ^ k.
Proof.
  intros Hs Hq. pose proof (pow2_pos s) as P.
  rewrite (pow2_split k s).
  apply Qmult_le_compat_r; [| lra].
  rewrite <- (pow2_Z (k - s)) by lia. rewrite <- Zle_Qle.
  rewrite <- (nearest_even_Z (2 ^ (k - s))). apply nearest_even_le.
  rewrite (pow2_Z (k - s)) by lia.
  apply Qle_shift_div_r; [exact P|].
  rewrite <- pow2_split. exact Hq.
Qed.

Lemma scaled_above_pow2 (q : Q) (k s : Z) :
  (s <= k)%Z -> 2 ^ k <= q ->
  2 ^ k <= inject_Z (nearest_even (q / 2 ^ s)) * 2 ^ s.
Proof.
  intros Hs Hq. pose proof (pow2_pos s) as P.
  rewrite (pow2_split k s) at 1.
  apply Qmult_le_compat_r; [| lra].
  rewrite <- (pow2_Z (k - s)) by lia. rewrite <- Zle_Qle.
  rewrite <- (nearest_even_Z (2 ^ (k - s))) at 1. apply nearest_even_le.
  rewrite (pow2_Z (k - s)) by lia.
  apply Qle_shift_div_l; [exact P|].
  rewrite <- pow2_split. exact Hq.
Qed.

(** Rounding is monotone on the numbers that are not negative. *)
Lemma fl_le (x y : Q) : 0 <= x -> x <= y -> fl x <= fl y.
Proof.
  intros Hx Hxy.
  destruct (Qeq_dec x 0) as [Z0|NZ].
  { rewrite (fl_eq x 0 Z0). change (fl 0) with 0.
    apply fl_nonneg. lra. }
  assert (Px : 0 < x).
  { apply Qnot_le_lt. intros H. apply NZ. lra. }
  assert (Ax : Qabs x == x) by (apply Qabs_pos; lra).
  assert (Ay : Qabs y == y) by (apply Qabs_pos; lra).
  assert (NZy : ~ y == 0) by (intros E0; lra).
  assert (He : (exponent x <= exponent y)%Z).
  { apply exponent_le; [exact NZ|]. rewrite Ax, Ay. exact Hxy. }
  destruct (exponent_spec x NZ) as [Lx Ux]. rewrite Ax in Lx, Ux.
  destruct (exponent_spec y NZy) as [Ly Uy]. rewrite Ay in Ly, Uy.
  rewrite (fl_unfold x), (fl_unfold y). unfold spacing.
  destruct (Z.eq_dec (Z.max (exponent x - 52) (-1074))
                     (Z.max (exponent y - 52) (-1074))) as [Es|Ns].
  - rewrite Es. set (s := Z.max (exponent y - 52) (-1074)).
    pose proof (pow2_pos s) as P.
    apply Qmult_le_compat_r; [| lra].
    rewrite <- Zle_Qle. apply nearest_even_le.
    apply Qmult_le_compat_r; [exact Hxy|].
    apply Qlt_le_weak. apply Qinv_lt_0_compat. exact P.
  - apply Qle_trans with (2 ^ exponent y).
    + apply scaled_below_pow2; [lia|].
      apply Qle_trans with (2 ^ (exponent x + 1)); [lra|].
      apply pow2_le. lia.
    + apply scaled_above_pow2; [lia | exact Ly].
Qed.

(** A number that is a whole multiple of its spacing is a binary64
    value. *)
Lemma fl_exact (x : Q) (m : Z) :
  x == inject_Z m * 2 ^ spacing x -> fl x == x.
Proof.
  intros H. rewrite fl_unfold.
  pose proof (pow2_pos (spacing x)) as P.
  assert (E : x / 2 ^ spacing x == inject_Z m).
  { rewrite H at 1. field. apply pow2_nonzero. }
  rewrite (nearest_even_eq _ _ E), nearest_even_Z. symmetry. exact H.
Qed.

Lemma fl_Z (z : Z) : (Z.abs z < 2 ^ 53)%Z -> fl (inject_Z z) == inject_Z z.
Proof.
  intros Hz.
  destruct (Z.eq_dec z 0) as [->|NZ]; [reflexivity|].
  assert (NQ : ~ inject_Z z == 0).
  { intros E. apply NZ. change 0 with (inject_Z 0) in E.
    apply (proj1 (inject_Z_injective z 0)). exact E. }
  destruct (exponent_spec _ NQ) as [L U].
  assert (A : Qabs (inject_Z z) == inject_Z (Z.abs z)).
  { unfold inject_Z. rewrite <- Zabs_Qabs. reflexivity. }
  rewrite A in L, U.
  assert (He : (exponent (inject_Z z) < 53)%Z).
  { apply (Qpower_lt_compat_l_inv 2); [| reflexivity].
    apply Qle_lt_trans with (inject_Z (Z.abs z)); [exact L|].
    rewrite <- pow2_Z by lia. rewrite <- Zlt_Qlt. exact Hz. }
  assert (Hlo : (0 <= exponent (inject_Z z))%Z).
  { assert (Hlt : (0 < exponent (inject_Z z) + 1)%Z); [| lia].
    apply (Qpower_lt_compat_l_inv 2); [| reflexivity].
    apply Qle_lt_trans with (inject_Z (Z.abs z)); [| exact U].
    change (2 ^ 0) with (inject_Z 1). rewrite <- Zle_Qle. lia. }
  assert (Hs : (-52 <= spacing (inject_Z z) <= 0)%Z) by (unfold spacing; lia).
  apply (fl_exact _ (z * 2 ^ (- spacing (inject_Z z)))).
  rewrite inject_Z_mult, pow2_Z by lia.
  rewrite <- Qmult_assoc, <- Qpower_plus by discriminate.
  replace (- spacing (inject_Z z) + spacing (inject_Z z))%Z with 0%Z by lia.
  change (2 ^ 0) with 1. ring.
Qed.

(** The rounding error is at most half the spacing. *)
Lemma fl_near (x : Q) :
  x - 2 ^ spacing x * (1 # 2) <= fl x <= x + 2 ^ spacing x * (1 # 2).
Proof.
  rewrite fl_unfold. pose proof (pow2_pos (spacing x)) as P.
  pose proof (nearest_even_near (x / 2 ^ spacing x)) as [L U].
  assert (E : x == x / 2 ^ spacing x * 2 ^ spacing x).
  { field. apply pow2_nonzero. }
  remember (inject_Z (nearest_even (x / 2 ^ spacing x))) as r eqn:Er.
  remember (x / 2 ^ spacing x) as q eqn:Eq.
  remember (2 ^ spacing x) as p eqn:Ep.
  clear Er Eq Ep. split; nra.
Qed.

(** Above [2^-1022] the error is at most [2^-53] of the number. *)
Lemma fl_relative (x : Q) :
  2 ^ (-1022) <= x ->
  x * (1 - 2 ^ (-53)) <= fl x <= x * (1 + 2 ^ (-53)).
Proof.
  intros Hx. pose proof (pow2_pos (-1022)) as P0.
  assert (NZ : ~ x == 0) by (intros E; lra).
  assert (Ax : Qabs x == x) by (apply Qabs_pos; lra).
  destruct (exponent_spec x NZ) as [L U]. rewrite Ax in L, U.
  assert (He : (-1022 <= exponent x)%Z).
  { assert (Hlt : (-1022 < exponent x + 1)%Z); [| lia].
    apply (Qpower_lt_compat_l_inv 2); [| reflexivity]. lra. }
  assert (Hs : spacing x = (exponent x - 52)%Z) by (unfold spacing; lia).
  pose proof (fl_near x) as [N1 N2]. rewrite Hs in N1, N2.
  assert (E : 2 ^ (exponent x - 52) * (1 # 2) == 2 ^ exponent x * 2 ^ (-53)).
  { replace (exponent x - 52)%Z with (exponent x + -53 + 1)%Z by lia.
    rewrite pow2_succ. rewrite Qpower_plus by discriminate. ring. }
  rewrite E in N1, N2. pose proof (pow2_pos (-53)) as P53.
  generalize dependent (2 ^ exponent x). generalize dependent (2 ^ (-53)).
  intros. nra.
Qed.



(** Below [2^k] the error is at most [2^(k-54)]. *)
Lemma fl_within (x : Q) (k : Z) :
  (1 <= k)%Z -> Qabs x < 2 ^ k ->
  x - 2 ^ (k - 54) <= fl x <= x + 2 ^ (k - 54).
Proof.
  intros Hk Hx.
  assert (Hs : (spacing x <= k - 53)%Z).
  { unfold spacing. destruct (Qeq_dec x 0) as [Z0|NZ].
    - unfold exponent. apply Qeq_bool_iff in Z0. rewrite Z0. lia.
    - destruct (exponent_spec x NZ) as [L _].
      assert (Hlt : (exponent x < k)%Z); [| lia].
      apply (Qpower_lt_compat_l_inv 2); [| reflexivity].
      eapply Qle_lt_trans; eassumption. }
  pose proof (fl_near x) as [N1 N2].
  pose proof (pow2_le _ _ Hs) as Hp.
  assert (E : 2 ^ (k - 53) == 2 * 2 ^ (k - 54)).
  { rewrite <- pow2_succ. replace (k - 54 + 1)%Z with (k - 53)%Z by lia.
    reflexivity. }
  rewrite E in Hp. pose proof (pow2_pos (spacing x)) as P.
  generalize dependent (2 ^ spacing x). generalize dependent (2 ^ (k - 54)).
  intros. split; lra.
Qed.

(** *** The grid of binary64 values and the sign of a difference *)

Lemma fl_on_grid (x : Q) : on_grid (fl x).
Proof.
  exists (nearest_even (x / 2 ^ spacing x) * 2 ^ (spacing x + 1074))%Z.
  rewrite fl_unfold.
  assert (Hs : (0 <= spacing x + 1074)%Z) by (unfold spacing; lia).
  rewrite inject_Z_mult, (pow2_Z _ Hs).
  rewrite <- Qmult_assoc, <- Qpower_plus by discriminate.
  replace (spacing x + 1074 + -1074)%Z with (spacing x) by lia.
  reflexivity.
Qed.

Lemma Z_on_grid (z : Z) : on_grid (inject_Z z).
Proof.
  exists (z * 2 ^ 1074)%Z.
  rewrite inject_Z_mult, (pow2_Z 1074) by lia.
  rewrite <- Qmult_assoc, <- Qpower_plus by discriminate.
  change (2 ^ (1074 + -1074)) with 1. ring.
Qed.

(** Two different values of the grid are at least [2^-1074] apart. *)
Lemma grid_apart (a b : Q) :
  on_grid a -> on_grid b -> a < b -> 2 ^ (-1074) <= b - a.
Proof.
  intros [n Ha] [m Hb] Hlt.
  pose proof (pow2_pos (-1074)) as P.
  assert (Hnm : (n < m)%Z).
  { destruct (Z.lt_ge_cases n m) as [H|H]; [exact H|]. exfalso.
    rewrite Zle_Qle in H. rewrite Ha, Hb in Hlt.
    generalize dependent (2 ^ (-1074)). intros. nra. }
  assert (H1 : inject_Z n + 1 <= inject_Z m).
  { change 1 with (inject_Z 1). rewrite <- inject_Z_plus, <- Zle_Qle. lia. }
  rewrite Ha, Hb. generalize dependent (2 ^ (-1074)). intros. nra.
Qed.

(** Rounding keeps the sign of a number that is not below [2^-1074] in
    size. *)
Lemma fl_positive (x : Q) : 2 ^ (-1074) <= x -> 0 < fl x.
Proof.
  intros Hx. pose proof (pow2_pos (-1074)) as P0.
  assert (NZ : ~ x == 0) by (intros E; lra).
  assert (Ax : Qabs x == x) by (apply Qabs_pos; lra).
  destruct (exponent_spec x NZ) as [L U]. rewrite Ax in L, U.
  assert (He : (-1074 <= exponent x)%Z).
  { assert (Hlt : (-1074 < exponent x + 1)%Z); [| lia].
    apply (Qpower_lt_compat_l_inv 2); [| reflexivity]. lra. }
  assert (Hs : (spacing x <= exponent x)%Z) by (unfold spacing; lia).
  pose proof (scaled_above_pow2 x (exponent x) (spacing x) Hs L) as H.
  rewrite <- fl_unfold in H. pose proof (pow2_pos (exponent x)). lra.
Qed.

Lemma fsub_sign (a b : Q) :
  on_grid a -> on_grid b ->
  (a < b <-> 0 < fsub b a) /\ (a == b <-> fsub b a == 0).
Proof.
  intros Ga Gb.
  assert (Hpos : forall u v, on_grid u -> on_grid v -> u < v -> 0 < fsub v u).
  { intros u v Gu Gv Huv. unfold fsub. apply fl_positive.
    now apply grid_apart. }
  assert (Heq : a == b -> fsub b a == 0).
  { intros E. unfold fsub. rewrite (fl_eq (b - a) 0); [reflexivity|].
    rewrite E. ring. }
  assert (Hneg : b < a -> fsub b a < 0).
  { intros Hlt. unfold fsub.
    pose proof (grid_apart b a Gb Ga Hlt) as Hgap.
    pose proof (pow2_pos (-1074)) as P0.
    assert (NZ : ~ b - a == 0) by (intros E; lra).
    assert (Ax : Qabs (b - a) == a - b).
    { rewrite Qabs_neg by lra. ring. }
    destruct (exponent_spec (b - a) NZ) as [L U]. rewrite Ax in L, U.
    assert (He : (-1074 <= exponent (b - a))%Z).
    { assert (H : (-1074 < exponent (b - a) + 1)%Z); [| lia].
      apply (Qpower_lt_compat_l_inv 2); [| reflexivity]. lra. }
    rewrite fl_unfold.
    set (s := spacing (b - a)). pose proof (pow2_pos s) as Ps.
    assert (Hs : (s <= exponent (b - a))%Z) by (unfold s, spacing; lia).
    assert (Hq : (b - a) / 2 ^ s <= inject_Z (-1)).
    { apply Qle_shift_div_r; [exact Ps|]. change (inject_Z (-1)) with (-1).
      assert (Hp : 2 ^ s <= 2 ^ exponent (b - a)) by (apply pow2_le; exact Hs).
      lra. }
    apply nearest_even_le in Hq. rewrite nearest_even_Z in Hq.
    rewrite Zle_Qle in Hq. change (inject_Z (-1)) with (-1) in Hq.
    generalize dependent (inject_Z (nearest_even ((b - a) / 2 ^ s))).
    generalize dependent (2 ^ s). intros. nra. }
  split; split.
  - apply Hpos; assumption.
  - intros H. destruct (Q_dec a b) as [[Hlt|Hgt]|E]; [exact Hlt| |].
    + apply Hneg in Hgt. lra.
    + apply Heq in E. lra.
  - exact Heq.
  - intros H. destruct (Q_dec a b) as [[Hlt|Hgt]|E]; [| |exact E].
    + apply (Hpos a b Ga Gb) in Hlt. lra.
    + apply Hneg in Hgt. lra.
Qed.

(** *** The four operations *)

Lemma fadd_nonneg (a b : Q) : 0 <= a -> 0 <= b -> 0 <= fadd a b.
Proof. intros Ha Hb. apply fl_nonneg. lra. Qed.

Lemma fadd_le (a b a' b' : Q) :
  0 <= a -> 0 <= b -> a <= a' -> b <= b' -> fadd a b <= fadd a' b'.
Proof. intros Ha Hb Haa Hbb. apply fl_le; lra. Qed.

Lemma fmul_nonneg (a b : Q) : 0 <= a -> 0 <= b -> 0 <= fmul a b.
Proof. intros Ha Hb. apply fl_nonneg. now apply Qmult_le_0_compat. Qed.

Lemma fmul_le (a b a' b' : Q) :
  0 <= a -> 0 <= b -> a <= a' -> b <= b' -> fmul a b <= fmul a' b'.
Proof.
  intros Ha Hb Haa Hbb. apply fl_le.
  - now apply Qmult_le_0_compat.
  - nra.
Qed.

Lemma fdiv_nonneg (a c : Q) : 0 <= a -> 0 < c -> 0 <= fdiv a c.
Proof.
  intros Ha Hc. apply fl_nonneg.
  apply Qle_shift_div_l; [exact Hc | lra].
Qed.

Lemma fdiv_le (a a' c : Q) :
  0 <= a -> a <= a' -> 0 < c -> fdiv a c <= fdiv a' c.
Proof.
  intros Ha Haa Hc. apply fl_le.
  - apply Qle_shift_div_l; [exact Hc | lra].
  - apply Qmult_le_compat_r; [exact Haa|].
    apply Qlt_le_weak, Qinv_lt_0_compat, Hc.
Qed.

End NumberFacts.

(* ================================================================= *)
(** ** Facts about keyword scoring *)

Section ScoringFacts.
Import Js KeywordMatcher ComplexityClassifier RouterEngine Registry.
Local Open Scope Q_scope.

Lemma Qgeb_spec (a b : Q) : Qgeb a b = true <-> b <= a.
Proof. unfold Qgeb. apply Qle_bool_iff. Qed.

Lemma Math_min_le_l (a b : Q) : Math_min a b <= a.
Proof.
  unfold Math_min. destruct (Qle_bool a b) eqn:E.
  - apply Qle_refl.
  - destruct (Qlt_le_dec a b) as [Hlt|Hle]; [|exact Hle].
    apply Qlt_le_weak in Hlt. apply Qle_bool_iff in Hlt. congruence.
Qed.

Lemma Math_min_le_r (a b : Q) : Math_min a b <= b.
Proof.
  unfold Math_min. destruct (Qle_bool a b) eqn:E.
  - now apply Qle_bool_iff.
  - apply Qle_refl.
Qed.

Lemma Math_min_glb (a b c : Q) : c <= a -> c <= b -> c <= Math_min a b.
Proof. unfold Math_min. now destruct (Qle_bool a b). Qed.

Lemma keyword_sets_distinct : NoDup scored_ids.
Proof.
  unfold scored_ids. cbv [map fst KEYWORD_SETS].
  repeat constructor; simpl; intuition discriminate.
Qed.

(** The loop over [KEYWORD_SETS] stores one [AgentScore] per agent, in
    the order of the table. *)
Lemma scoreMessage_unfold (text : string) :
  scoreMessage text =
  toSorted_desc as_score
    (map (fun entry : string * list (string * list string) =>
            scoreAgent
              (tokenize (toLowerCase text) ++
               extractCompoundKeywords (toLowerCase text))
              (toLowerCase text) (fst entry) (snd entry))
         KEYWORD_SETS).
Proof.
  unfold scoreMessage.
  pose proof
    (fold_jm_set_distinct
       (scoreAgent
          (tokenize (toLowerCase text) ++
           extractCompoundKeywords (toLowerCase text))
          (toLowerCase text))
       KEYWORD_SETS [] keyword_sets_distinct) as Hfold.
  cbv zeta. rewrite Hfold. unfold jm_values.
  rewrite app_nil_l, map_map. reflexivity.
Qed.

Lemma scoreAgent_agent (kws : list string) (nt agent : string)
    (domains : list (string * list string)) :
  as_agent (scoreAgent kws nt agent domains) = agent.
Proof. reflexivity. Qed.

Lemma scoreMessage_agents (text : string) (s : AgentScore) :
  In s (scoreMessage text) -> In (as_agent s) scored_ids.
Proof.
  rewrite scoreMessage_unfold, toSorted_desc_In. intros Hin.
  apply in_map_iff in Hin. destruct Hin as [entry [<- Hentry]].
  rewrite scoreAgent_agent. unfold scored_ids. now apply in_map.
Qed.

Lemma scoreMessage_length (text : string) :
  List.length (scoreMessage text) = List.length KEYWORD_SETS.
Proof.
  rewrite scoreMessage_unfold.
  rewrite (Permutation_length (toSorted_desc_perm _ _)).
  apply length_map.
Qed.

Lemma scoreMessage_nonempty (text : string) :
  exists top rest, scoreMessage text = top :: rest.
Proof.
  pose proof (scoreMessage_length text) as Hlen.
  destruct (scoreMessage text) as [|top rest].
  - discriminate Hlen.
  - now exists top, rest.
Qed.

(** *** The running total never goes below zero *)

Lemma keywordStep_total (kws : list string) (nt agent domain : string)
    (acc : ScoreAcc) (keyword : string) :
  0 <= acc_totalScore acc ->
  0 <= acc_totalScore (keywordStep kws nt agent domain acc keyword).
Proof.
  intros H. unfold keywordStep.
  assert (H085 : 0 <= DEFAULT_CONFIDENCE) by (vm_compute; discriminate).
  assert (H015 : 0 <= fmul KEYWORD_WEIGHT COMPOUND_KEYWORD_BOOST)
    by (vm_compute; discriminate).
  destruct (Set_has kws keyword), (includes nt keyword);
    cbn [acc_totalScore]; try assumption.
  - apply fadd_nonneg; [|assumption]. now apply fadd_nonneg.
  - now apply fadd_nonneg.
  - now apply fadd_nonneg.
Qed.

Lemma keywords_total (kws : list string) (nt agent domain : string)
    (keywords : list string) :
  forall acc, 0 <= acc_totalScore acc ->
    0 <= acc_totalScore
           (fold_left (keywordStep kws nt agent domain) keywords acc).
Proof.
  induction keywords as [|k rest IH]; simpl; intros acc H; [assumption|].
  apply IH. now apply keywordStep_total.
Qed.

Lemma domains_total (kws : list string) (nt agent : string)
    (domains : list (string * list string)) :
  forall acc, 0 <= acc_totalScore acc ->
    0 <= acc_totalScore (fold_left (domainStep kws nt agent) domains acc).
Proof.
  induction domains as [|[domain keywords] rest IH]; simpl; intros acc H;
    [assumption|].
  apply IH. now apply keywords_total.
Qed.

Lemma scoreAgent_bounds (kws : list string) (nt agent : string)
    (domains : list (string * list string)) :
  0 <= as_score (scoreAgent kws nt agent domains) <= 100.
Proof.
  unfold scoreAgent. cbv zeta. simpl as_score. split.
  - apply Math_min_glb; [discriminate|].
    assert (Ht :
      0 <= acc_totalScore
             (fold_left (domainStep kws nt agent) domains
                        (mkScoreAcc [] 0 [])))
      by (apply domains_total; apply Qle_refl).
    set (t := acc_totalScore _) in *.
    apply fmul_nonneg; [|discriminate].
    apply fdiv_nonneg; [assumption | reflexivity].
  - apply Math_min_le_l.
Qed.

Lemma scoreMessage_bounds (text : string) (s : AgentScore) :
  In s (scoreMessage text) -> 0 <= as_score s <= 100.
Proof.
  rewrite scoreMessage_unfold, toSorted_desc_In. intros Hin.
  apply in_map_iff in Hin. destruct Hin as [entry [<- _]].
  apply scoreAgent_bounds.
Qed.

End ScoringFacts.

(* ================================================================= *)
(** ** Facts about confidence, rounding and selection *)

Section RoutingFacts.
Import Js KeywordMatcher ComplexityClassifier RouterEngine Registry.
Local Open Scope Q_scope.

Lemma getConfidenceScore_bounds (scores : list AgentScore) :
  (forall s, In s scores -> 0 <= as_score s <= 100) ->
  0 <= getConfidenceScore scores <= 1.
Proof.
  intros Hb. destruct scores as [|top rest]; simpl.
  - split; discriminate.
  - destruct (Hb top (or_introl eq_refl)) as [H0 H100].
    set (t := as_score top) in *.
    assert (Hdiv0 : 0 <= fdiv t 100)
      by (apply fdiv_nonneg; [assumption | reflexivity]).
    assert (Hdiv1 : fdiv t 100 <= 1).
    { apply Qle_trans with (fdiv 100 100); [| vm_compute; discriminate].
      apply fdiv_le; [assumption | assumption | reflexivity]. }
    destruct (Qgeb t 50 && Qgeb (fsub t (secondScoreOf (top :: rest))) 20).
    + split.
      * apply Math_min_glb; [vm_compute; discriminate|].
        apply fadd_nonneg; [vm_compute; discriminate|].
        apply fmul_nonneg; [assumption | vm_compute; discriminate].
      * eapply Qle_trans; [apply Math_min_le_l | vm_compute; discriminate].
    + destruct (Qgeb t 30).
      * split.
        -- apply fadd_nonneg; [vm_compute; discriminate|].
           apply fmul_nonneg; [assumption | vm_compute; discriminate].
        -- apply Qle_trans with (fadd (fl 0.6) (fmul 1 (fl 0.35)));
             [| vm_compute; discriminate].
           apply fadd_le.
           ++ vm_compute; discriminate.
           ++ apply fmul_nonneg; [assumption | vm_compute; discriminate].
           ++ apply Qle_refl.
           ++ apply fmul_le;
                [assumption | vm_compute; discriminate | assumption
                | apply Qle_refl].
      * split.
        -- apply Math_min_glb; [vm_compute; discriminate | assumption].
        -- eapply Qle_trans; [apply Math_min_le_l | vm_compute; discriminate].
Qed.

Lemma Math_round_bounds (x : Q) (lo hi : Z) :
  inject_Z lo <= x -> x <= inject_Z hi -> (lo <= Math_round x <= hi)%Z.
Proof.
  intros Hlo Hhi. unfold Math_round. split.
  - rewrite <- (Qfloor_Z lo). apply Qfloor_resp_le. lra.
  - assert (H : (Qfloor (x + (1 # 2)) < hi + 1)%Z); [| lia].
    rewrite Zlt_Qlt. apply Qle_lt_trans with (x + (1 # 2)).
    + apply Qfloor_le.
    + rewrite inject_Z_plus. change (inject_Z 1) with 1. lra.
Qed.

Lemma round2_bounds (x : Q) : 0 <= x <= 1 -> 0 <= round2 x <= 1.
Proof.
  intros [H0 H1]. unfold round2.
  assert (Hm0 : 0 <= fmul x 100) by (apply fmul_nonneg; [assumption | discriminate]).
  assert (Hm1 : fmul x 100 <= 100).
  { apply Qle_trans with (fmul 1 100); [| vm_compute; discriminate].
    apply fmul_le; [assumption | discriminate | assumption | apply Qle_refl]. }
  destruct (Math_round_bounds (fmul x 100) 0 100 Hm0 Hm1) as [Hlo Hhi].
  set (z := Math_round _) in *.
  assert (Q0 : 0 <= inject_Z z).
  { change 0 with (inject_Z 0). rewrite <- Zle_Qle. exact Hlo. }
  assert (Q1 : inject_Z z <= 100).
  { change 100 with (inject_Z 100). rewrite <- Zle_Qle. exact Hhi. }
  split.
  - apply fdiv_nonneg; [assumption | reflexivity].
  - apply Qle_trans with (fdiv 100 100); [| vm_compute; discriminate].
    apply fdiv_le; [assumption | assumption | reflexivity].
Qed.

Lemma level_string_cases (l : Level) :
  In (level_string l) ["simple"; "moderate"; "complex"]%string.
Proof. destruct l; simpl; auto. Qed.

Lemma planning_is_scored : In "planning"%string scored_ids.
Proof. unfold scored_ids. cbv [map fst KEYWORD_SETS]. simpl. auto. Qed.

Lemma defaultAgent_scored (scores : list AgentScore) :
  (forall s, In s scores -> In (as_agent s) scored_ids) ->
  In (defaultAgent scores) scored_ids.
Proof.
  intros Hs. destruct scores as [|top rest]; simpl.
  - apply planning_is_scored.
  - unfold or_else. destruct (truthy (as_agent top)).
    + apply Hs. now left.
    + apply planning_is_scored.
Qed.

Lemma selectAgent_scored (scores : list AgentScore) (level : Level) :
  (forall s, In s scores -> In (as_agent s) scored_ids) ->
  In (selectAgent scores level) scored_ids.
Proof.
  intros Hs. unfold selectAgent.
  destruct (Level_eqb level complex &&
            negb (String.eqb (defaultAgent scores) "planning")).
  - destruct (find _ scores) as [p|].
    + destruct (Qgeb (as_score p) 20).
      * apply planning_is_scored.
      * now apply defaultAgent_scored.
    + now apply defaultAgent_scored.
  - now apply defaultAgent_scored.
Qed.

(** [route] always settles with a decision, and names an agent that
    [scoreMessage] ranks. *)
Lemma route_resolves (e : Engine) (message : string)
    (userId context : option string) (clock : Clock) :
  exists d, route e message userId context clock = Resolved d /\
            rd_agent d =
              selectAgent (scoreMessage message)
                          (ca_level (assessComplexity message None)) /\
            rd_matchedKeywords d = topKeywords (scoreMessage message) /\
            rd_skillFilesUsed d =
              findRelevantSkills e (rd_agent d) (rd_matchedKeywords d) /\
            rd_confidence d =
              round2 (getConfidenceScore (scoreMessage message)) /\
            rd_complexity d =
              level_string (ca_level (assessComplexity message None)).
Proof.
  unfold route. eexists. split; [reflexivity|].
  cbn [rd_agent rd_matchedKeywords rd_skillFilesUsed rd_confidence
       rd_complexity].
  repeat split; reflexivity.
Qed.

Lemma route_agent_scored (e : Engine) (message : string)
    (userId context : option string) (clock : Clock) :
  exists d, route e message userId context clock = Resolved d /\
            In (rd_agent d) scored_ids.
Proof.
  destruct (route_resolves e message userId context clock)
    as [d [Hr [Ha _]]].
  exists d. split; [assumption|]. rewrite Ha.
  apply selectAgent_scored. intros s. apply scoreMessage_agents.
Qed.

End RoutingFacts.

(* ================================================================= *)
(** ** Facts about the registry maps *)

Section RegistryFacts.
Import Js KeywordMatcher ComplexityClassifier RouterEngine Registry.

Lemma jm_get_set_same {V : Type} (m : JsMap V) (k : string) (v : V) :
  jm_get (jm_set m k v) k = Some v.
Proof.
  induction m as [|[k' v'] rest IH]; simpl.
  - now rewrite String.eqb_refl.
  - destruct (String.eqb_spec k k') as [->|Hne]; simpl.
    + now rewrite String.eqb_refl.
    + destruct (String.eqb_spec k k'); [contradiction | exact IH].
Qed.

Lemma jm_get_set_other {V : Type} (m : JsMap V) (k k0 : string) (v : V) :
  k0 <> k -> jm_get (jm_set m k v) k0 = jm_get m k0.
Proof.
  intros Hne. induction m as [|[k' v'] rest IH]; simpl.
  - destruct (String.eqb_spec k0 k); [contradiction | reflexivity].
  - destruct (String.eqb_spec k k') as [->|Hkk']; simpl.
    + destruct (String.eqb_spec k0 k'); [contradiction | reflexivity].
    + destruct (String.eqb_spec k0 k'); [reflexivity | exact IH].
Qed.

Lemma jm_get_In {V : Type} (m : JsMap V) (k : string) (v : V) :
  jm_get m k = Some v -> In (k, v) m.
Proof.
  induction m as [|[k' v'] rest IH]; simpl; [discriminate|].
  destruct (String.eqb_spec k k') as [->|Hne]; intros H.
  - inversion H; subst. now left.
  - right. now apply IH.
Qed.

Lemma well_keyed_nil {V : Type} (id : V -> string) : well_keyed id [].
Proof. split; [constructor | intros k v []]. Qed.

Lemma well_keyed_set {V : Type} (id : V -> string) (m : JsMap V) (v : V) :
  well_keyed id m -> well_keyed id (jm_set m (id v) v).
Proof.
  intros [Hnd Hk]. split.
  - now apply jm_set_NoDup.
  - intros k0 v0 Hin. apply jm_set_In in Hin.
    destruct Hin as [[-> ->]|Hin]; [reflexivity | now apply Hk].
Qed.

Lemma well_keyed_fold {V : Type} (id : V -> string) (l : list V) :
  forall m, well_keyed id m ->
            well_keyed id (fold_left (fun m x => jm_set m (id x) x) l m).
Proof.
  induction l as [|x rest IH]; simpl; intros m Hm; [assumption|].
  apply IH. now apply well_keyed_set.
Qed.

Lemma storeSkillRows_well_keyed (rows : list SkillRow) :
  forall m, well_keyed sf_id m -> well_keyed sf_id (storeSkillRows m rows).
Proof.
  induction rows as [|r rest IH]; simpl; intros m Hm; [assumption|].
  destruct (sr_keywords r) as [ks|]; [|assumption].
  apply IH.
  exact (well_keyed_set sf_id m
           (mkSkillFile (sr_id r) (sr_name r) (sr_agent r)
                        (sr_description r) ks) Hm).
Qed.

Lemma reachable_skillFiles (e : Engine) :
  reachable e -> well_keyed sf_id (skillFiles e).
Proof.
  induction 1 as [d ags sks | e _ IH | e _ IH].
  - simpl. apply well_keyed_fold, well_keyed_nil.
  - unfold loadAgentsFromDB.
    destruct (db e) as [d|]; [|assumption].
    destruct (d1_enabled_agents d); assumption.
  - unfold loadSkillFilesFromDB.
    destruct (db e) as [d|]; [|assumption].
    destruct (d1_skill_files d) as [rows|]; [|assumption].
    simpl. now apply storeSkillRows_well_keyed.
Qed.

(** What [findRelevantSkills] returns: at most three keys of the skill
    map, each of a skill file of the agent asked for. *)
Lemma findRelevantSkills_spec (e : Engine) (agentId : string)
    (keywords : list string) :
  (List.length (findRelevantSkills e agentId keywords) <= 3)%nat /\
  forall id, In id (findRelevantSkills e agentId keywords) ->
             exists skill, In (id, skill) (skillFiles e) /\
                           sf_agent skill = agentId.
Proof.
  unfold findRelevantSkills. split; [apply slice0_length|].
  intros id Hin. apply slice0_In in Hin.
  apply in_map_iff in Hin. destruct Hin as [[k skill] [Hk Hin]].
  simpl in Hk. subst k. apply filter_In in Hin. destruct Hin as [Hin Hcond].
  apply andb_true_iff in Hcond. destruct Hcond as [Hagent _].
  simpl in Hagent. apply String.eqb_eq in Hagent.
  now exists skill.
Qed.

(** *** Agents loaded from D1 are added as enabled *)

Lemma holds_enabled_set (m : JsMap Agent) (a : Agent) (id : string) :
  ag_enabled a = true ->
  holds_enabled m id -> holds_enabled (jm_set m (ag_id a) a) id.
Proof.
  intros Hen [a0 [Hget [Hid Hon]]].
  destruct (string_dec id (ag_id a)) as [->|Hne].
  - exists a. now rewrite jm_get_set_same.
  - exists a0. now rewrite jm_get_set_other.
Qed.

Lemma storeAgentRows_enabled (rows : list AgentRow) (id : string) :
  forall m, holds_enabled m id -> holds_enabled (storeAgentRows m rows) id.
Proof.
  induction rows as [|r rest IH]; simpl; intros m Hm; [assumption|].
  destruct (ar_keywords r) as [ks|]; [|assumption].
  destruct (ar_domains r) as [ds|]; [|assumption].
  apply IH.
  exact (holds_enabled_set m
           (mkAgent (ar_id r) (ar_name r) (ar_description r) ks ds
                    (ar_cost_per_token r) (ar_max_tokens r) true)
           id eq_refl Hm).
Qed.

Lemma holds_enabled_in (e : Engine) (id : string) :
  holds_enabled (agents e) id -> enabled_in e id.
Proof.
  intros [a [Hget [Hid Hon]]]. exists a. split; [|assumption].
  unfold getAgents. apply filter_In. split; [|assumption].
  apply jm_get_In in Hget. unfold jm_values.
  change a with (snd (id, a)). now apply in_map.
Qed.

(** The engine the worker builds holds every scored id enabled, whatever
    the D1 database returns. *)
Lemma worker_registry_enabled (d : option D1Database) (id : string) :
  In id scored_ids ->
  enabled_in (loadSkillFilesFromDB (loadAgentsFromDB (new_default d))) id.
Proof.
  intros Hid. apply holds_enabled_in.
  assert (Hstatic : holds_enabled (agents (new_default d)) id).
  { unfold scored_ids in Hid. cbv [map fst KEYWORD_SETS] in Hid.
    simpl in Hid.
    destruct Hid as [<-|[<-|[<-|[<-|[]]]]];
      (eexists; split; [vm_compute; reflexivity | split; reflexivity]). }
  assert (Hloaded : holds_enabled (agents (loadAgentsFromDB (new_default d))) id).
  { unfold loadAgentsFromDB.
    destruct (db (new_default d)) as [d0|]; [|assumption].
    destruct (d1_enabled_agents d0) as [rows|]; [|assumption].
    simpl agents. now apply storeAgentRows_enabled. }
  unfold loadSkillFilesFromDB.
  destruct (db (loadAgentsFromDB (new_default d))) as [d0|]; [|assumption].
  destruct (d1_skill_files d0); assumption.
Qed.

End RegistryFacts.

(* ================================================================= *)
(** ** Facts about the cache *)

Section CacheFacts.
Import Js RouterEngine RoutingCache Worker.
Local Open Scope Z_scope.

Lemma isExpired_false (now : Z) (d : CachedRoutingDecision) :
  isExpired now d = false <-> now - crd_timestamp d <= crd_ttl d * 1000.
Proof. unfold isExpired. rewrite Z.gtb_ltb, Z.ltb_ge. reflexivity. Qed.

Lemma isExpired_true (now : Z) (d : CachedRoutingDecision) :
  isExpired now d = true <-> now - crd_timestamp d > crd_ttl d * 1000.
Proof. unfold isExpired. rewrite Z.gtb_ltb, Z.ltb_lt. lia. Qed.

Lemma fresh_in_memory_spec (c : Cache) (clock : GetClock) (h : string)
    (entry : CachedRoutingDecision) :
  fresh_in_memory c clock h = Some entry <->
  jm_get (cache c) h = Some entry /\
  now_memory clock - crd_timestamp entry <= crd_ttl entry * 1000.
Proof.
  unfold fresh_in_memory. destruct (jm_get (cache c) h) as [cached|].
  - destruct (isExpired (now_memory clock) cached) eqn:E; simpl; split.
    + discriminate.
    + intros [Heq Hage]. inversion Heq; subst.
      apply isExpired_false in Hage. congruence.
    + intros Heq. inversion Heq; subst. split; [reflexivity|].
      now apply isExpired_false.
    + intros [Heq _]. exact Heq.
  - split; [discriminate | intros [H _]; discriminate].
Qed.

Lemma fresh_in_kv_spec (c : Cache) (clock : GetClock) (h : string)
    (entry : CachedRoutingDecision) :
  fresh_in_kv c clock h = Some entry <->
  exists kv, kvNamespace c = Some kv /\
             kv_read kv (kv_key h) = KvValue entry /\
             now_kv clock - crd_timestamp entry <= crd_ttl entry * 1000.
Proof.
  unfold fresh_in_kv. destruct (kvNamespace c) as [kv|].
  - destruct (kv_read kv (kv_key h)) as [kvCached| |] eqn:Hread.
    + destruct (isExpired (now_kv clock) kvCached) eqn:E; simpl; split.
      * discriminate.
      * intros [kv' [Hkv [Hval Hage]]]. inversion Hkv; subst kv'.
        rewrite Hread in Hval. inversion Hval; subst.
        apply isExpired_false in Hage. congruence.
      * intros Heq. inversion Heq; subst. exists kv.
        repeat split; [assumption | now apply isExpired_false].
      * intros [kv' [Hkv [Hval _]]]. inversion Hkv; subst kv'.
        rewrite Hread in Hval. now inversion Hval.
    + split; [discriminate|].
      intros [kv' [Hkv [Hval _]]]. inversion Hkv; subst kv'. congruence.
    + split; [discriminate|].
      intros [kv' [Hkv [Hval _]]]. inversion Hkv; subst kv'. congruence.
  - split; [discriminate | intros [kv [H _]]; discriminate].
Qed.

Lemma get_result (c : Cache) (clock : GetClock) (h : string) :
  fst (RoutingCache.get c clock h) =
  match fresh_in_memory c clock h with
  | Some cached => Some cached
  | None => fresh_in_kv c clock h
  end.
Proof.
  unfold RoutingCache.get.
  destruct (fresh_in_memory c clock h); [reflexivity|].
  destruct (fresh_in_kv c clock h); reflexivity.
Qed.

End CacheFacts.

(* ================================================================= *)
(** ** The routed agent and the registry (C1, C2) *)

Section AgentAndRegistry.
Import Js KeywordMatcher ComplexityClassifier RouterEngine Registry Scenarios.

(** C1, as stated, fails: with the code generation agent switched off in
    the registry, the non-empty text "Fix the login bug" is still routed
    to "codegen", which [getAgents] does not list. *)
Lemma route_names_agent_outside_registry :
  login_text <> "" /\
  exists d,
    route registry_codegen_off login_text None None clock0 = Resolved d /\
    rd_agent d = "codegen" /\
    ~ enabled_in registry_codegen_off (rd_agent d).
Proof.
  split; [discriminate|].
  destruct (route_resolves registry_codegen_off login_text None None clock0)
    as [d [Hr [Ha _]]].
  assert (Hcodegen : rd_agent d = "codegen")
    by (rewrite Ha; vm_compute; reflexivity).
  exists d. repeat split; [assumption | assumption |].
  rewrite Hcodegen. intros [a [Hin Hid]].
  vm_compute in Hin.
  destruct Hin as [<-|[<-|[<-|[]]]]; discriminate Hid.
Qed.

(** C1 (amended): for every text and every registry, [route] returns a
    decision whose agent is one of the ids keyed in [KEYWORD_SETS]; when
    the registry holds each of those ids enabled, the agent is the id of
    an agent present and enabled in the registry. *)
Theorem route_agent_enabled_when_scored_ids_enabled
    (e : Engine) (message : string) (userId context : option string)
    (clock : Clock) :
  (forall id, In id scored_ids -> enabled_in e id) ->
  exists d, route e message userId context clock = Resolved d /\
            In (rd_agent d) scored_ids /\
            enabled_in e (rd_agent d).
Proof.
  intros Hreg.
  destruct (route_agent_scored e message userId context clock)
    as [d [Hr Hin]].
  exists d. repeat split; [assumption | assumption | now apply Hreg].
Qed.

Lemma route_agent_enabled_witness :
  exists d,
    route (loadSkillFilesFromDB (loadAgentsFromDB (new_default None)))
          login_text None None clock0 = Resolved d /\
    In (rd_agent d) scored_ids /\
    enabled_in (loadSkillFilesFromDB (loadAgentsFromDB (new_default None)))
               (rd_agent d).
Proof.
  apply (route_agent_enabled_when_scored_ids_enabled
           (loadSkillFilesFromDB (loadAgentsFromDB (new_default None)))
           login_text None None clock0).
  intros id Hid. exact (worker_registry_enabled None id Hid).
Defined.

(** C2, as stated, fails: on a registry without any agent, [route] does
    not fail; it returns a decision that names "codegen". *)
Lemma route_on_empty_registry_returns_codegen :
  getAgents registry_empty = [] /\
  (forall reason,
     route registry_empty "hello" None None clock0 <> Rejected reason) /\
  exists d, route registry_empty "hello" None None clock0 = Resolved d /\
            rd_agent d = "codegen".
Proof.
  split; [reflexivity|].
  destruct (route_resolves registry_empty "hello" None None clock0)
    as [d [Hr [Ha _]]].
  split.
  - intros reason Hrej. rewrite Hr in Hrej. discriminate Hrej.
  - exists d. split; [assumption|]. rewrite Ha. vm_compute. reflexivity.
Qed.

(** C2 (amended): when the registry has no enabled agent, [route] still
    returns a decision; its agent is one of the ids keyed in
    [KEYWORD_SETS], and so not an enabled agent of the registry. *)
Theorem route_without_enabled_agents_still_decides
    (e : Engine) (message : string) (userId context : option string)
    (clock : Clock) :
  getAgents e = [] ->
  exists d, route e message userId context clock = Resolved d /\
            In (rd_agent d) scored_ids /\
            ~ enabled_in e (rd_agent d).
Proof.
  intros Hnone.
  destruct (route_agent_scored e message userId context clock)
    as [d [Hr Hin]].
  exists d. repeat split; [assumption | assumption |].
  intros [a [Ha _]]. rewrite Hnone in Ha. exact Ha.
Qed.

Lemma route_without_enabled_agents_witness :
  exists d, route registry_empty "hello" None None clock0 = Resolved d /\
            In (rd_agent d) scored_ids /\
            ~ enabled_in registry_empty (rd_agent d).
Proof.
  apply (route_without_enabled_agents_still_decides
           registry_empty "hello" None None clock0).
  reflexivity.
Defined.

End AgentAndRegistry.

(* ================================================================= *)
(** ** Two scenarios (C3, C4) *)

Section ScenarioFacts.
Import Js KeywordMatcher ComplexityClassifier RouterEngine Registry Scenarios.
Local Open Scope Q_scope.

(** C3: on "Design a secure payment API with caching" the code generation,
    planning and security agents each score 1 (one keyword each: api,
    design, secure) and infrastructure 0; the stable sort leaves codegen
    first, so codegen is the top candidate and is what [route] selects on
    every registry; [assessComplexity] gives score 2 (the single complex
    indicator "design"), which is the level simple. *)
Theorem payment_scenario_outcome :
  map as_agent (scoreMessage payment_text)
    = ["codegen"; "planning"; "security"; "infrastructure"]%string /\
  Forall2 Qeq (map as_score (scoreMessage payment_text)) [1; 1; 1; 0] /\
  ca_score (assessComplexity payment_text None) = 2%Z /\
  ca_level (assessComplexity payment_text None) = simple /\
  forall e userId context clock,
    exists d, route e payment_text userId context clock = Resolved d /\
              rd_agent d = "codegen"%string /\
              rd_complexity d = "simple"%string.
Proof.
  split; [vm_compute; reflexivity|].
  split; [vm_compute; repeat constructor|].
  split; [vm_compute; reflexivity|].
  split; [vm_compute; reflexivity|].
  intros e userId context clock.
  destruct (route_resolves e payment_text userId context clock)
    as [d [Hr [Ha [_ [_ [_ Hc]]]]]].
  exists d. split; [assumption|]. split.
  - rewrite Ha. vm_compute. reflexivity.
  - rewrite Hc. vm_compute. reflexivity.
Qed.

(** C4: on [handover_text] the top-scored agent is codegen, the level is
    complex and planning scores 22, so [route] switches to planning;
    the matched keywords stay the first five of codegen's matches, none
    of which is among the matches of planning's own [AgentScore]. *)
Theorem handover_keywords_come_from_top_agent :
  forall e userId context clock,
    exists d planning,
      route e handover_text userId context clock = Resolved d /\
      rd_agent d = "planning"%string /\
      rd_matchedKeywords d
        = ["implement"; "build"; "code"; "develop"; "create"]%string /\
      In planning (scoreMessage handover_text) /\
      as_agent planning = rd_agent d /\
      forall k, In k (rd_matchedKeywords d) ->
                ~ In k (map km_keyword (as_matches planning)).
Proof.
  intros e userId context clock.
  destruct (route_resolves e handover_text userId context clock)
    as [d [Hr [Ha [Hk _]]]].
  assert (Hplanning : rd_agent d = "planning"%string)
    by (rewrite Ha; vm_compute; reflexivity).
  assert (Hkeys : rd_matchedKeywords d
                  = ["implement"; "build"; "code"; "develop"; "create"]%string)
    by (rewrite Hk; vm_compute; reflexivity).
  destruct (nth_error (scoreMessage handover_text) 1) as [p|] eqn:Hp;
    [|vm_compute in Hp; discriminate Hp].
  exists d, p. rewrite Hplanning, Hkeys.
  split; [assumption|]. split; [reflexivity|]. split; [reflexivity|].
  split; [eapply nth_error_In; exact Hp|].
  vm_compute in Hp. inversion Hp; subst p. clear Hp.
  split; [reflexivity|].
  intros k Hin. cbn [as_matches map km_keyword].
  simpl in Hin.
  destruct Hin as [<-|[<-|[<-|[<-|[<-|[]]]]]];
    simpl; intuition discriminate.
Qed.

End ScenarioFacts.

(* ================================================================= *)
(** ** Bounds and skill files of a decision (C6, C7) *)

Section DecisionFacts.
Import Js KeywordMatcher ComplexityClassifier RouterEngine Registry Scenarios.
Local Open Scope Q_scope.

(** C6: for every text, the confidence computed from the scores of the
    text lies in [0, 1] and the assessed level is simple, moderate or
    complex; so the confidence and the complexity of every decision of
    [route] do too. *)
Theorem confidence_and_complexity_ranges (text : string) :
  0 <= getConfidenceScore (scoreMessage text) <= 1 /\
  (forall agent,
     In (level_string (ca_level (assessComplexity text agent)))
        ["simple"; "moderate"; "complex"]%string) /\
  forall e userId context clock,
    exists d, route e text userId context clock = Resolved d /\
              0 <= rd_confidence d <= 1 /\
              In (rd_complexity d) ["simple"; "moderate"; "complex"]%string.
Proof.
  assert (Hconf : 0 <= getConfidenceScore (scoreMessage text) <= 1)
    by (apply getConfidenceScore_bounds; intros s; apply scoreMessage_bounds).
  split; [exact Hconf|].
  split; [intros agent; apply level_string_cases|].
  intros e userId context clock.
  destruct (route_resolves e text userId context clock)
    as [d [Hr [_ [_ [_ [Hc Hl]]]]]].
  exists d. split; [assumption|]. split.
  - rewrite Hc. now apply round2_bounds.
  - rewrite Hl. apply level_string_cases.
Qed.

(** C7: on every engine built by the constructor and any reloads, the
    skill files of a decision are at most three, and each id is the key
    and the id of a skill file of the registry whose agent is the agent
    of the decision. *)
Theorem skill_files_belong_to_routed_agent
    (e : Engine) (message : string) (userId context : option string)
    (clock : Clock) :
  reachable e ->
  exists d, route e message userId context clock = Resolved d /\
            (List.length (rd_skillFilesUsed d) <= 3)%nat /\
            forall id, In id (rd_skillFilesUsed d) ->
              exists skill, jm_get (skillFiles e) id = Some skill /\
                            In skill (getSkillFiles e) /\
                            sf_id skill = id /\
                            sf_agent skill = rd_agent d.
Proof.
  intros Hreach.
  destruct (reachable_skillFiles e Hreach) as [Hnd Hkeyed].
  destruct (route_resolves e message userId context clock)
    as [d [Hr [_ [_ [Hs _]]]]].
  destruct (findRelevantSkills_spec e (rd_agent d) (rd_matchedKeywords d))
    as [Hlen Hown].
  exists d. split; [assumption|]. rewrite Hs. split; [assumption|].
  intros id Hin. destruct (Hown id Hin) as [skill [Hentry Hagent]].
  exists skill. repeat split.
  - now apply jm_get_of_In.
  - unfold getSkillFiles, jm_values.
    change skill with (snd (id, skill)). now apply in_map.
  - now apply Hkeyed.
  - assumption.
Qed.

Lemma skill_files_witness :
  exists d, route (new_default None) debug_text None None clock0
            = Resolved d /\
            (List.length (rd_skillFilesUsed d) <= 3)%nat /\
            forall id, In id (rd_skillFilesUsed d) ->
              exists skill,
                jm_get (skillFiles (new_default None)) id = Some skill /\
                In skill (getSkillFiles (new_default None)) /\
                sf_id skill = id /\
                sf_agent skill = rd_agent d.
Proof.
  apply (skill_files_belong_to_routed_agent
           (new_default None) debug_text None None clock0).
  unfold new_default. apply reach_new.
Defined.

(** What a decision holds besides latency and timestamp is computed
    from the engine's maps and the text: the clock, the user id and the
    context do not reach it. *)
Lemma route_reads_engine_and_text
    (e : Engine) (message : string)
    (userId1 context1 userId2 context2 : option string)
    (clock1 clock2 : Clock) :
  exists d1 d2,
    route e message userId1 context1 clock1 = Resolved d1 /\
    route e message userId2 context2 clock2 = Resolved d2 /\
    rd_agent d1 = rd_agent d2 /\
    rd_complexity d1 = rd_complexity d2 /\
    rd_matchedKeywords d1 = rd_matchedKeywords d2 /\
    rd_confidence d1 = rd_confidence d2 /\
    rd_reason d1 = rd_reason d2 /\
    rd_skillFilesUsed d1 = rd_skillFilesUsed d2 /\
    rd_estimatedCost d1 = rd_estimatedCost d2.
Proof.
  unfold route. do 2 eexists.
  split; [reflexivity|]. split; [reflexivity|].
  cbn [rd_agent rd_complexity rd_matchedKeywords rd_confidence rd_reason
       rd_skillFilesUsed rd_estimatedCost].
  repeat split; reflexivity.
Qed.

End DecisionFacts.

(* ================================================================= *)
(** ** The cache and the handler (C5, C8, C10) *)

Section HandlerFacts.
Import Js KeywordMatcher ComplexityClassifier RouterEngine RoutingCache.
Import Worker Scenarios.
Local Open Scope Z_scope.

(** C5, as stated, fails for a message of white space only: the message
    " " is empty after [trim], yet the handler answers 200 with a freshly
    routed decision, whatever the digest. *)
Lemma whitespace_message_is_routed :
  trim " " = ""%string /\
  forall generateHash : string -> string,
    exists r s,
      postRoute generateHash env0 None (Some (body_of " ")) ambient0
        = (Json200 r, s) /\
      rr_cached r = false /\
      rr_agent r = "codegen"%string.
Proof.
  split; [reflexivity|].
  intros generateHash. do 2 eexists.
  split; [vm_compute; reflexivity|].
  split; reflexivity.
Qed.

(** C5 (amended): a request without a message is rejected before
    anything is hashed, looked up, scored, cached or logged, so the
    globals are just the initialized ones and no decision is produced.
    The answer is 400 INVALID_REQUEST when the body was read and its
    message is missing or is the empty string, and 500 ROUTING_ERROR,
    with the message of the error, when the body could not be read. *)
Theorem missing_or_empty_message_rejected
    (generateHash : string -> string) (env : Env) (st : option Services)
    (body : option Body) (amb : Ambient) :
  Notions.no_message body ->
  postRoute generateHash env st body amb
    = (match body with
       | Some _ =>
           JsonError 400 "Missing required field: message" "INVALID_REQUEST"
                     None
       | None =>
           JsonError 500 "Routing failed" "ROUTING_ERROR"
                     (Some (am_body_error amb))
       end,
       initializeRouter env st).
Proof.
  destruct body as [b|]; cbn [Notions.no_message].
  - intros [Hm|Hm]; unfold postRoute; rewrite Hm; reflexivity.
  - intros _. reflexivity.
Qed.

Lemma empty_message_rejected_witness :
  postRoute digest0 env0 None (Some (body_of "")) ambient0
    = (JsonError 400 "Missing required field: message" "INVALID_REQUEST" None,
       initializeRouter env0 None).
Proof.
  apply (missing_or_empty_message_rejected
           digest0 env0 None (Some (body_of "")) ambient0).
  right. reflexivity.
Defined.

(** A request whose body cannot be read has no message either; it is
    not answered as a client error but as a failure of the routing. *)
Example unreadable_body_is_answered_500 :
  forall generateHash : string -> string,
    postRoute generateHash env0 None None ambient0
    = (JsonError 500 "Routing failed" "ROUTING_ERROR"
                 (Some "Unexpected end of JSON input"%string),
       initializeRouter env0 None).
Proof. intros generateHash. reflexivity. Qed.

(** C8: an entry that [get] returns was accepted from memory or from KV,
    and at the time of that check its age was at most its TTL (seconds,
    against milliseconds); when the entry in memory, if any, and the
    entry in KV, if any, are both older than their TTL, [get] returns
    nothing, and the handler then answers with a freshly routed,
    uncached decision. *)
Theorem cache_get_respects_ttl
    (c : Cache) (clock : GetClock) (messageHash : string) :
  (forall entry,
     fst (RoutingCache.get c clock messageHash) = Some entry ->
     (jm_get (cache c) messageHash = Some entry /\
      now_memory clock - crd_timestamp entry <= crd_ttl entry * 1000) \/
     (exists kv, kvNamespace c = Some kv /\
                 kv_read kv (kv_key messageHash) = KvValue entry /\
                 now_kv clock - crd_timestamp entry <= crd_ttl entry * 1000))
  /\
  ((forall entry, jm_get (cache c) messageHash = Some entry ->
                  now_memory clock - crd_timestamp entry
                  > crd_ttl entry * 1000) ->
   (forall kv entry, kvNamespace c = Some kv ->
                     kv_read kv (kv_key messageHash) = KvValue entry ->
                     now_kv clock - crd_timestamp entry
                     > crd_ttl entry * 1000) ->
   fst (RoutingCache.get c clock messageHash) = None /\
   forall generateHash e log message userId context amb,
     generateHash message = messageHash ->
     am_get_clock amb = clock ->
     exists r s d,
       routeMessage generateHash (mkServices e c log) message userId context
                    amb = (Json200 r, s) /\
       rr_cached r = false /\
       route e message userId context (am_route_clock amb) = Resolved d /\
       rr_agent r = rd_agent d).
Proof.
  split.
  - intros entry Hget. rewrite get_result in Hget.
    destruct (fresh_in_memory c clock messageHash) as [cached|] eqn:Hmem.
    + inversion Hget; subst cached. left.
      now apply fresh_in_memory_spec.
    + right. now apply fresh_in_kv_spec.
  - intros Hmem Hkv.
    assert (Hnone : fst (RoutingCache.get c clock messageHash) = None).
    { rewrite get_result.
      destruct (fresh_in_memory c clock messageHash) as [cached|] eqn:Em.
      - apply fresh_in_memory_spec in Em. destruct Em as [Hin Hage].
        specialize (Hmem cached Hin). lia.
      - destruct (fresh_in_kv c clock messageHash) as [cached|] eqn:Ek;
          [|reflexivity].
        apply fresh_in_kv_spec in Ek. destruct Ek as [kv [Hk [Hr Hage]]].
        specialize (Hkv kv cached Hk Hr). lia. }
    split; [exact Hnone|].
    intros generateHash e log message userId context amb Hhash Hclock.
    destruct (route_resolves e message userId context (am_route_clock amb))
      as [d [Hr _]].
    unfold routeMessage. cbn [routingCache routerEngine auditLogger].
    rewrite Hhash, Hclock.
    destruct (RoutingCache.get c clock messageHash) as [hit cache1].
    simpl in Hnone. subst hit. rewrite Hr.
    do 3 eexists. split; [reflexivity|].
    split; [reflexivity|]. split; reflexivity.
Qed.

Lemma cache_get_expired_witness :
  fst (RoutingCache.get old_cache late_clock "h0") = None /\
  forall generateHash e log message userId context amb,
    generateHash message = "h0"%string ->
    am_get_clock amb = late_clock ->
    exists r s d,
      routeMessage generateHash (mkServices e old_cache log) message userId
                   context amb = (Json200 r, s) /\
      rr_cached r = false /\
      route e message userId context (am_route_clock amb) = Resolved d /\
      rr_agent r = rd_agent d.
Proof.
  apply (proj2 (cache_get_respects_ttl old_cache late_clock "h0")).
  - intros entry Hentry. vm_compute in Hentry.
    inversion Hentry; subst entry. vm_compute. reflexivity.
  - intros kv entry Hkv Hread. vm_compute in Hkv.
    inversion Hkv; subst kv. vm_compute in Hread.
    inversion Hread; subst entry. vm_compute. reflexivity.
Defined.

(** C10: when the handler answers from the cache, the response has the
    agent, confidence and reason of the cache entry that [get] returned,
    the complexity "unknown", no skill files, no matched keywords and an
    estimated cost of 0. *)
Theorem cached_response_fields
    (generateHash : string -> string) (env : Env) (st : option Services)
    (body : option Body) (amb : Ambient) (r : RouteResponse) (s' : Services) :
  postRoute generateHash env st body amb = (Json200 r, s') ->
  rr_cached r = true ->
  rr_complexity r = "unknown"%string /\
  rr_skillFilesUsed r = [] /\
  rr_matchedKeywords r = [] /\
  rr_estimatedCost r = 0%Q /\
  exists message entry,
    option_map body_message body = Some (Some message) /\
    fst (RoutingCache.get (routingCache (initializeRouter env st))
                          (am_get_clock amb) (generateHash message))
      = Some entry /\
    rr_agent r = crd_agent entry /\
    rr_confidence r = crd_confidence entry /\
    rr_reason r = crd_reason entry.
Proof.
  unfold postRoute. intros Hpost Hcached.
  destruct body as [b|]; [|discriminate Hpost].
  destruct (body_message b) as [message|] eqn:Hmsg; [|discriminate Hpost].
  destruct (truthy message); [|discriminate Hpost].
  unfold routeMessage in Hpost.
  destruct (RoutingCache.get (routingCache (initializeRouter env st))
                             (am_get_clock amb) (generateHash message))
    as [hit cache1] eqn:Hget.
  destruct hit as [entry|].
  - inversion Hpost; subst r s'.
    cbn [rr_complexity rr_skillFilesUsed rr_matchedKeywords rr_estimatedCost
         rr_agent rr_confidence rr_reason any_complexity any_skillFilesUsed
         any_matchedKeywords any_estimatedCost any_agent any_confidence
         any_reason].
    do 4 (split; [reflexivity|]).
    exists message, entry. cbn [option_map]. rewrite Hmsg, Hget.
    split; [reflexivity|]. split; [reflexivity|].
    split; [reflexivity|]. split; reflexivity.
  - destruct (route_resolves (routerEngine (initializeRouter env st)) message
                (body_userId b) (body_context b) (am_route_clock amb))
      as [d [Hr _]].
    rewrite Hr in Hpost. inversion Hpost; subst r s'.
    discriminate Hcached.
Qed.

Lemma cached_response_witness :
  exists r s',
    postRoute digest0 env0 (Some warmed_up) (Some (body_of login_text))
              ambient0 = (Json200 r, s') /\
    rr_cached r = true /\
    rr_agent r = "codegen"%string /\
    rr_complexity r = "unknown"%string /\
    rr_skillFilesUsed r = [] /\
    rr_matchedKeywords r = [] /\
    rr_estimatedCost r = 0%Q.
Proof.
  destruct (postRoute digest0 env0 (Some warmed_up)
                      (Some (body_of login_text)) ambient0)
    as [resp s'] eqn:Hpost.
  assert (Hshape : exists r, resp = Json200 r /\ rr_cached r = true /\
                             rr_agent r = "codegen"%string).
  { vm_compute in Hpost. inversion Hpost; subst resp.
    eexists. split; [reflexivity|]. split; reflexivity. }
  destruct Hshape as [r [-> [Hc Ha]]].
  exists r, s'. split; [reflexivity|]. split; [exact Hc|].
  split; [exact Ha|].
  destruct (cached_response_fields digest0 env0 (Some warmed_up)
              (Some (body_of login_text)) ambient0 r s' Hpost Hc)
    as [H1 [H2 [H3 [H4 _]]]].
  repeat split; assumption.
Defined.

End HandlerFacts.

(* ================================================================= *)
(** ** The model on inputs of the repository's own tests *)

Section RepositoryTests.
Import Js KeywordMatcher ComplexityClassifier RouterEngine RoutingCache.
Import Scenarios.

(** "should return empty array for empty message": four entries, all 0. *)
Example empty_message_scores :
  map as_agent (scoreMessage "")
    = ["codegen"; "planning"; "security"; "infrastructure"] /\
  Forall (fun s => as_score s == 0) (scoreMessage "").
Proof. split; [vm_compute; reflexivity | vm_compute; repeat constructor]. Qed.

(** "should return 0 for empty scores" *)
Example no_scores_no_confidence : getConfidenceScore [] = 0%Q.
Proof. reflexivity. Qed.

(** "should match compound keywords" *)
Example compound_keywords_matched :
  let matches :=
    flat_map (fun s => map km_keyword (as_matches s))
             (scoreMessage "Create a design document with acceptance criteria")
  in In "design document" matches /\ In "acceptance criteria" matches.
Proof. vm_compute. intuition. Qed.

(** "should classify simple tasks" and "should classify complex tasks" *)
Example classifier_levels :
  ca_level (assessComplexity "What is React?" None) = simple /\
  ca_level
    (assessComplexity
       "Design and architect a distributed microservices system with auto-scaling, load balancing, and fault tolerance"
       None) = complex.
Proof. split; vm_compute; reflexivity. Qed.

(** "should handle cache miss gracefully" *)
Example cache_miss_on_new_cache :
  fst (RoutingCache.get (RoutingCache.new None) late_clock "nonexistent-hash")
    = None.
Proof. reflexivity. Qed.

(** An entry exactly as old as its TTL is still served; one millisecond
    later it is not. *)
Example expiry_boundary :
  isExpired 3601000 old_entry = false /\ isExpired 3601001 old_entry = true.
Proof. split; reflexivity. Qed.

(** White space at either end of a text leaves empty pieces, which
    [tokenize] drops with every piece of one or two characters. *)
Example tokenize_sample :
  split_runs is_space "  Fix the  API, now " = [""; "Fix"; "the"; "API,"; "now"; ""]
  /\ tokenize (toLowerCase "  Fix the  API, now ") = ["fix"; "the"; "api"; "now"].
Proof. split; reflexivity. Qed.

End RepositoryTests.

(* ================================================================= *)
(** ** Further properties of keyword scoring *)

Section RankingFacts.
Import Js KeywordMatcher ComplexityClassifier RouterEngine Registry Notions.
Local Open Scope Q_scope.

Lemma Qltb_true (a b : Q) : Qltb a b = true -> a < b.
Proof.
  unfold Qltb. intros H. apply negb_true_iff in H.
  destruct (Qlt_le_dec a b) as [Hlt|Hle]; [assumption|].
  apply Qle_bool_iff in Hle. congruence.
Qed.

Lemma Qltb_false (a b : Q) : Qltb a b = false -> b <= a.
Proof.
  unfold Qltb. intros H. apply negb_false_iff in H.
  now apply Qle_bool_iff.
Qed.

Lemma insert_desc_sorted {A : Type} (key : A -> Q) (x : A) (l : list A) :
  StronglySorted (fun a b => key b <= key a) l ->
  StronglySorted (fun a b => key b <= key a) (insert_desc key x l).
Proof.
  induction l as [|y t IH]; simpl; intros Hs.
  - constructor; constructor.
  - inversion Hs as [|? ? Ht Hy]; subst.
    destruct (Qltb (key x) (key y)) eqn:E.
    + apply Qltb_true in E. constructor; [now apply IH|].
      apply Forall_forall. intros z Hz.
      apply (Permutation_in _ (insert_desc_perm key x t)) in Hz.
      destruct Hz as [<-|Hz].
      * now apply Qlt_le_weak.
      * rewrite Forall_forall in Hy. now apply Hy.
    + apply Qltb_false in E. constructor; [assumption|].
      constructor; [assumption|].
      apply Forall_forall. intros z Hz. rewrite Forall_forall in Hy.
      eapply Qle_trans; [apply Hy, Hz | assumption].
Qed.

Lemma toSorted_desc_sorted {A : Type} (key : A -> Q) (l : list A) :
  StronglySorted (fun a b => key b <= key a) (toSorted_desc key l).
Proof.
  unfold toSorted_desc. induction l as [|x t IH]; simpl.
  - constructor.
  - now apply insert_desc_sorted.
Qed.

(** Elements with one and the same key keep their order. *)
Lemma insert_desc_stable {A : Type} (key : A -> Q) (q : Q) (x : A)
    (l : list A) :
  filter (fun a => Qeq_bool (key a) q) (insert_desc key x l)
  = filter (fun a => Qeq_bool (key a) q) (x :: l).
Proof.
  induction l as [|y t IH]; [reflexivity|].
  simpl insert_desc. destruct (Qltb (key x) (key y)) eqn:E; [|reflexivity].
  apply Qltb_true in E.
  simpl filter in *. rewrite IH.
  destruct (Qeq_bool (key x) q) eqn:Ex, (Qeq_bool (key y) q) eqn:Ey;
    try reflexivity.
  apply Qeq_bool_iff in Ex. apply Qeq_bool_iff in Ey.
  rewrite Ex, Ey in E. exfalso. now apply (Qlt_irrefl q).
Qed.

Lemma toSorted_desc_stable {A : Type} (key : A -> Q) (q : Q) (l : list A) :
  filter (fun a => Qeq_bool (key a) q) (toSorted_desc key l)
  = filter (fun a => Qeq_bool (key a) q) l.
Proof.
  unfold toSorted_desc. induction l as [|x t IH]; [reflexivity|].
  simpl fold_right. rewrite insert_desc_stable. simpl. now rewrite IH.
Qed.

(** The three properties determine the result: whatever procedure the
    runtime sorts with, a stable sort in descending order returns the
    list that [toSorted_desc] builds. *)
Lemma stable_ranking_unique {A : Type} (key : A -> Q) (r s : list A) :
  Permutation r s ->
  StronglySorted (fun a b => key b <= key a) r ->
  StronglySorted (fun a b => key b <= key a) s ->
  (forall q, filter (fun a => Qeq_bool (key a) q) r
             = filter (fun a => Qeq_bool (key a) q) s) ->
  r = s.
Proof.
  revert s. induction r as [|a r' IH]; intros s Hperm Hr Hs Hclass.
  - apply Permutation_nil in Hperm. now subst s.
  - destruct s as [|b s'].
    + apply Permutation_sym, Permutation_nil in Hperm. discriminate Hperm.
    + apply StronglySorted_inv in Hr. destruct Hr as [Hr' Ha].
      apply StronglySorted_inv in Hs. destruct Hs as [Hs' Hb].
      rewrite Forall_forall in Ha, Hb.
      assert (Hab : key a == key b).
      { apply Qle_antisym.
        - assert (Hin : In a (b :: s'))
            by (apply (Permutation_in _ Hperm); now left).
          destruct Hin as [<-|Hin]; [apply Qle_refl | now apply Hb].
        - assert (Hin : In b (a :: r'))
            by (apply (Permutation_in _ (Permutation_sym Hperm)); now left).
          destruct Hin as [<-|Hin]; [apply Qle_refl | now apply Ha]. }
      pose proof (Hclass (key a)) as Hhead. cbn [filter] in Hhead.
      assert (Ea : Qeq_bool (key a) (key a) = true)
        by (apply Qeq_bool_iff; reflexivity).
      assert (Eb : Qeq_bool (key b) (key a) = true)
        by (apply Qeq_bool_iff; symmetry; exact Hab).
      rewrite Ea, Eb in Hhead. injection Hhead as Hhd Htl. subst b.
      f_equal. apply IH.
      * exact (Permutation_cons_inv Hperm).
      * exact Hr'.
      * exact Hs'.
      * intros q. pose proof (Hclass q) as Hq. cbn [filter] in Hq.
        destruct (Qeq_bool (key a) q) eqn:Eq; [|exact Hq].
        injection Hq as Hq. exact Hq.
Qed.

Lemma toSorted_desc_unique {A : Type} (key : A -> Q) (l r : list A) :
  Permutation r l ->
  StronglySorted (fun a b => key b <= key a) r ->
  (forall q, filter (fun a => Qeq_bool (key a) q) r
             = filter (fun a => Qeq_bool (key a) q) l) ->
  r = toSorted_desc key l.
Proof.
  intros Hperm Hsorted Hclass. apply (stable_ranking_unique key).
  - eapply perm_trans; [exact Hperm|].
    apply Permutation_sym, toSorted_desc_perm.
  - exact Hsorted.
  - apply toSorted_desc_sorted.
  - intros q. rewrite Hclass. symmetry. apply toSorted_desc_stable.
Qed.

Lemma scoreAgent_on_grid (kws : list string) (nt agent : string)
    (domains : list (string * list string)) :
  on_grid (as_score (scoreAgent kws nt agent domains)).
Proof.
  unfold scoreAgent. cbv zeta. cbn [as_score]. unfold Math_min.
  destruct (Qle_bool 100 _).
  - apply (Z_on_grid 100).
  - apply fl_on_grid.
Qed.

(** The comparator of the ranking, [(a, b) => b.score - a.score], is
    positive, zero or negative as the score of [a] is below, equal to or
    above the score of [b]: rounding the difference does not change its
    sign. *)
Lemma comparator_follows_scores (text : string) (a b : AgentScore) :
  In a (scoreMessage text) -> In b (scoreMessage text) ->
  (as_score a < as_score b <-> 0 < fsub (as_score b) (as_score a)) /\
  (as_score a == as_score b <-> fsub (as_score b) (as_score a) == 0).
Proof.
  intros Ha Hb. apply fsub_sign.
  - rewrite scoreMessage_unfold, toSorted_desc_In in Ha.
    apply in_map_iff in Ha. destruct Ha as [entry [<- _]].
    apply scoreAgent_on_grid.
  - rewrite scoreMessage_unfold, toSorted_desc_In in Hb.
    apply in_map_iff in Hb. destruct Hb as [entry [<- _]].
    apply scoreAgent_on_grid.
Qed.

Lemma scoreMessage_sorts_unsorted (text : string) :
  scoreMessage text = toSorted_desc as_score (unsortedScores text).
Proof. apply scoreMessage_unfold. Qed.

Lemma unsortedScores_agents (text : string) :
  map as_agent (unsortedScores text) = scored_ids.
Proof.
  unfold unsortedScores, scored_ids. rewrite map_map.
  apply map_ext. intros entry. apply scoreAgent_agent.
Qed.

(** X1: [scoreMessage] returns the scores of the agents of
    [KEYWORD_SETS], one each, in descending order of score, and agents
    with equal scores stay in the order of the table. *)
Theorem scoreMessage_is_stable_ranking (text : string) :
  map as_agent (unsortedScores text)
    = ["codegen"; "planning"; "security"; "infrastructure"]%string /\
  Permutation (scoreMessage text) (unsortedScores text) /\
  ranked (scoreMessage text) /\
  forall q,
    filter (fun s => Qeq_bool (as_score s) q) (scoreMessage text)
    = filter (fun s => Qeq_bool (as_score s) q) (unsortedScores text).
Proof.
  rewrite scoreMessage_sorts_unsorted. split; [|split; [|split]].
  - rewrite unsortedScores_agents. reflexivity.
  - apply toSorted_desc_perm.
  - apply toSorted_desc_sorted.
  - intros q. apply toSorted_desc_stable.
Qed.

End RankingFacts.

(* ================================================================= *)
(** ** The score and its closed form *)

Section ScoreFormula.
Import Js KeywordMatcher ComplexityClassifier RouterEngine Registry Notions.
Local Open Scope Q_scope.

Lemma count_app {A : Type} (l1 l2 : list A) :
  count (l1 ++ l2) == count l1 + count l2.
Proof.
  unfold count. rewrite length_app, Nat2Z.inj_add, inject_Z_plus.
  reflexivity.
Qed.

Lemma count_cons {A : Type} (x : A) (l : list A) :
  count (x :: l) == count l + 1.
Proof.
  unfold count. simpl List.length. rewrite Nat2Z.inj_succ.
  unfold Z.succ. rewrite inject_Z_plus. reflexivity.
Qed.

Lemma count_nonneg {A : Type} (l : list A) : 0 <= count l.
Proof.
  unfold count. change 0 with (inject_Z 0). rewrite <- Zle_Qle. lia.
Qed.

Lemma count_filter_le {A : Type} (p : A -> bool) (l : list A) :
  count (filter p l) <= count l.
Proof.
  unfold count. rewrite <- Zle_Qle. apply Nat2Z.inj_le.
  apply filter_length_le.
Qed.

(** *** One addition to the running total *)

(** The two increments are within [2^-48] of their decimals. *)
Lemma increments_near :
  0.85 - (1 # 281474976710656) <= DEFAULT_CONFIDENCE
    /\ DEFAULT_CONFIDENCE <= 0.85 + (1 # 281474976710656) /\
  0.15 - (1 # 281474976710656) <= fmul KEYWORD_WEIGHT COMPOUND_KEYWORD_BOOST
    /\ fmul KEYWORD_WEIGHT COMPOUND_KEYWORD_BOOST
         <= 0.15 + (1 # 281474976710656) /\
  0 <= DEFAULT_CONFIDENCE <= 1 /\
  0 <= fmul KEYWORD_WEIGHT COMPOUND_KEYWORD_BOOST <= 1.
Proof. vm_compute. repeat split; discriminate. Qed.

(** Starting from a whole number below 64, neither increment nor both
    carry the total past the next whole number. *)
Lemma increments_table :
  forallb
    (fun z =>
       let j := inject_Z z in
       let phraseBoost := fmul KEYWORD_WEIGHT COMPOUND_KEYWORD_BOOST in
       Qle_bool (fadd j DEFAULT_CONFIDENCE) (j + 1)
       && Qle_bool (fadd j phraseBoost) (j + 1)
       && Qle_bool (fadd (fadd j DEFAULT_CONFIDENCE) phraseBoost) (j + 1))
    (map Z.of_nat (seq 0 64)) = true.
Proof. vm_compute. reflexivity. Qed.

Lemma increments_step (z : Z) :
  (0 <= z < 64)%Z ->
  let j := inject_Z z in
  let phraseBoost := fmul KEYWORD_WEIGHT COMPOUND_KEYWORD_BOOST in
  fadd j DEFAULT_CONFIDENCE <= j + 1 /\
  fadd j phraseBoost <= j + 1 /\
  fadd (fadd j DEFAULT_CONFIDENCE) phraseBoost <= j + 1.
Proof.
  intros Hz. pose proof increments_table as T.
  rewrite forallb_forall in T.
  assert (Hin : In z (map Z.of_nat (seq 0 64))).
  { apply in_map_iff. exists (Z.to_nat z). split; [lia|].
    apply in_seq. lia. }
  specialize (T z Hin). cbv zeta in T |- *.
  apply andb_prop in T. destruct T as [T T3].
  apply andb_prop in T. destruct T as [T1 T2].
  apply Qle_bool_iff in T1. apply Qle_bool_iff in T2.
  apply Qle_bool_iff in T3. split; [|split]; assumption.
Qed.

(** A rounded addition below 64 is within [2^-48] of the exact one. *)
Lemma fadd_within (t c : Q) :
  0 <= t -> 0 <= c -> t + c < 64 ->
  t + c - (1 # 281474976710656) <= fadd t c
    <= t + c + (1 # 281474976710656).
Proof.
  intros Ht Hc H64. unfold fadd.
  assert (Habs : Qabs (t + c) < 2 ^ 6).
  { rewrite Qabs_pos by lra. exact H64. }
  pose proof (fl_within (t + c) 6 ltac:(lia) Habs) as [L U].
  change (2 ^ (6 - 54)) with (1 # 281474976710656) in L, U.
  split; lra.
Qed.

Lemma tracked_start : tracked 0 0 0 0.
Proof.
  unfold tracked, rounding_slack. change (inject_Z 0) with 0.
  repeat split; lra.
Qed.

Lemma tracked_more (t : Q) (j j' : Z) (m h : Q) :
  (j <= j')%Z -> tracked t j m h -> tracked t j' m h.
Proof.
  intros Hj [H0 [Hj0 [L U]]]. repeat split; try assumption.
  apply Qle_trans with (inject_Z j); [assumption|].
  rewrite <- Zle_Qle. exact Hj.
Qed.

Lemma tracked_eq (t : Q) (j : Z) (m h m' h' : Q) :
  m == m' -> h == h' -> tracked t j m h -> tracked t j m' h'.
Proof.
  intros Em Eh [H0 [Hj0 [L U]]]. unfold tracked.
  rewrite <- Em, <- Eh. repeat split; assumption.
Qed.

(** What one keyword does to the running total. *)
Lemma keywordStep_tracked (kws : list string) (nt agent domain : string)
    (acc : ScoreAcc) (k : string) (j : Z) (m h : Q) :
  (0 <= j < 63)%Z -> 0 <= m -> 0 <= h ->
  tracked (acc_totalScore acc) j m h ->
  tracked (acc_totalScore (keywordStep kws nt agent domain acc k)) (j + 1)
          (m + count (filter (Set_has kws) [k]))
          (h + count (filter (includes nt) [k])).
Proof.
  intros Hj Hm Hh [H0 [Hj0 [L U]]].
  destruct increments_near as [A1 [A2 [B1 [B2 [[C1 C2] [D1 D2]]]]]].
  destruct (increments_step j ltac:(lia)) as [S1 [S2 S3]].
  cbv zeta in S1, S2, S3.
  set (c85 := DEFAULT_CONFIDENCE) in *.
  set (c15 := fmul KEYWORD_WEIGHT COMPOUND_KEYWORD_BOOST) in *.
  set (t := acc_totalScore acc) in *.
  assert (Hj1 : inject_Z (j + 1) == inject_Z j + 1).
  { rewrite inject_Z_plus. reflexivity. }
  assert (Hj63 : inject_Z j <= 62).
  { change 62 with (inject_Z 62). rewrite <- Zle_Qle. lia. }
  unfold keywordStep. fold c85 c15. simpl filter.
  unfold tracked, rounding_slack in *.
  destruct (Set_has kws k), (includes nt k);
    cbn [acc_totalScore]; fold t;
    change (count [k]) with 1; change (count (@nil string)) with 0;
    rewrite Hj1.
  - pose proof (fadd_within t c85 H0 C1 ltac:(lra)) as [F1 F2].
    assert (G0 : 0 <= fadd t c85) by (apply fadd_nonneg; assumption).
    assert (G1 : fadd t c85 <= inject_Z j + 1).
    { eapply Qle_trans; [| exact S1].
      apply fadd_le; try assumption; apply Qle_refl. }
    pose proof (fadd_within (fadd t c85) c15 G0 D1 ltac:(lra)) as [F3 F4].
    repeat split.
    + apply fadd_nonneg; assumption.
    + eapply Qle_trans; [| exact S3].
      apply fadd_le; try assumption; [|apply Qle_refl].
      apply fadd_le; try assumption; apply Qle_refl.
    + lra.
    + lra.
  - pose proof (fadd_within t c85 H0 C1 ltac:(lra)) as [F1 F2].
    repeat split.
    + apply fadd_nonneg; assumption.
    + eapply Qle_trans; [| exact S1].
      apply fadd_le; try assumption; apply Qle_refl.
    + lra.
    + lra.
  - pose proof (fadd_within t c15 H0 D1 ltac:(lra)) as [F1 F2].
    repeat split.
    + apply fadd_nonneg; assumption.
    + eapply Qle_trans; [| exact S2].
      apply fadd_le; try assumption; apply Qle_refl.
    + lra.
    + lra.
  - repeat split; lra.
Qed.


(** What the loop over the keywords of one domain adds. *)
Lemma keywords_loop_matches (kws : list string) (nt agent domain : string)
    (keywords : list string) :
  forall acc,
    acc_matches (fold_left (keywordStep kws nt agent domain) keywords acc) =
      acc_matches acc ++
      map (fun k => mkKeywordMatch k agent DEFAULT_CONFIDENCE domain)
          (filter (Set_has kws) keywords).
Proof.
  induction keywords as [|k rest IH]; intros acc.
  - simpl. now rewrite app_nil_r.
  - simpl fold_left. rewrite IH. clear IH.
    unfold keywordStep. simpl filter.
    destruct (Set_has kws k), (includes nt k); cbn [acc_matches map];
      try reflexivity; now rewrite <- app_assoc.
Qed.

Lemma keywords_loop_total (kws : list string) (nt agent domain : string)
    (keywords : list string) :
  forall acc j m h,
    (0 <= j)%Z -> (j + Z.of_nat (List.length keywords) <= 63)%Z ->
    0 <= m -> 0 <= h ->
    tracked (acc_totalScore acc) j m h ->
    tracked
      (acc_totalScore (fold_left (keywordStep kws nt agent domain)
                                 keywords acc))
      (j + Z.of_nat (List.length keywords))
      (m + count (filter (Set_has kws) keywords))
      (h + count (filter (includes nt) keywords)).
Proof.
  induction keywords as [|k rest IH]; intros acc j m h Hj Hlen Hm Hh Ht.
  - simpl fold_left. simpl filter. simpl List.length.
    apply (tracked_more _ j); [lia|].
    apply (tracked_eq _ _ m h); [| | exact Ht];
      change (count (@nil string)) with 0; ring.
  - simpl fold_left. simpl List.length in Hlen |- *.
    pose proof (keywordStep_tracked kws nt agent domain acc k j m h
                  ltac:(lia) Hm Hh Ht) as Hstep.
    pose proof (count_nonneg (filter (Set_has kws) [k])) as N1.
    pose proof (count_nonneg (filter (includes nt) [k])) as N2.
    pose proof (IH (keywordStep kws nt agent domain acc k) (j + 1)%Z
                  (m + count (filter (Set_has kws) [k]))
                  (h + count (filter (includes nt) [k]))
                  ltac:(lia) ltac:(lia) ltac:(lra) ltac:(lra) Hstep) as Hrest.
    apply (tracked_more _ (j + 1 + Z.of_nat (List.length rest))); [lia|].
    eapply tracked_eq; [| | exact Hrest].
    + change (k :: rest) with ([k] ++ rest).
      rewrite (filter_app (Set_has kws) [k] rest), count_app. ring.
    + change (k :: rest) with ([k] ++ rest).
      rewrite (filter_app (includes nt) [k] rest), count_app. ring.
Qed.

(** What the loop over the domains of one agent adds. *)
Lemma domains_loop_matches (kws : list string) (nt agent : string)
    (domains : list (string * list string)) :
  forall acc,
    let acc' := fold_left (domainStep kws nt agent) domains acc in
    map km_keyword (acc_matches acc') =
      map km_keyword (acc_matches acc) ++
      filter (Set_has kws) (flat_map snd domains) /\
    (Forall (fun m => km_agent m = agent /\
                      km_confidence m = DEFAULT_CONFIDENCE)
            (acc_matches acc) ->
     Forall (fun m => km_agent m = agent /\
                      km_confidence m = DEFAULT_CONFIDENCE)
            (acc_matches acc')).
Proof.
  induction domains as [|[domain keywords] rest IH]; intros acc; cbv zeta.
  - simpl fold_left. simpl flat_map. simpl filter.
    split; [now rewrite app_nil_r | tauto].
  - simpl fold_left.
    set (acc0 := mkScoreAcc (acc_matches acc) (acc_totalScore acc)
                            (jm_set (acc_domainScores acc) domain 0)).
    pose proof (keywords_loop_matches kws nt agent domain keywords acc0)
      as Hm.
    set (acc1 := fold_left (keywordStep kws nt agent domain) keywords acc0)
      in *.
    destruct (IH acc1) as [Hm' Hf']. cbv zeta in Hm', Hf'.
    rewrite Hm', Hm. clear Hm'.
    subst acc0. cbn [acc_matches].
    simpl flat_map. rewrite !filter_app.
    split.
    + rewrite map_app, map_map. simpl. rewrite map_id.
      now rewrite <- app_assoc.
    + intros Hacc. apply Hf'. rewrite Hm. cbn [acc_matches].
      apply Forall_app. split; [assumption|].
      apply Forall_forall. intros m Hin. apply in_map_iff in Hin.
      destruct Hin as [k [<- _]]. split; reflexivity.
Qed.

Lemma domains_loop_total (kws : list string) (nt agent : string)
    (domains : list (string * list string)) :
  forall acc j m h,
    (0 <= j)%Z ->
    (j + Z.of_nat (List.length (flat_map snd domains)) <= 63)%Z ->
    0 <= m -> 0 <= h ->
    tracked (acc_totalScore acc) j m h ->
    tracked
      (acc_totalScore (fold_left (domainStep kws nt agent) domains acc))
      (j + Z.of_nat (List.length (flat_map snd domains)))
      (m + count (filter (Set_has kws) (flat_map snd domains)))
      (h + count (filter (includes nt) (flat_map snd domains))).
Proof.
  induction domains as [|[domain keywords] rest IH];
    intros acc j m h Hj Hlen Hm Hh Ht.
  - simpl fold_left. simpl flat_map. simpl filter. simpl List.length.
    apply (tracked_more _ j); [lia|].
    apply (tracked_eq _ _ m h); [| | exact Ht];
      change (count (@nil string)) with 0; ring.
  - simpl fold_left. simpl flat_map in Hlen |- *.
    rewrite length_app in Hlen |- *.
    set (acc0 := mkScoreAcc (acc_matches acc) (acc_totalScore acc)
                            (jm_set (acc_domainScores acc) domain 0)).
    pose proof (keywords_loop_total kws nt agent domain keywords acc0 j m h
                  Hj ltac:(lia) Hm Hh Ht) as H1.
    pose proof (count_nonneg (filter (Set_has kws) keywords)) as N1.
    pose proof (count_nonneg (filter (includes nt) keywords)) as N2.
    pose proof (IH (fold_left (keywordStep kws nt agent domain) keywords
                              acc0)
                   (j + Z.of_nat (List.length keywords))%Z
                   (m + count (filter (Set_has kws) keywords))
                   (h + count (filter (includes nt) keywords))
                   ltac:(lia) ltac:(lia) ltac:(lra) ltac:(lra) H1)
      as H2.
    apply (tracked_more
             _ (j + Z.of_nat (List.length keywords)
                + Z.of_nat (List.length (flat_map snd rest)))); [lia|].
    eapply tracked_eq; [| | exact H2].
    + rewrite (filter_app (Set_has kws)), count_app. ring.
    + rewrite (filter_app (includes nt)), count_app. ring.
Qed.

Lemma keywords_of_entry (entry : string * list (string * list string)) :
  In entry KEYWORD_SETS ->
  keywords_of (fst entry) = flat_map snd (snd entry) /\
  (List.length (flat_map snd (snd entry)) <= 43)%nat.
Proof.
  intros Hin. unfold KEYWORD_SETS in Hin. simpl in Hin.
  destruct Hin as [<-|[<-|[<-|[<-|[]]]]];
    (split; [reflexivity | vm_compute; repeat constructor]).
Qed.

(** Dividing a total of at most 43 by ten and multiplying it by ten
    again moves it by less than [2^-46] and not past 43. *)
Lemma normalize_arith (t q u v : Q) :
  0 <= t -> t <= 43 -> q * 10 == t ->
  q - (1 # 2251799813685248) <= u -> u <= q + (1 # 2251799813685248) ->
  (u * 10 < 64 ->
   u * 10 - (1 # 281474976710656) <= v /\
   v <= u * 10 + (1 # 281474976710656)) ->
  t - (1 # 70368744177664) <= v <= t + (1 # 70368744177664).
Proof.
  intros H0 H43 Hq L U Hv.
  assert (H64 : u * 10 < 64) by lra.
  destruct (Hv H64) as [Lv Uv]. split; lra.
Qed.

Lemma fdiv10_within (t : Q) :
  0 <= t -> t <= 43 ->
  t / 10 - (1 # 2251799813685248) <= fdiv t 10
  /\ fdiv t 10 <= t / 10 + (1 # 2251799813685248).
Proof.
  intros H0 H43.
  assert (Habs : Qabs (t / 10) < 2 ^ 3).
  { rewrite Qabs_pos.
    - apply Qlt_shift_div_r; [reflexivity|]. change (2 ^ 3) with 8. lra.
    - apply Qle_shift_div_l; [reflexivity | lra]. }
  pose proof (fl_within (t / 10) 3 ltac:(lia) Habs) as [L U].
  change (2 ^ (3 - 54)) with (1 # 2251799813685248) in L, U.
  split; assumption.
Qed.

Lemma fmul10_within (u : Q) :
  0 <= u -> u * 10 < 64 ->
  u * 10 - (1 # 281474976710656) <= fmul u 10
  /\ fmul u 10 <= u * 10 + (1 # 281474976710656).
Proof.
  intros H0 H64.
  assert (Habs : Qabs (u * 10) < 2 ^ 6).
  { rewrite Qabs_pos by lra. exact H64. }
  pose proof (fl_within (u * 10) 6 ltac:(lia) Habs) as [L U].
  change (2 ^ (6 - 54)) with (1 # 281474976710656) in L, U.
  split; assumption.
Qed.

Lemma normalize_below_43 (t : Q) :
  0 <= t -> t <= 43 -> fmul (fdiv t 10) 10 <= 43.
Proof.
  intros H0 H43.
  apply Qle_trans with (fmul (fdiv 43 10) 10); [| vm_compute; discriminate].
  apply fmul_le.
  - apply fdiv_nonneg; [assumption | reflexivity].
  - discriminate.
  - apply fdiv_le; [assumption | assumption | reflexivity].
  - apply Qle_refl.
Qed.

Lemma normalize_total (t : Q) :
  0 <= t -> t <= 43 ->
  let v := fmul (fdiv t 10) 10 in
  Math_min 100 v = v /\ v <= 43 /\
  t - (1 # 70368744177664) <= v <= t + (1 # 70368744177664).
Proof.
  intros H0 H43. cbv zeta.
  pose proof (normalize_below_43 t H0 H43) as Hv.
  destruct (fdiv10_within t H0 H43) as [Lu Uu].
  assert (Hu0 : 0 <= fdiv t 10)
    by (apply fdiv_nonneg; [assumption | reflexivity]).
  pose proof (fmul10_within (fdiv t 10) Hu0) as Hw.
  assert (Hdiv : t / 10 * 10 == t) by field.
  split; [|split; [exact Hv|]].
  - unfold Math_min.
    destruct (Qle_bool 100 (fmul (fdiv t 10) 10)) eqn:E; [|reflexivity].
    apply Qle_bool_iff in E. exfalso.
    revert Hv E. generalize (fmul (fdiv t 10) 10). intros v Hv E. lra.
  - exact (normalize_arith t (t / 10) (fdiv t 10) (fmul (fdiv t 10) 10)
             H0 H43 Hdiv Lu Uu Hw).
Qed.

Lemma scoreMessage_entry_formula (text : string) (s : AgentScore) :
  In s (scoreMessage text) ->
  map km_keyword (as_matches s)
    = filter (Set_has (candidates text)) (keywords_of (as_agent s)) /\
  Forall (fun m => km_agent m = as_agent s /\
                   km_confidence m = DEFAULT_CONFIDENCE)
         (as_matches s) /\
  Qabs (as_score s
        - (0.85 * count (as_matches s)
           + 0.15 * count (filter (includes (toLowerCase text))
                                   (keywords_of (as_agent s)))))
    <= 1 # 1000000000000 /\
  as_score s <= 43.
Proof.
  intros Hin.
  rewrite scoreMessage_sorts_unsorted, toSorted_desc_In in Hin.
  unfold unsortedScores in Hin. apply in_map_iff in Hin.
  destruct Hin as [[agent domains] [<- Hentry]].
  destruct (keywords_of_entry _ Hentry) as [Hks Hsize].
  cbn [fst snd] in *.
  destruct (domains_loop_matches (candidates text) (toLowerCase text) agent
                                 domains (mkScoreAcc [] 0 [])) as [Hm Hf].
  pose proof (domains_loop_total (candidates text) (toLowerCase text) agent
                domains (mkScoreAcc [] 0 []) 0 0 0
                ltac:(lia) ltac:(lia) ltac:(lra) ltac:(lra) tracked_start)
    as Ht.
  cbv zeta in Hm, Hf. cbn [acc_matches acc_totalScore map app] in *.
  unfold scoreAgent. cbv zeta. cbn [as_agent as_matches as_score].
  set (acc := fold_left (domainStep (candidates text) (toLowerCase text) agent)
                        domains (mkScoreAcc [] 0 [])) in *.
  rewrite Hks.
  assert (Hcount : count (acc_matches acc)
                   == count (filter (Set_has (candidates text))
                                    (flat_map snd domains))).
  { unfold count. rewrite <- Hm, length_map. reflexivity. }
  pose proof (count_filter_le (Set_has (candidates text))
                              (flat_map snd domains)) as Hle1.
  pose proof (count_filter_le (includes (toLowerCase text))
                              (flat_map snd domains)) as Hle2.
  pose proof (count_nonneg (filter (Set_has (candidates text))
                                   (flat_map snd domains))) as H01.
  pose proof (count_nonneg (filter (includes (toLowerCase text))
                                   (flat_map snd domains))) as H02.
  assert (Hall : count (flat_map snd domains) <= 43).
  { unfold count. change 43 with (inject_Z 43). rewrite <- Zle_Qle. lia. }
  destruct Ht as [T0 [Tj [TL TU]]].
  assert (T43 : acc_totalScore acc <= 43).
  { eapply Qle_trans; [exact Tj|].
    change 43 with (inject_Z 43). rewrite <- Zle_Qle. lia. }
  destruct (normalize_total (acc_totalScore acc) T0 T43) as [Hmin [Hv [NL NU]]].
  cbv zeta in Hmin, Hv, NL, NU.
  split; [exact Hm|]. split; [apply Hf; constructor|].
  rewrite Hmin. split; [| exact Hv].
  rewrite Hcount. apply Qabs_Qle_condition.
  unfold rounding_slack in TL, TU.
  set (v := fmul (fdiv (acc_totalScore acc) 10) 10) in *.
  set (t := acc_totalScore acc) in *.
  set (m := count (filter (Set_has (candidates text)) (flat_map snd domains)))
    in *.
  set (h := count (filter (includes (toLowerCase text))
                          (flat_map snd domains))) in *.
  set (n := count (flat_map snd domains)) in *.
  assert (Em : 0 + m == m) by ring. assert (Eh : 0 + h == h) by ring.
  rewrite Em, Eh in TL, TU.
  split; lra.
Qed.

(** X2: for each agent, the matched keywords are exactly the agent's
    keywords of [KEYWORD_SETS] that are a token or a compound phrase of
    the lowercased text, in the order of the table; every match carries
    the agent's id and the number 0.85 as confidence; the score is
    within 10^-12 of 0.85 for each match plus 0.15 for each of the
    agent's keywords that occurs in the lowercased text as a substring
    (the additions are rounded, so it need not be equal), and it never
    exceeds 43. *)
Theorem score_formula (text : string) :
  Forall
    (fun s =>
       map km_keyword (as_matches s)
         = filter (Set_has (candidates text)) (keywords_of (as_agent s)) /\
       Forall (fun m => km_agent m = as_agent s /\
                        km_confidence m = DEFAULT_CONFIDENCE)
              (as_matches s) /\
       Qabs (as_score s
             - (0.85 * count (as_matches s)
                + 0.15 * count (filter (includes (toLowerCase text))
                                        (keywords_of (as_agent s)))))
         <= 1 # 1000000000000 /\
       as_score s <= 43)
    (scoreMessage text).
Proof.
  apply Forall_forall. intros s Hin.
  exact (scoreMessage_entry_formula text s Hin).
Qed.

End ScoreFormula.

(* ================================================================= *)
(** ** Rounded sums at work *)

Section RoundedSums.
Import Js KeywordMatcher ComplexityClassifier RouterEngine Registry Notions.
Import Scenarios Samples.
Local Open Scope Q_scope.

(** The numbers 0.85 and 0.15, and every total that up to 43 keywords
    can add up to when each adds both increments, followed by one or two
    further increments, by the normalization [/ 10 * 10] and by the
    division by 100 of [getConfidenceScore]: [fadd], [fmul] and [fdiv]
    give what addition, multiplication and division of the Standard
    Library's binary64 specification give. *)
Example rounding_agrees_with_binary64 :
  let c85 := S754_finite false 7656119366529843 (-53) in
  let c15 := S754_finite false 5404319552844595 (-55) in
  let add := SFadd 53 1024 in
  let mul := SFmul 53 1024 in
  let div := SFdiv 53 1024 in
  b64_value c85 == DEFAULT_CONFIDENCE /\
  b64_value c15 == fmul KEYWORD_WEIGHT COMPOUND_KEYWORD_BOOST /\
  forallb
    (fun n =>
       let s := Nat.iter n (fun s => add (add s c85) c15)
                           (S754_zero false) in
       let t := Nat.iter n (fun t => fadd (fadd t (fl 0.85)) (fl 0.15)) 0 in
       Qeq_bool (b64_value s) t
       && Qeq_bool (b64_value (add s c85)) (fadd t (fl 0.85))
       && Qeq_bool (b64_value (add s c15)) (fadd t (fl 0.15))
       && Qeq_bool (b64_value (add (add s c15) c15))
                   (fadd (fadd t (fl 0.15)) (fl 0.15))
       && Qeq_bool (b64_value (mul (div (add s c15) (b64_of_Z 10))
                                   (b64_of_Z 10)))
                   (fmul (fdiv (fadd t (fl 0.15)) 10) 10)
       && Qeq_bool (b64_value (div (add s c85) (b64_of_Z 100)))
                   (fdiv (fadd t (fl 0.85)) 100))
    (seq 0 44) = true.
Proof. vm_compute. repeat split. Qed.

(** The textbook case: 0.1 + 0.2 is the number
    0.30000000000000004, not 0.3. *)
Example a_tenth_and_two_tenths :
  fadd (fl 0.1) (fl 0.2) == 1351079888211149 # 4503599627370496 /\
  fl 0.3 < fadd (fl 0.1) (fl 0.2).
Proof. vm_compute. split; reflexivity. Qed.

(** On [tie_text] the two sums are rounded apart: security reaches the
    number 1.9 and code generation stays just below it, so security is
    ranked first and routed to; exact sums would have tied them and
    left code generation, the first of the table, on top. *)
Example rounding_decides_a_ranking :
  map as_agent (scoreMessage tie_text)
    = ["security"; "codegen"; "infrastructure"; "planning"]%string /\
  Forall2 Qeq (map as_score (scoreMessage tie_text))
    [fl 1.9; 2139209823000985 # 1125899906842624; fl 0.15; 0] /\
  (2139209823000985 # 1125899906842624) < fl 1.9 /\
  forall e userId context clock,
    exists d, route e tie_text userId context clock = Resolved d /\
              rd_agent d = "security"%string.
Proof.
  split; [vm_compute; reflexivity|].
  split; [vm_compute; repeat constructor|].
  split; [vm_compute; reflexivity|].
  intros e userId context clock.
  destruct (route_resolves e tie_text userId context clock)
    as [d [Hr [Ha _]]].
  exists d. split; [exact Hr|]. rewrite Ha. vm_compute. reflexivity.
Qed.

(** On [threshold_text] the level is complex and code generation is on
    top; planning's rounded total is the number 19.999999999999996,
    below the 20 that the override asks for, so [route] stays with code
    generation; exact sums would have given planning 20 and the task. *)
Example rounding_decides_the_override :
  ca_level (assessComplexity threshold_text None) = complex /\
  map as_agent (scoreMessage threshold_text)
    = ["codegen"; "planning"; "infrastructure"; "security"]%string /\
  Forall2 Qeq (map as_score (scoreMessage threshold_text))
    [1780329227694899 # 70368744177664;
     5629499534213119 # 281474976710656; 2; 1] /\
  (5629499534213119 # 281474976710656) < 20 /\
  forall e userId context clock,
    exists d, route e threshold_text userId context clock = Resolved d /\
              rd_agent d = "codegen"%string.
Proof.
  split; [vm_compute; reflexivity|].
  split; [vm_compute; reflexivity|].
  split; [vm_compute; repeat constructor|].
  split; [vm_compute; reflexivity|].
  intros e userId context clock.
  destruct (route_resolves e threshold_text userId context clock)
    as [d [Hr [Ha _]]].
  exists d. split; [exact Hr|]. rewrite Ha. vm_compute. reflexivity.
Qed.

(** On [handover_text] code generation has 25 matches and 27 keywords
    in the text, 25.3 in exact sums; the rounded total is the number
    25.299999999999997. *)
Example handover_total_is_rounded :
  map as_agent (scoreMessage handover_text)
    = ["codegen"; "planning"; "infrastructure"; "security"]%string /\
  Forall2 Qeq (map as_score (scoreMessage handover_text))
    [1780329227694899 # 70368744177664; 22; 2; 0] /\
  (1780329227694899 # 70368744177664) < 25.3.
Proof.
  split; [vm_compute; reflexivity|].
  split; [vm_compute; repeat constructor|].
  vm_compute. reflexivity.
Qed.

End RoundedSums.

(* ================================================================= *)
(** ** The confidence of a message *)

Section ConfidenceFacts.
Import Js KeywordMatcher ComplexityClassifier RouterEngine Registry Notions.
Local Open Scope Q_scope.

Lemma Qgeb_false (a b : Q) : Qgeb a b = false -> a < b.
Proof.
  unfold Qgeb. intros H.
  destruct (Qlt_le_dec a b) as [Hlt|Hle]; [assumption|].
  apply Qle_bool_iff in Hle. congruence.
Qed.

Lemma Math_min_cases (a b : Q) :
  (a <= b /\ Math_min a b = a) \/ (b < a /\ Math_min a b = b).
Proof.
  unfold Math_min. destruct (Qle_bool a b) eqn:E.
  - left. split; [now apply Qle_bool_iff | reflexivity].
  - right. split; [|reflexivity].
    destruct (Qlt_le_dec b a) as [Hlt|Hle]; [assumption|].
    apply Qle_bool_iff in Hle. congruence.
Qed.

(** A hundredth of a score below 30 is at most the number 0.3. *)
Lemma hundredth_below_30 (t : Q) :
  0 <= t -> t <= 30 -> fdiv t 100 <= fl 0.3.
Proof.
  intros H0 H30.
  apply Qle_trans with (fdiv 30 100); [| vm_compute; discriminate].
  apply fdiv_le; [assumption | assumption | reflexivity].
Qed.

(** The middle branch of [getConfidenceScore] grows with the score. *)
Lemma middle_branch_le (t t' : Q) :
  0 <= t -> t <= t' ->
  fadd (fl 0.6) (fmul (fdiv t 100) (fl 0.35))
  <= fadd (fl 0.6) (fmul (fdiv t' 100) (fl 0.35)).
Proof.
  intros H0 Hle.
  assert (Hd : 0 <= fdiv t 100)
    by (apply fdiv_nonneg; [assumption | reflexivity]).
  apply fadd_le.
  - vm_compute; discriminate.
  - apply fmul_nonneg; [assumption | vm_compute; discriminate].
  - apply Qle_refl.
  - apply fmul_le;
      [assumption | vm_compute; discriminate | | apply Qle_refl].
    apply fdiv_le; [assumption | assumption | reflexivity].
Qed.

(** The confidence as a function of the top score alone, when the top
    score is below 50. *)
Lemma getConfidenceScore_below_50 (top : AgentScore)
    (rest : list AgentScore) :
  0 <= as_score top -> as_score top < 50 ->
  (as_score top < 30 /\
   getConfidenceScore (top :: rest) = fdiv (as_score top) 100) \/
  (30 <= as_score top /\
   getConfidenceScore (top :: rest)
     = fadd (fl 0.6) (fmul (fdiv (as_score top) 100) (fl 0.35))).
Proof.
  intros H0 H50. unfold getConfidenceScore.
  set (t := as_score top) in *.
  destruct (Qgeb t 50) eqn:E50.
  - apply Qgeb_spec in E50. lra.
  - cbn [andb]. destruct (Qgeb t 30) eqn:E30.
    + right. apply Qgeb_spec in E30. split; [assumption | reflexivity].
    + left. apply Qgeb_false in E30. split; [assumption|].
      destruct (Math_min_cases (fl 0.5) (fdiv t 100)) as [[Hle _]|[_ ->]];
        [|reflexivity].
      exfalso.
      pose proof (hundredth_below_30 t H0 ltac:(lra)) as H3.
      assert (Hc : fl 0.3 < fl 0.5) by (vm_compute; reflexivity).
      revert Hle H3 Hc. generalize (fdiv t 100) (fl 0.3) (fl 0.5).
      intros a b c. lra.
Qed.

(** X3: the top score of a text never reaches 50, so the branch of
    [getConfidenceScore] for a clear winner is never taken: the
    confidence is the top score over 100, at most the number 0.3, when
    the top score is below 30, and 0.6 + top/100 * 0.35, between the
    numbers 0.705 and 0.7505, otherwise. *)
Theorem confidence_of_message (text : string) :
  exists top rest,
    scoreMessage text = top :: rest /\
    as_score top < 50 /\
    ((as_score top < 30 /\
      getConfidenceScore (scoreMessage text) = fdiv (as_score top) 100 /\
      getConfidenceScore (scoreMessage text) <= fl 0.3) \/
     (30 <= as_score top /\
      getConfidenceScore (scoreMessage text)
        = fadd (fl 0.6) (fmul (fdiv (as_score top) 100) (fl 0.35)) /\
      fl 0.705 <= getConfidenceScore (scoreMessage text) <= fl 0.7505)).
Proof.
  destruct (scoreMessage_nonempty text) as [top [rest Heq]].
  exists top, rest. split; [assumption|].
  assert (Hin : In top (scoreMessage text))
    by (rewrite Heq; left; reflexivity).
  destruct (scoreMessage_bounds text top Hin) as [H0 _].
  destruct (scoreMessage_entry_formula text top Hin) as [_ [_ [_ H43]]].
  split; [lra|]. rewrite Heq.
  destruct (getConfidenceScore_below_50 top rest H0 ltac:(lra))
    as [[Hlt Hc]|[Hge Hc]].
  - left. split; [assumption|]. split; [assumption|]. rewrite Hc.
    apply hundredth_below_30; [assumption | lra].
  - right. split; [assumption|]. split; [assumption|]. rewrite Hc.
    split.
    + apply Qle_trans
        with (fadd (fl 0.6) (fmul (fdiv 30 100) (fl 0.35)));
        [vm_compute; discriminate|].
      apply middle_branch_le; [discriminate | assumption].
    + apply Qle_trans
        with (fadd (fl 0.6) (fmul (fdiv 43 100) (fl 0.35)));
        [| vm_compute; discriminate].
      apply middle_branch_le; assumption.
Qed.

End ConfidenceFacts.

(* ================================================================= *)
(** ** Further properties of a routing decision *)

Section SelectionFacts.
Import Js KeywordMatcher ComplexityClassifier RouterEngine Registry Notions.
Import Scenarios.
Local Open Scope Q_scope.

Lemma scored_ids_truthy (id : string) : In id scored_ids -> truthy id = true.
Proof.
  unfold scored_ids. cbv [map fst KEYWORD_SETS]. simpl.
  intros [<-|[<-|[<-|[<-|[]]]]]; reflexivity.
Qed.

Lemma level_string_complex (l : Level) :
  level_string l = "complex"%string <-> l = complex.
Proof. destruct l; simpl; split; intros H; congruence. Qed.

Lemma NoDup_map_inj {A B : Type} (f : A -> B) (l : list A) (a b : A) :
  NoDup (map f l) -> In a l -> In b l -> f a = f b -> a = b.
Proof.
  induction l as [|x t IH]; simpl; intros Hnd Ha Hb Hf; [contradiction|].
  inversion Hnd as [|? ? Hx Ht]; subst.
  destruct Ha as [<-|Ha], Hb as [<-|Hb]; try reflexivity.
  - exfalso. apply Hx. rewrite Hf. now apply in_map.
  - exfalso. apply Hx. rewrite <- Hf. now apply in_map.
  - now apply IH.
Qed.

Lemma scoreMessage_agents_distinct (text : string) :
  NoDup (map as_agent (scoreMessage text)).
Proof.
  rewrite scoreMessage_sorts_unsorted.
  apply (Permutation_NoDup
           (l := map as_agent (unsortedScores text))).
  - apply Permutation_map, Permutation_sym, toSorted_desc_perm.
  - rewrite unsortedScores_agents. apply keyword_sets_distinct.
Qed.

(** The ranking has exactly one entry for the planning agent, and [find]
    returns it. *)
Lemma planning_entry (text : string) :
  exists p,
    find (fun a => String.eqb (as_agent a) "planning") (scoreMessage text)
      = Some p /\
    In p (scoreMessage text) /\ as_agent p = "planning"%string /\
    forall p', In p' (scoreMessage text) ->
               as_agent p' = "planning"%string -> p' = p.
Proof.
  destruct (find (fun a => String.eqb (as_agent a) "planning")
                 (scoreMessage text)) as [p|] eqn:Ef.
  - destruct (find_some _ _ Ef) as [Hin Hname].
    apply String.eqb_eq in Hname.
    exists p. split; [reflexivity|]. split; [exact Hin|].
    split; [exact Hname|].
    intros p' Hin' Hname'.
    apply (NoDup_map_inj as_agent (scoreMessage text));
      [apply scoreMessage_agents_distinct | assumption | assumption |].
    rewrite Hname', Hname. reflexivity.
  - exfalso.
    assert (Hp : In "planning"%string (map as_agent (scoreMessage text))).
    { apply (Permutation_in
               (l := map as_agent (unsortedScores text))).
      - rewrite scoreMessage_sorts_unsorted.
        apply Permutation_map, Permutation_sym, toSorted_desc_perm.
      - rewrite unsortedScores_agents. apply planning_is_scored. }
    apply in_map_iff in Hp. destruct Hp as [p [Hname Hin]].
    apply (find_none _ _ Ef) in Hin. rewrite Hname in Hin. discriminate.
Qed.

Lemma route_agent_cases
    (e : Engine) (message : string) (userId context : option string)
    (clock : Clock) :
  exists d top rest planning,
    route e message userId context clock = Resolved d /\
    scoreMessage message = top :: rest /\
    In planning (scoreMessage message) /\
    as_agent planning = "planning"%string /\
    (rd_complexity d = "complex"%string ->
     20 <= as_score planning -> rd_agent d = "planning"%string) /\
    (rd_complexity d <> "complex"%string \/ as_score planning < 20 ->
     rd_agent d = as_agent top).
Proof.
  destruct (route_resolves e message userId context clock)
    as [d [Hr [Ha [_ [_ [_ Hc]]]]]].
  destruct (scoreMessage_nonempty message) as [top [rest Heq]].
  destruct (planning_entry message) as [p [Hfind [Hin [Hname _]]]].
  exists d, top, rest, p.
  split; [exact Hr|]. split; [exact Heq|]. split; [exact Hin|].
  split; [exact Hname|].
  assert (Htop : truthy (as_agent top) = true).
  { apply scored_ids_truthy, (scoreMessage_agents message).
    rewrite Heq. left. reflexivity. }
  rewrite Ha, Hc. unfold selectAgent. rewrite Hfind.
  rewrite Heq. unfold defaultAgent, or_else. rewrite Htop.
  rewrite level_string_complex.
  destruct (ca_level (assessComplexity message None)); cbn [Level_eqb andb].
  - split; [discriminate | reflexivity].
  - split; [discriminate | reflexivity].
  - destruct (String.eqb_spec (as_agent top) "planning") as [Hp|Hp];
      cbn [negb].
    + split; [intros _ _; exact Hp | reflexivity].
    + destruct (Qgeb (as_score p) 20) eqn:Eq.
      * apply Qgeb_spec in Eq. split; [reflexivity|].
        intros [Hne|Hlt]; [exfalso; apply Hne; reflexivity | lra].
      * apply Qgeb_false in Eq. split; [intros _ H20; lra | reflexivity].
Qed.

(** X4: [route] returns the top-ranked agent, except that it returns
    planning when the level is complex, the top-ranked agent is another
    one and the planning agent scores at least 20; a text that is not
    complex is always routed to its top-ranked agent. *)
Theorem route_agent_selection
    (e : Engine) (message : string) (userId context : option string)
    (clock : Clock) :
  exists d top rest planning,
    route e message userId context clock = Resolved d /\
    scoreMessage message = top :: rest /\
    In planning (scoreMessage message) /\
    as_agent planning = "planning"%string /\
    (rd_complexity d = "complex"%string ->
     20 <= as_score planning -> rd_agent d = "planning"%string) /\
    (rd_complexity d <> "complex"%string \/ as_score planning < 20 ->
     rd_agent d = as_agent top).
Proof. exact (route_agent_cases e message userId context clock). Qed.

(** X5: the matched keywords of a decision are the first five keywords of
    the top-ranked agent, in table order, that are a token or a compound
    phrase of the lowercased message; when the level is not complex they
    are keywords of the agent the decision names. *)
Theorem matched_keywords_of_decision
    (e : Engine) (message : string) (userId context : option string)
    (clock : Clock) :
  exists d top rest,
    route e message userId context clock = Resolved d /\
    scoreMessage message = top :: rest /\
    rd_matchedKeywords d
      = firstn 5 (filter (Set_has (candidates message))
                         (keywords_of (as_agent top))) /\
    (List.length (rd_matchedKeywords d) <= 5)%nat /\
    (forall k, In k (rd_matchedKeywords d) ->
               In k (keywords_of (as_agent top)) /\
               In k (candidates message)) /\
    (rd_complexity d <> "complex"%string ->
     forall k, In k (rd_matchedKeywords d) ->
               In k (keywords_of (rd_agent d))).
Proof.
  destruct (route_agent_cases e message userId context clock)
    as [d [top [rest [p [Hr [Heq [_ [_ [_ Hnot]]]]]]]]].
  destruct (route_resolves e message userId context clock)
    as [d' [Hr' [_ [Hk _]]]].
  rewrite Hr in Hr'. inversion Hr'; subst d'. clear Hr'.
  exists d, top, rest. split; [assumption|]. split; [assumption|].
  assert (Hin : In top (scoreMessage message))
    by (rewrite Heq; left; reflexivity).
  destruct (scoreMessage_entry_formula message top Hin) as [Hm _].
  assert (Hkeys : rd_matchedKeywords d
                  = firstn 5 (filter (Set_has (candidates message))
                                     (keywords_of (as_agent top)))).
  { rewrite Hk, Heq. unfold topKeywords, slice0.
    rewrite <- Hm. symmetry. apply firstn_map. }
  assert (Hmem : forall k, In k (rd_matchedKeywords d) ->
                           In k (keywords_of (as_agent top)) /\
                           In k (candidates message)).
  { intros k Hk'. rewrite Hkeys in Hk'.
    apply (slice0_In 5) in Hk'. apply filter_In in Hk'.
    destruct Hk' as [Hk1 Hk2]. split; [exact Hk1|].
    unfold Set_has in Hk2. apply existsb_exists in Hk2.
    destruct Hk2 as [x [Hx Hxe]]. apply String.eqb_eq in Hxe.
    subst x. exact Hx. }
  split; [assumption|]. split.
  - rewrite Hkeys. apply firstn_le_length.
  - split; [assumption|].
    intros Hnc k Hk'. rewrite (Hnot (or_introl Hnc)).
    exact (proj1 (Hmem k Hk')).
Qed.

End SelectionFacts.

(* ================================================================= *)
(** ** Fallback decisions and estimated cost *)

Section CostFacts.
Import Js KeywordMatcher ComplexityClassifier RouterEngine Registry Notions.
Import Scenarios.
Local Open Scope Q_scope.

Lemma route_fields (e : Engine) (message : string)
    (userId context : option string) (clock : Clock) :
  exists d, route e message userId context clock = Resolved d /\
    rd_reason d =
      buildReason (rd_agent d) (rd_matchedKeywords d)
                  (getConfidenceScore (scoreMessage message))
                  (rd_complexity d) /\
    rd_skillFilesUsed d =
      findRelevantSkills e (rd_agent d) (rd_matchedKeywords d) /\
    rd_estimatedCost d =
      round2 (RouterEngine.estimateCost e (rd_agent d)
                (assessComplexity message None)) /\
    In (rd_agent d) scored_ids.
Proof.
  unfold route. eexists. split; [reflexivity|].
  cbn [rd_reason rd_agent rd_matchedKeywords rd_complexity rd_skillFilesUsed
       rd_estimatedCost].
  split; [reflexivity|]. split; [reflexivity|]. split; [reflexivity|].
  apply selectAgent_scored. intros s. apply scoreMessage_agents.
Qed.

Lemma findRelevantSkills_no_keywords (e : Engine) (agentId : string) :
  findRelevantSkills e agentId [] = [].
Proof.
  unfold findRelevantSkills, slice0.
  assert (Hnone : filter
            (fun entry : string * SkillFile =>
               String.eqb (sf_agent (snd entry)) agentId
               && overlaps (snd entry) [])
            (skillFiles e) = []).
  { induction (skillFiles e) as [|entry rest IH]; [reflexivity|].
    simpl filter.
    assert (Hov : overlaps (snd entry) [] = false).
    { unfold overlaps. induction (sf_keywords (snd entry)) as [|k ks IHk];
        [reflexivity | exact IHk]. }
    rewrite Hov, andb_false_r. exact IH. }
  rewrite Hnone. reflexivity.
Qed.

(** X6: a decision without matched keywords carries the fallback reason
    and no skill files; a decision with matched keywords never carries
    the fallback reason. *)
Theorem fallback_decision
    (e : Engine) (message : string) (userId context : option string)
    (clock : Clock) :
  exists d,
    route e message userId context clock = Resolved d /\
    (rd_matchedKeywords d = [] ->
     rd_skillFilesUsed d = [] /\
     rd_reason d = ("Routed to " ++ rd_agent d ++
                    " (fallback, low keyword match)")%string) /\
    (rd_matchedKeywords d <> [] ->
     rd_reason d <> ("Routed to " ++ rd_agent d ++
                     " (fallback, low keyword match)")%string).
Proof.
  destruct (route_fields e message userId context clock)
    as [d [Hr [Hreason [Hskills _]]]].
  exists d. split; [exact Hr|]. split.
  - intros Hnil. rewrite Hskills, Hreason, Hnil. split.
    + apply findRelevantSkills_no_keywords.
    + reflexivity.
  - intros Hne. rewrite Hreason. unfold buildReason.
    destruct (rd_matchedKeywords d) as [|k ks];
      [exfalso; apply Hne; reflexivity|].
    cbn [String.append]. intros Heq. discriminate Heq.
Qed.

Lemma fallback_decision_witness :
  exists d,
    route (new_default None) "hello" None None clock0 = Resolved d /\
    rd_skillFilesUsed d = [] /\
    rd_reason d = "Routed to codegen (fallback, low keyword match)"%string.
Proof.
  destruct (fallback_decision (new_default None) "hello" None None clock0)
    as [d [Hr [Hnil _]]].
  exists d. split; [exact Hr|].
  assert (Hd : rd_matchedKeywords d = [] /\ rd_agent d = "codegen"%string).
  { vm_compute in Hr. inversion Hr; subst d. split; reflexivity. }
  destruct Hd as [Hk Ha]. destruct (Hnil Hk) as [Hs Hreason].
  split; [exact Hs|]. rewrite Hreason, Ha. reflexivity.
Defined.

(** *** Rounding small amounts *)

Lemma Math_round_small (y : Q) : 0 <= y -> y < 1 # 2 -> Math_round y = 0%Z.
Proof.
  intros H0 H1. unfold Math_round.
  pose proof (Qfloor_le (y + (1 # 2))) as Hfl.
  pose proof (Qlt_floor (y + (1 # 2))) as Hlf.
  assert (Hup : inject_Z (Qfloor (y + (1 # 2))) < inject_Z 1).
  { eapply Qle_lt_trans; [exact Hfl|]. change (inject_Z 1) with 1. lra. }
  rewrite <- Zlt_Qlt in Hup.
  assert (Hdown : inject_Z 0 < inject_Z (Qfloor (y + (1 # 2)) + 1)).
  { eapply Qle_lt_trans; [| exact Hlf]. change (inject_Z 0) with 0. lra. }
  rewrite <- Zlt_Qlt in Hdown. lia.
Qed.

(** An amount of at most 0.004999 rounds to 0 hundredths. *)
Lemma round2_small (x : Q) : 0 <= x -> x <= 0.004999 -> round2 x == 0.
Proof.
  intros H0 Hle. unfold round2.
  assert (Hy0 : 0 <= fmul x 100)
    by (apply fmul_nonneg; [assumption | discriminate]).
  assert (Hy1 : fmul x 100 < 1 # 2).
  { apply Qle_lt_trans with (fmul 0.004999 100); [| vm_compute; reflexivity].
    apply fmul_le; [assumption | discriminate | assumption | apply Qle_refl]. }
  rewrite (Math_round_small _ Hy0 Hy1). vm_compute. reflexivity.
Qed.

Lemma round2_half : round2 (fl 0.5) == 0.5.
Proof. vm_compute. reflexivity. Qed.

Lemma ceil_div4_bounds (n : nat) :
  (0 <= ceil_div4 n)%Z /\
  ((n <= 1996)%nat -> (ceil_div4 n <= 499)%Z).
Proof.
  unfold ceil_div4. split.
  - apply Z.div_pos; lia.
  - intros Hn.
    assert (((Z.of_nat n + 3) / 4 < 500)%Z)
      by (apply Z.div_lt_upper_bound; lia).
    lia.
Qed.

Lemma static_price (d1 : option D1Database) (id : string) :
  In id scored_ids ->
  exists agent c,
    jm_get (agents (new_default d1)) id = Some agent /\
    ag_costPerToken agent = Some c /\ 0 < c /\ c <= fl 0.004.
Proof.
  unfold scored_ids. cbv [map fst KEYWORD_SETS]. simpl In.
  intros [<-|[<-|[<-|[<-|[]]]]].
  - exists (nth 0 STATIC_AGENTS (mkAgent "" "" "" [] [] None None false)),
           (fl 0.003).
    split; [vm_compute; reflexivity|]. split; [reflexivity|].
    split; vm_compute; [reflexivity | discriminate].
  - exists (nth 1 STATIC_AGENTS (mkAgent "" "" "" [] [] None None false)),
           (fl 0.002).
    split; [vm_compute; reflexivity|]. split; [reflexivity|].
    split; vm_compute; [reflexivity | discriminate].
  - exists (nth 2 STATIC_AGENTS (mkAgent "" "" "" [] [] None None false)),
           (fl 0.004).
    split; [vm_compute; reflexivity|]. split; [reflexivity|].
    split; vm_compute; [reflexivity | discriminate].
  - exists (nth 3 STATIC_AGENTS (mkAgent "" "" "" [] [] None None false)),
           (fl 0.003).
    split; [vm_compute; reflexivity|]. split; [reflexivity|].
    split; vm_compute; [reflexivity | discriminate].
Qed.

Lemma estimateCost_priced (e : Engine) (id : string) (agent : Agent) (c : Q)
    (cx : ComplexityAssessment) :
  jm_get (agents e) id = Some agent ->
  ag_costPerToken agent = Some c -> 0 < c ->
  RouterEngine.estimateCost e id cx
  = fmul (fmul (fdiv (inject_Z (ca_estimatedTokens cx)) 1000) c)
         (multiplierOf (ca_level cx)).
Proof.
  intros Hget Hc Hpos. unfold RouterEngine.estimateCost.
  rewrite Hget, Hc.
  destruct (Qeq_bool c 0) eqn:E.
  - apply Qeq_bool_iff in E. rewrite E in Hpos. discriminate Hpos.
  - unfold multiplierOf. destruct (ca_level cx); reflexivity.
Qed.

Lemma multiplier_range (l : Level) : 1 <= multiplierOf l <= fl 2.5.
Proof. destruct l; vm_compute; split; discriminate. Qed.

Lemma small_cost (tokens c m : Q) :
  0 <= tokens -> tokens <= 499 -> 0 < c -> c <= fl 0.004 ->
  1 <= m -> m <= fl 2.5 ->
  0 <= fmul (fmul (fdiv tokens 1000) c) m /\
  fmul (fmul (fdiv tokens 1000) c) m <= 0.004999.
Proof.
  intros Ht0 Ht1 Hc0 Hc1 Hm0 Hm1.
  assert (Hd : 0 <= fdiv tokens 1000)
    by (apply fdiv_nonneg; [assumption | reflexivity]).
  assert (Hb : 0 <= fmul (fdiv tokens 1000) c)
    by (apply fmul_nonneg; [assumption | lra]).
  split.
  - apply fmul_nonneg; [assumption | lra].
  - apply Qle_trans with (fmul (fmul (fdiv 499 1000) (fl 0.004)) (fl 2.5));
      [| vm_compute; discriminate].
    apply fmul_le; [assumption | lra | | assumption].
    apply fmul_le; [assumption | lra | | assumption].
    apply fdiv_le; [assumption | assumption | reflexivity].
Qed.

(** X7: on the built-in registry, the estimated cost of a decision for a
    message of at most 1996 characters rounds to 0. *)
Theorem short_message_costs_nothing
    (d1 : option D1Database) (message : string)
    (userId context : option string) (clock : Clock) :
  (String.length message <= 1996)%nat ->
  exists d,
    route (new_default d1) message userId context clock = Resolved d /\
    rd_estimatedCost d == 0.
Proof.
  intros Hlen.
  destruct (route_fields (new_default d1) message userId context clock)
    as [d [Hr [_ [_ [Hcost Hin]]]]].
  exists d. split; [exact Hr|]. rewrite Hcost.
  destruct (static_price d1 (rd_agent d) Hin)
    as [agent [c [Hget [Hc [Hc0 Hc1]]]]].
  pose proof (estimateCost_priced _ _ _ _ (assessComplexity message None)
                Hget Hc Hc0) as Heq.
  destruct (ceil_div4_bounds (String.length message)) as [Ht0 Ht1].
  specialize (Ht1 Hlen).
  destruct (multiplier_range (ca_level (assessComplexity message None)))
    as [Hm0 Hm1].
  assert (Htok : 0 <= inject_Z
                        (ca_estimatedTokens (assessComplexity message None))
                    <= 499).
  { change 0 with (inject_Z 0). change 499 with (inject_Z 499).
    rewrite <- !Zle_Qle. split; [exact Ht0 | exact Ht1]. }
  destruct Htok as [Htok0 Htok1].
  destruct (small_cost _ c _ Htok0 Htok1 Hc0 Hc1 Hm0 Hm1) as [Hlo Hhi].
  rewrite Heq. apply round2_small; assumption.
Qed.

Lemma short_message_costs_nothing_witness :
  exists d,
    route (new_default None) login_text None None clock0 = Resolved d /\
    rd_estimatedCost d == 0.
Proof.
  apply (short_message_costs_nothing None login_text None None clock0).
  cbv [login_text String.length]. lia.
Defined.

(** X8: when the agent a decision names has no entry in the registry, or
    an entry without a price per token (or with the price 0), the
    estimated cost of the decision is 0.5, whatever the message. *)
Theorem unpriced_agent_costs_half
    (e : Engine) (message : string) (userId context : option string)
    (clock : Clock) :
  (forall id agent, In id scored_ids -> getAgent e id = Some agent ->
                    ag_costPerToken agent = None \/
                    ag_costPerToken agent = Some 0) ->
  exists d,
    route e message userId context clock = Resolved d /\
    rd_estimatedCost d == 0.5.
Proof.
  intros Hunpriced.
  destruct (route_fields e message userId context clock)
    as [d [Hr [_ [_ [Hcost Hin]]]]].
  exists d. split; [exact Hr|]. rewrite Hcost.
  unfold RouterEngine.estimateCost.
  specialize (Hunpriced (rd_agent d)). unfold getAgent in Hunpriced.
  destruct (jm_get (agents e) (rd_agent d)) as [agent|].
  - destruct (Hunpriced agent Hin eq_refl) as [-> | ->];
      apply round2_half.
  - apply round2_half.
Qed.

Lemma unpriced_agent_costs_half_witness :
  exists d,
    route registry_empty login_text None None clock0 = Resolved d /\
    rd_estimatedCost d == 0.5.
Proof.
  apply (unpriced_agent_costs_half registry_empty login_text None None clock0).
  intros id agent _ Hget. vm_compute in Hget. discriminate Hget.
Defined.

End CostFacts.

(* ================================================================= *)
(** ** Registry lookup and loading from D1 *)

Section RegistryLookup.
Import Js KeywordMatcher ComplexityClassifier RouterEngine Registry Notions.
Import Scenarios Samples.

(** Looking up a key after storing a list of values under their keys:
    the last value stored under the key, else what was there before. *)
Lemma jm_get_fold_set {V : Type} (key : V -> string) (l : list V) :
  forall (m0 : JsMap V) (k : string),
    jm_get (fold_left (fun m x => jm_set m (key x) x) l m0) k =
    match find (fun x => String.eqb (key x) k) (rev l) with
    | Some x => Some x
    | None => jm_get m0 k
    end.
Proof.
  induction l as [|x l IH] using rev_ind; intros m0 k; [reflexivity|].
  rewrite fold_left_app, rev_app_distr. simpl.
  destruct (String.eqb_spec (key x) k) as [<-|Hne].
  - apply jm_get_set_same.
  - rewrite jm_get_set_other by congruence. apply IH.
Qed.

(** X9: in an engine built by the constructor, [getAgent] returns the
    last agent of the list given that has the id asked for, and nothing
    when no agent of the list has it. *)
Theorem getAgent_after_constructor
    (d : option D1Database) (ags : list Agent) (sks : list SkillFile)
    (id : string) :
  getAgent (RouterEngine.new d ags sks) id
    = find (fun a => String.eqb (ag_id a) id) (rev ags) /\
  (getAgent (RouterEngine.new d ags sks) id = None <->
   forall a, In a ags -> ag_id a <> id).
Proof.
  assert (Hget : getAgent (RouterEngine.new d ags sks) id
                 = find (fun a => String.eqb (ag_id a) id) (rev ags)).
  { unfold getAgent, RouterEngine.new. cbn [agents].
    rewrite (jm_get_fold_set ag_id ags [] id).
    destruct (find _ (rev ags)); reflexivity. }
  split; [exact Hget|]. rewrite Hget. split.
  - intros Hnone a Hin Hid.
    apply in_rev in Hin. apply (find_none _ _ Hnone) in Hin.
    rewrite Hid, String.eqb_refl in Hin. discriminate Hin.
  - intros Hall.
    destruct (find (fun a => String.eqb (ag_id a) id) (rev ags)) as [x|] eqn:E;
      [|reflexivity].
    destruct (find_some _ _ E) as [Hin Hx]. apply in_rev in Hin.
    apply String.eqb_eq in Hx. exfalso. exact (Hall x Hin Hx).
Qed.

(** *** Loading from D1 *)

Lemma storeAgentRows_get (rows : list AgentRow) (id : string) :
  forall m,
    (jm_get m id <> None -> jm_get (storeAgentRows m rows) id <> None) /\
    ((forall r, In r rows -> ar_id r <> id) ->
     jm_get (storeAgentRows m rows) id = jm_get m id) /\
    (forall a, jm_get (storeAgentRows m rows) id = Some a ->
               jm_get m id = Some a \/
               (ag_enabled a = true /\ ag_id a = id /\
                exists r, In r rows /\ ar_id r = id)).
Proof.
  induction rows as [|r rest IH]; intros m.
  - simpl. split; [tauto|]. split; [reflexivity|]. intros a Ha. now left.
  - simpl storeAgentRows.
    destruct (ar_keywords r) as [ks|].
    2:{ split; [tauto|]. split; [reflexivity|]. intros a Ha. now left. }
    destruct (ar_domains r) as [ds|].
    2:{ split; [tauto|]. split; [reflexivity|]. intros a Ha. now left. }
    set (a0 := mkAgent (ar_id r) (ar_name r) (ar_description r) ks ds
                       (ar_cost_per_token r) (ar_max_tokens r) true).
    destruct (IH (jm_set m (ar_id r) a0)) as [Hkeep [Hsame Hfrom]].
    split; [|split].
    + intros Hm. apply Hkeep.
      destruct (string_dec id (ar_id r)) as [->|Hne].
      * rewrite jm_get_set_same. discriminate.
      * now rewrite jm_get_set_other.
    + intros Hall. rewrite Hsame.
      * apply jm_get_set_other. intros ->. apply (Hall r); [now left|].
        reflexivity.
      * intros r' Hin. apply Hall. now right.
    + intros a Ha. destruct (Hfrom a Ha) as [Hset|[Hen [Hid [r' [Hin Hr']]]]].
      * destruct (string_dec id (ar_id r)) as [->|Hne].
        -- rewrite jm_get_set_same in Hset. inversion Hset; subst a.
           right. split; [reflexivity|]. split; [reflexivity|].
           exists r. split; [now left | reflexivity].
        -- rewrite jm_get_set_other in Hset by assumption. now left.
      * right. split; [assumption|]. split; [assumption|].
        exists r'. split; [now right | assumption].
Qed.

(** X10: loading agents from D1 never removes an agent: an id that was
    present stays present, an id no row names keeps its agent, and an
    agent found afterwards is the one from before or an enabled agent
    built from a row with that id; the skill files are not touched, and
    without a database the engine is unchanged. *)
Theorem loadAgents_keeps_registry (e : Engine) (id : string) :
  (db e = None -> loadAgentsFromDB e = e) /\
  skillFiles (loadAgentsFromDB e) = skillFiles e /\
  (getAgent e id <> None -> getAgent (loadAgentsFromDB e) id <> None) /\
  ((forall d rows r, db e = Some d -> d1_enabled_agents d = Some rows ->
                     In r rows -> ar_id r <> id) ->
   getAgent (loadAgentsFromDB e) id = getAgent e id) /\
  (forall a, getAgent (loadAgentsFromDB e) id = Some a ->
             getAgent e id = Some a \/ (ag_enabled a = true /\ ag_id a = id)).
Proof.
  unfold loadAgentsFromDB, getAgent.
  destruct (db e) as [d|] eqn:Hdb.
  2:{ split; [reflexivity|]. split; [reflexivity|]. split; [tauto|].
      split; [reflexivity|]. intros a Ha. now left. }
  destruct (d1_enabled_agents d) as [rows|] eqn:Hrows.
  2:{ split; [discriminate|]. split; [reflexivity|]. split; [tauto|].
      split; [reflexivity|]. intros a Ha. now left. }
  cbn [agents skillFiles].
  destruct (storeAgentRows_get rows id (agents e)) as [Hkeep [Hsame Hfrom]].
  split; [discriminate|]. split; [reflexivity|]. split; [exact Hkeep|].
  split.
  - intros Hall. apply Hsame. intros r Hin. exact (Hall d rows r eq_refl Hrows Hin).
  - intros a Ha. destruct (Hfrom a Ha) as [H|[Hen [Hid _]]];
      [now left | right; now split].
Qed.

(** X11: a row whose keywords or domains do not parse ends the load: the
    rows before it are stored, the rows after it are not. *)
Theorem malformed_row_ends_load
    (m : JsMap Agent) (good : list AgentRow) (bad : AgentRow)
    (rest : list AgentRow) :
  (forall r, In r good -> ar_keywords r <> None /\ ar_domains r <> None) ->
  ar_keywords bad = None \/ ar_domains bad = None ->
  storeAgentRows m (good ++ bad :: rest) = storeAgentRows m good.
Proof.
  revert m. induction good as [|r good IH]; intros m Hgood Hbad.
  - simpl. destruct Hbad as [-> | Hd]; [reflexivity|].
    rewrite Hd. destruct (ar_keywords bad); reflexivity.
  - simpl.
    destruct (Hgood r (or_introl eq_refl)) as [Hk Hd].
    destruct (ar_keywords r) as [ks|]; [|congruence].
    destruct (ar_domains r) as [ds|]; [|congruence].
    apply IH; [|assumption]. intros r' Hin. apply Hgood. now right.
Qed.

Lemma malformed_row_ends_load_witness :
  storeAgentRows [] ([row_docs] ++ row_broken :: [row_data])
  = storeAgentRows [] [row_docs].
Proof.
  apply (malformed_row_ends_load [] [row_docs] row_broken [row_data]).
  - intros r [<-|[]]. split; discriminate.
  - left. reflexivity.
Defined.

End RegistryLookup.

(* ================================================================= *)
(** ** Listing the enabled agents *)

Section RegistryListing.
Import Js KeywordMatcher ComplexityClassifier RouterEngine Registry Notions.
Import Scenarios Samples.

Lemma storeAgentRows_well_keyed (rows : list AgentRow) :
  forall m, well_keyed ag_id m -> well_keyed ag_id (storeAgentRows m rows).
Proof.
  induction rows as [|r rest IH]; simpl; intros m Hm; [assumption|].
  destruct (ar_keywords r) as [ks|]; [|assumption].
  destruct (ar_domains r) as [ds|]; [|assumption].
  apply IH.
  exact (well_keyed_set ag_id m
           (mkAgent (ar_id r) (ar_name r) (ar_description r) ks ds
                    (ar_cost_per_token r) (ar_max_tokens r) true) Hm).
Qed.

Lemma reachable_agents (e : Engine) :
  reachable e -> well_keyed ag_id (agents e).
Proof.
  induction 1 as [d ags sks | e _ IH | e _ IH].
  - simpl. apply well_keyed_fold, well_keyed_nil.
  - unfold loadAgentsFromDB.
    destruct (db e) as [d|]; [|assumption].
    destruct (d1_enabled_agents d) as [rows|]; [|assumption].
    simpl. now apply storeAgentRows_well_keyed.
  - unfold loadSkillFilesFromDB.
    destruct (db e) as [d|]; [|assumption].
    destruct (d1_skill_files d); assumption.
Qed.

Lemma well_keyed_values {V : Type} (id : V -> string) (m : JsMap V) :
  well_keyed id m ->
  NoDup (map id (jm_values m)) /\
  forall v, In v (jm_values m) <-> jm_get m (id v) = Some v.
Proof.
  intros [Hnd Hkeyed]. split.
  - assert (Heq : map id (jm_values m) = jm_keys m).
    { unfold jm_values, jm_keys. rewrite map_map.
      apply map_ext_in. intros [k v] Hin. simpl. now apply Hkeyed. }
    now rewrite Heq.
  - intros v. split.
    + intros Hin. unfold jm_values in Hin. apply in_map_iff in Hin.
      destruct Hin as [[k v'] [Hv Hin]]. simpl in Hv. subst v'.
      rewrite (Hkeyed k v Hin). now apply jm_get_of_In.
    + intros Hget. apply jm_get_In in Hget. unfold jm_values.
      change v with (snd (id v, v)). now apply in_map.
Qed.

(** Keeping part of a list keeps the images of its elements distinct. *)
Lemma kept_images_distinct {X K : Type} (entries : list X) (key : X -> K)
    (keep : X -> bool) :
  NoDup (map key entries) -> NoDup (map key (filter keep entries)).
Proof.
  intros Hall.
  induction entries as [|e rest IH]; [constructor|].
  cbn [map] in Hall. apply NoDup_cons_iff in Hall.
  destruct Hall as [Hfresh Hrest]. cbn [filter].
  destruct (keep e); [|exact (IH Hrest)].
  cbn [map]. apply NoDup_cons; [|exact (IH Hrest)].
  intros Hin. apply Hfresh. apply in_map_iff in Hin.
  destruct Hin as [y [Hy Hin]]. rewrite <- Hy.
  apply in_map. apply filter_In in Hin. exact (proj1 Hin).
Qed.

(** X12: on every engine built by the constructor and any reloads,
    [getAgents] lists each enabled agent of the registry exactly once:
    the ids listed are distinct, and an agent is listed exactly when it
    is enabled and [getAgent] returns it for its id. *)
Theorem getAgents_lists_enabled_once (e : Engine) :
  reachable e ->
  NoDup (map ag_id (getAgents e)) /\
  forall a, In a (getAgents e) <->
            getAgent e (ag_id a) = Some a /\ ag_enabled a = true.
Proof.
  intros Hreach.
  destruct (well_keyed_values ag_id (agents e) (reachable_agents e Hreach))
    as [Hnd Hiff].
  unfold getAgents, getAgent. split.
  - now apply kept_images_distinct.
  - intros a. rewrite filter_In, Hiff. reflexivity.
Qed.

Lemma getAgents_witness :
  NoDup (map ag_id (getAgents registry_codegen_off)) /\
  forall a, In a (getAgents registry_codegen_off) <->
            getAgent registry_codegen_off (ag_id a) = Some a /\
            ag_enabled a = true.
Proof.
  apply (getAgents_lists_enabled_once registry_codegen_off).
  unfold registry_codegen_off. apply reach_new.
Defined.

End RegistryListing.

(* ================================================================= *)
(** ** Round trips through the cache *)

Section CacheRoundTrip.
Import Js KeywordMatcher ComplexityClassifier RouterEngine RoutingCache.
Import Worker Registry Notions Scenarios Samples.
Local Open Scope Z_scope.

Lemma set_memory (c : Cache) (h : string) (d : CachedRoutingDecision) :
  cache (RoutingCache.set c h d) = jm_set (cache c) h d /\
  stats (RoutingCache.set c h d) = stats c.
Proof.
  unfold RoutingCache.set. destruct (kvNamespace c) as [kv|].
  - destruct (kv_put kv (kv_key h) d); split; reflexivity.
  - split; reflexivity.
Qed.

Lemma get_from_memory (c : Cache) (clock : GetClock) (h : string)
    (d : CachedRoutingDecision) :
  jm_get (cache c) h = Some d -> fresh_at (now_memory clock) d ->
  RoutingCache.get c clock h
  = (Some d, mkCache (cache c) (count_hit (stats c)) (kvNamespace c)).
Proof.
  intros Hget Hfresh. unfold RoutingCache.get.
  assert (Hmem : fresh_in_memory c clock h = Some d)
    by (apply fresh_in_memory_spec; split; assumption).
  now rewrite Hmem.
Qed.

(** X13: an entry stored with [set] is returned by the next [get] for
    its hash as long as it has not expired, whether or not the KV write
    went through, and that [get] counts one hit; entries under other
    hashes are not disturbed. *)
Theorem set_then_get (c : Cache) (clock : GetClock) (h : string)
    (d : CachedRoutingDecision) :
  fresh_at (now_memory clock) d ->
  fst (RoutingCache.get (RoutingCache.set c h d) clock h) = Some d /\
  hits (stats (snd (RoutingCache.get (RoutingCache.set c h d) clock h)))
    = hits (stats c) + 1 /\
  misses (stats (snd (RoutingCache.get (RoutingCache.set c h d) clock h)))
    = misses (stats c) /\
  forall h', h' <> h ->
    jm_get (cache (RoutingCache.set c h d)) h' = jm_get (cache c) h'.
Proof.
  intros Hfresh.
  destruct (set_memory c h d) as [Hmem Hstats].
  assert (Hget : jm_get (cache (RoutingCache.set c h d)) h = Some d)
    by (rewrite Hmem; apply jm_get_set_same).
  rewrite (get_from_memory _ clock h d Hget Hfresh).
  cbn [fst snd stats]. rewrite Hstats.
  split; [reflexivity|]. split; [reflexivity|]. split; [reflexivity|].
  intros h' Hne. rewrite Hmem. now apply jm_get_set_other.
Qed.

Lemma set_then_get_witness :
  fst (RoutingCache.get (RoutingCache.set (RoutingCache.new None) "h0" old_entry)
                        (mkGetClock 2000 2000) "h0") = Some old_entry.
Proof.
  apply (set_then_get (RoutingCache.new None) (mkGetClock 2000 2000) "h0"
                      old_entry).
  unfold fresh_at. vm_compute. intros H. discriminate H.
Defined.

(** X14: when the entry in memory is missing or expired and KV holds an
    entry that has not expired, [get] returns the KV entry and puts it
    into memory, so that a later [get] is served from memory even when
    KV is no longer bound, as long as the entry has not expired. *)
Theorem kv_hit_restores_memory
    (c : Cache) (clock clock2 : GetClock) (h : string) (kv : KVNamespace)
    (entry : CachedRoutingDecision) :
  (forall old, jm_get (cache c) h = Some old ->
               ~ fresh_at (now_memory clock) old) ->
  kvNamespace c = Some kv ->
  kv_read kv (kv_key h) = KvValue entry ->
  fresh_at (now_kv clock) entry ->
  fresh_at (now_memory clock2) entry ->
  let c' := snd (RoutingCache.get c clock h) in
  fst (RoutingCache.get c clock h) = Some entry /\
  jm_get (cache c') h = Some entry /\
  fst (RoutingCache.get (mkCache (cache c') (stats c') None) clock2 h)
    = Some entry.
Proof.
  intros Hold Hkv Hread Hfresh Hfresh2. cbv zeta.
  assert (Hmem : fresh_in_memory c clock h = None).
  { destruct (fresh_in_memory c clock h) as [old|] eqn:E; [|reflexivity].
    apply fresh_in_memory_spec in E. destruct E as [Hg Ha].
    exfalso. exact (Hold old Hg Ha). }
  assert (Hk : fresh_in_kv c clock h = Some entry).
  { apply fresh_in_kv_spec. exists kv. repeat split; assumption. }
  assert (Hres : RoutingCache.get c clock h
                 = (Some entry,
                    mkCache (jm_set (cache c) h entry) (count_hit (stats c))
                            (kvNamespace c)))
    by (unfold RoutingCache.get; rewrite Hmem, Hk; reflexivity).
  rewrite Hres. cbn [fst snd cache stats].
  split; [reflexivity|].
  split; [apply jm_get_set_same|].
  rewrite (get_from_memory
             (mkCache (jm_set (cache c) h entry) (count_hit (stats c)) None)
             clock2 h entry).
  - reflexivity.
  - apply jm_get_set_same.
  - exact Hfresh2.
Qed.

Lemma kv_hit_restores_memory_witness :
  let c' := snd (RoutingCache.get old_cache (mkGetClock 3601001 2000) "h0") in
  fst (RoutingCache.get old_cache (mkGetClock 3601001 2000) "h0")
    = Some old_entry /\
  jm_get (cache c') "h0" = Some old_entry /\
  fst (RoutingCache.get (mkCache (cache c') (stats c') None)
                        (mkGetClock 3000 3000) "h0") = Some old_entry.
Proof.
  apply (kv_hit_restores_memory
           old_cache (mkGetClock 3601001 2000) (mkGetClock 3000 3000) "h0"
           (mkKV (fun k => if String.eqb k "routing:h0"
                           then KvValue old_entry else KvNull) true)
           old_entry).
  - intros old Hold. vm_compute in Hold. inversion Hold; subst old.
    unfold fresh_at. vm_compute. intros H. apply H. reflexivity.
  - reflexivity.
  - reflexivity.
  - unfold fresh_at. vm_compute. intros H. discriminate H.
  - unfold fresh_at. vm_compute. intros H. discriminate H.
Defined.

End CacheRoundTrip.

(* ================================================================= *)
(** ** Cleanup, counters and clearing of the cache *)

Section CacheMaintenance.
Import Js KeywordMatcher ComplexityClassifier RouterEngine RoutingCache.
Import Worker Registry Notions Scenarios Samples.
Local Open Scope Z_scope.

Lemma jm_keys_filter {V : Type} (p : string * V -> bool) (m : JsMap V)
    (k : string) :
  In k (jm_keys (filter p m)) -> In k (jm_keys m).
Proof.
  unfold jm_keys. intros Hin. apply in_map_iff in Hin.
  destruct Hin as [e [He Hin]]. apply filter_In in Hin.
  rewrite <- He. apply in_map. tauto.
Qed.

Lemma filter_NoDup_keys {V : Type} (p : string * V -> bool) (m : JsMap V) :
  NoDup (jm_keys m) -> NoDup (jm_keys (filter p m)).
Proof. unfold jm_keys. apply kept_images_distinct. Qed.

Lemma jm_delete_filter {V : Type} (m : JsMap V) (k : string) :
  NoDup (jm_keys m) ->
  jm_delete m k = filter (fun e => negb (String.eqb k (fst e))) m.
Proof.
  induction m as [|[k' v'] rest IH]; simpl; intros Hnd; [reflexivity|].
  inversion Hnd as [|? ? Hnotin Hrest]; subst.
  destruct (String.eqb_spec k k') as [->|Hne]; simpl.
  - symmetry. apply forallb_filter_id. apply forallb_forall.
    intros [k0 v0] Hin. simpl.
    destruct (String.eqb_spec k' k0) as [->|]; [|reflexivity].
    exfalso. apply Hnotin. unfold jm_keys.
    change k0 with (fst (k0, v0)). now apply in_map.
  - f_equal. now apply IH.
Qed.

Lemma jm_get_filter {V : Type} (p : V -> bool) (m : JsMap V) (k : string) :
  NoDup (jm_keys m) ->
  jm_get (filter (fun e => p (snd e)) m) k =
  match jm_get m k with
  | Some v => if p v then Some v else None
  | None => None
  end.
Proof.
  induction m as [|[k' v'] rest IH]; simpl; intros Hnd; [reflexivity|].
  inversion Hnd as [|? ? Hnotin Hrest]; subst.
  destruct (String.eqb_spec k k') as [->|Hne].
  - destruct (p v') eqn:Ep; simpl.
    + now rewrite String.eqb_refl.
    + apply jm_get_absent. intros Hin. apply Hnotin.
      now apply jm_keys_filter in Hin.
  - destruct (p v'); simpl.
    + destruct (String.eqb_spec k k'); [contradiction | now apply IH].
    + now apply IH.
Qed.

Lemma filter_twice {A : Type} (p q : A -> bool) (l : list A) :
  filter p (filter q l) = filter (fun x => q x && p x) l.
Proof.
  induction l as [|x t IH]; simpl; [reflexivity|].
  destruct (q x); simpl; [|exact IH].
  destruct (p x); now rewrite IH.
Qed.

(** The loop of [cleanup] as deletions and a count. *)
Lemma cleanup_loop_split (now : Z) (l : JsMap CachedRoutingDecision) :
  forall m n,
    fold_left (cleanupStep now) l (m, n) =
    (fold_left (fun m (e : string * CachedRoutingDecision) =>
                  if isExpired now (snd e) then jm_delete m (fst e) else m)
               l m,
     n + Z.of_nat (List.length (filter (fun e => isExpired now (snd e)) l))).
Proof.
  induction l as [|[k v] rest IH]; intros m n.
  - simpl. f_equal. lia.
  - cbn [fold_left fst snd].
    assert (Hstep : cleanupStep now (m, n) (k, v)
                    = if isExpired now v then (jm_delete m k, n + 1)
                      else (m, n)) by reflexivity.
    rewrite Hstep. clear Hstep.
    assert (Hfilter :
      filter (fun e : string * CachedRoutingDecision => isExpired now (snd e))
             ((k, v) :: rest)
      = if isExpired now v
        then (k, v) :: filter (fun e => isExpired now (snd e)) rest
        else filter (fun e => isExpired now (snd e)) rest) by reflexivity.
    rewrite Hfilter. clear Hfilter.
    destruct (isExpired now v).
    + rewrite (IH (jm_delete m k) (n + 1)). f_equal.
      cbn [List.length]. rewrite Nat2Z.inj_succ. lia.
    + rewrite (IH m n). reflexivity.
Qed.

Lemma delete_loop_filter (now : Z) (l : JsMap CachedRoutingDecision) :
  forall m,
    NoDup (jm_keys m) ->
    fold_left (fun m (e : string * CachedRoutingDecision) =>
                 if isExpired now (snd e) then jm_delete m (fst e) else m)
              l m
    = filter (fun e : string * CachedRoutingDecision =>
                negb (existsb (fun x : string * CachedRoutingDecision =>
                                 isExpired now (snd x)
                                 && String.eqb (fst x) (fst e)) l))
             m.
Proof.
  induction l as [|[k v] rest IH]; intros m Hnd.
  - simpl. symmetry. apply forallb_filter_id. apply forallb_forall.
    reflexivity.
  - simpl fold_left. destruct (isExpired now v) eqn:Ev.
    + rewrite IH.
      * rewrite (jm_delete_filter m k Hnd), filter_twice.
        apply filter_ext. intros [k0 v0]. cbn [existsb fst snd].
        rewrite Ev. cbn [andb]. now rewrite negb_orb.
      * rewrite (jm_delete_filter m k Hnd). now apply filter_NoDup_keys.
    + rewrite (IH m Hnd). apply filter_ext. intros [k0 v0].
      cbn [existsb fst snd]. now rewrite Ev.
Qed.

Lemma expired_key_lookup (now : Z) (m : JsMap CachedRoutingDecision)
    (e : string * CachedRoutingDecision) :
  NoDup (jm_keys m) -> In e m ->
  existsb (fun x : string * CachedRoutingDecision =>
             isExpired now (snd x) && String.eqb (fst x) (fst e)) m
  = isExpired now (snd e).
Proof.
  intros Hnd Hin. destruct (isExpired now (snd e)) eqn:Ee.
  - apply existsb_exists. exists e. split; [assumption|].
    now rewrite Ee, String.eqb_refl.
  - destruct (existsb _ m) eqn:Ex; [|reflexivity].
    apply existsb_exists in Ex. destruct Ex as [x [Hx Hc]].
    apply andb_true_iff in Hc. destruct Hc as [Hexp Hkey].
    apply String.eqb_eq in Hkey.
    assert (x = e) by (apply (NoDup_map_inj fst m); assumption).
    subst x. congruence.
Qed.

(** What [cleanup] does on a map without repeated keys. *)
Lemma cleanup_spec (c : Cache) (now : Z) :
  NoDup (jm_keys (cache c)) ->
  cleanup c now =
  (Z.of_nat (List.length
               (filter (fun e => isExpired now (snd e)) (cache c))),
   mkCache (filter (fun e => negb (isExpired now (snd e))) (cache c))
           (stats c) (kvNamespace c)).
Proof.
  intros Hnd. unfold cleanup.
  rewrite cleanup_loop_split, (delete_loop_filter now _ _ Hnd).
  f_equal. f_equal. apply filter_ext_in. intros e Hin.
  now rewrite (expired_key_lookup now _ e Hnd Hin).
Qed.

(** *** The caches a program can reach *)

Lemma get_cache_cases (c : Cache) (clock : GetClock) (h : string) :
  kvNamespace (snd (RoutingCache.get c clock h)) = kvNamespace c /\
  (stats (snd (RoutingCache.get c clock h)) = count_hit (stats c) \/
   stats (snd (RoutingCache.get c clock h)) = count_miss (stats c)) /\
  (cache (snd (RoutingCache.get c clock h)) = cache c \/
   exists e, cache (snd (RoutingCache.get c clock h))
             = jm_set (cache c) h e).
Proof.
  unfold RoutingCache.get.
  destruct (fresh_in_memory c clock h) as [e|].
  - cbn. split; [reflexivity|]. split; left; reflexivity.
  - destruct (fresh_in_kv c clock h) as [e|]; cbn.
    + split; [reflexivity|]. split; [now left|]. right. now exists e.
    + split; [reflexivity|]. split; [now right | now left].
Qed.

Lemma applyOp_NoDup (c : Cache) (op : CacheOp) :
  NoDup (jm_keys (cache c)) -> NoDup (jm_keys (cache (applyOp c op))).
Proof.
  intros Hnd. destruct op as [clock h | h d | now | | ]; simpl.
  - destruct (get_cache_cases c clock h) as [_ [_ [-> | [e ->]]]];
      [assumption | now apply jm_set_NoDup].
  - destruct (set_memory c h d) as [-> _]. now apply jm_set_NoDup.
  - rewrite (cleanup_spec c now Hnd). cbn [snd cache].
    now apply filter_NoDup_keys.
  - assumption.
  - constructor.
Qed.

Lemma runOps_snoc (kv : option KVNamespace) (ops : list CacheOp)
    (op : CacheOp) :
  runOps kv (ops ++ [op]) = applyOp (runOps kv ops) op.
Proof. unfold runOps. now rewrite fold_left_app. Qed.

Lemma runOps_NoDup (kv : option KVNamespace) (ops : list CacheOp) :
  NoDup (jm_keys (cache (runOps kv ops))).
Proof.
  induction ops as [|op ops IH] using rev_ind.
  - constructor.
  - rewrite runOps_snoc. now apply applyOp_NoDup.
Qed.

(** *** Statistics *)

(** What the counters satisfy at all times. *)
Lemma updateStats_shape (h m : Z) (r : Q) (t : Z) (a : Q) :
  let s := updateStats (mkStats h m r t a) in
  hits s = h /\ misses s = m /\ totalRequests s = h + m /\
  avgLatency s = a /\
  hitRate s = (if h + m >? 0 then fdiv (inject_Z h) (inject_Z (h + m))
               else 0%Q).
Proof.
  cbv zeta. unfold updateStats. cbn [hits misses hitRate totalRequests
                                      avgLatency].
  split; [reflexivity|]. split; [reflexivity|]. split; [reflexivity|].
  split; reflexivity.
Qed.

Lemma rate_bounds (h m : Z) :
  0 <= h -> 0 <= m ->
  (0 <= (if h + m >? 0 then fdiv (inject_Z h) (inject_Z (h + m)) else 0)
   <= 1)%Q.
Proof.
  intros Hh Hm. destruct (h + m >? 0) eqn:E.
  - apply Z.gtb_lt in E.
    assert (Hpos : (0 < inject_Z (h + m))%Q)
      by (change 0%Q with (inject_Z 0); now rewrite <- Zlt_Qlt).
    assert (Hh0 : (0 <= inject_Z h)%Q)
      by (change 0%Q with (inject_Z 0); now rewrite <- Zle_Qle).
    split.
    + apply fdiv_nonneg; assumption.
    + change 1%Q with (fl 1). unfold fdiv. apply fl_le.
      * apply Qle_shift_div_l; [exact Hpos|]. now rewrite Qmult_0_l.
      * apply Qle_shift_div_r; [exact Hpos|]. rewrite Qmult_1_l.
        rewrite <- Zle_Qle. lia.
  - split; discriminate.
Qed.

Lemma count_hit_ok (s : CacheStats) (gets : Z) :
  stats_ok s gets -> stats_ok (count_hit s) (gets + 1).
Proof.
  intros [[Hg [Ht [Hh Hm]]] [Ha Hr]]. unfold count_hit.
  destruct (updateStats_shape (hits s + 1) (misses s) (hitRate s)
              (totalRequests s) (avgLatency s)) as [E1 [E2 [E3 [E4 E5]]]].
  cbv zeta in *. unfold stats_ok. rewrite E1, E2, E3, E4, E5.
  repeat split; try lia. exact Ha.
Qed.

Lemma count_miss_ok (s : CacheStats) (gets : Z) :
  stats_ok s gets -> stats_ok (count_miss s) (gets + 1).
Proof.
  intros [[Hg [Ht [Hh Hm]]] [Ha Hr]]. unfold count_miss.
  destruct (updateStats_shape (hits s) (misses s + 1) (hitRate s)
              (totalRequests s) (avgLatency s)) as [E1 [E2 [E3 [E4 E5]]]].
  cbv zeta in *. unfold stats_ok. rewrite E1, E2, E3, E4, E5.
  repeat split; try lia. exact Ha.
Qed.

Lemma getsSinceReset_snoc (ops : list CacheOp) (op : CacheOp) :
  getsSinceReset (ops ++ [op]) =
  match op with
  | OpGet _ _ => getsSinceReset ops + 1
  | OpResetStats => 0
  | _ => getsSinceReset ops
  end.
Proof. unfold getsSinceReset. now rewrite fold_left_app. Qed.

Lemma runOps_stats (kv : option KVNamespace) (ops : list CacheOp) :
  stats_ok (stats (runOps kv ops)) (getsSinceReset ops).
Proof.
  induction ops as [|op ops IH] using rev_ind.
  - unfold stats_ok. cbn. repeat split; lia.
  - rewrite runOps_snoc, getsSinceReset_snoc.
    pose proof (runOps_NoDup kv ops) as Hnd.
    destruct op as [clock h | h d | now | | ]; simpl applyOp.
    + destruct (get_cache_cases (runOps kv ops) clock h)
        as [_ [[-> | ->] _]];
        [now apply count_hit_ok | now apply count_miss_ok].
    + destruct (set_memory (runOps kv ops) h d) as [_ ->]. exact IH.
    + rewrite (cleanup_spec _ now Hnd). exact IH.
    + unfold stats_ok. cbn. repeat split; lia.
    + exact IH.
Qed.

(** X15: after any sequence of calls on a new cache, the hits and misses
    add up to the number of [get] calls since the last reset,
    [totalRequests] is their sum, [hitRate] is hits over requests (0
    before the first request) and lies between 0 and 1, and [avgLatency]
    is still 0: nothing ever updates it. *)
Theorem cache_stats_after_calls (kv : option KVNamespace)
    (ops : list CacheOp) :
  let s := getStats (runOps kv ops) in
  hits s + misses s = getsSinceReset ops /\
  totalRequests s = hits s + misses s /\
  0 <= hits s /\ 0 <= misses s /\
  hitRate s = (if totalRequests s >? 0
               then fdiv (inject_Z (hits s)) (inject_Z (totalRequests s))
               else 0%Q) /\
  (0 <= hitRate s <= 1)%Q /\
  avgLatency s = 0%Q.
Proof.
  cbv zeta. unfold getStats.
  destruct (runOps_stats kv ops) as [[Hg [Ht [Hh Hm]]] [Ha Hr]].
  split; [exact Hg|]. split; [exact Ht|]. split; [exact Hh|].
  split; [exact Hm|]. split; [rewrite Ht; exact Hr|].
  split; [rewrite Hr; now apply rate_bounds | exact Ha].
Qed.

(** X16: on a cache reached by any sequence of calls, [cleanup] deletes
    from memory exactly the entries that have expired at its time and
    returns how many it deleted; it changes neither the counters nor KV,
    and what a [get] at that time or later returns is the same with and
    without the cleanup. *)
Theorem cleanup_removes_expired (kv : option KVNamespace)
    (ops : list CacheOp) (now : Z) :
  let c := runOps kv ops in
  let c' := snd (cleanup c now) in
  cache c' = filter (fun e => negb (isExpired now (snd e))) (cache c) /\
  fst (cleanup c now)
    = Z.of_nat (List.length
                  (filter (fun e => isExpired now (snd e)) (cache c))) /\
  stats c' = stats c /\ kvNamespace c' = kvNamespace c /\
  forall clock h,
    now <= now_memory clock ->
    fst (RoutingCache.get c' clock h) = fst (RoutingCache.get c clock h).
Proof.
  cbv zeta. pose proof (runOps_NoDup kv ops) as Hnd.
  rewrite (cleanup_spec _ now Hnd). cbn [fst snd cache stats kvNamespace].
  split; [reflexivity|]. split; [reflexivity|]. split; [reflexivity|].
  split; [reflexivity|].
  intros clock h Hlater. rewrite !get_result.
  assert (Hmem :
    fresh_in_memory
      (mkCache (filter (fun e => negb (isExpired now (snd e)))
                       (cache (runOps kv ops)))
               (stats (runOps kv ops)) (kvNamespace (runOps kv ops)))
      clock h
    = fresh_in_memory (runOps kv ops) clock h).
  { unfold fresh_in_memory. cbn [cache].
    rewrite (jm_get_filter (fun v => negb (isExpired now v)) _ h Hnd).
    destruct (jm_get (cache (runOps kv ops)) h) as [v|]; [|reflexivity].
    destruct (isExpired now v) eqn:Ev; cbn [negb]; [|reflexivity].
    assert (Hlate : isExpired (now_memory clock) v = true).
    { apply isExpired_true. apply isExpired_true in Ev. lia. }
    now rewrite Hlate. }
  rewrite Hmem. reflexivity.
Qed.

(** X17: [clearAll] empties the map in memory only: when KV holds an
    entry that has not expired, the next [get] still returns it, and
    without a KV namespace every [get] after [clearAll] is a miss. *)
Theorem clearAll_leaves_kv (c : Cache) (clock : GetClock) (h : string) :
  cache (clearAll c) = [] /\
  (forall kv entry,
     kvNamespace c = Some kv ->
     kv_read kv (kv_key h) = KvValue entry ->
     fresh_at (now_kv clock) entry ->
     fst (RoutingCache.get (clearAll c) clock h) = Some entry) /\
  (kvNamespace c = None ->
   fst (RoutingCache.get (clearAll c) clock h) = None).
Proof.
  split; [reflexivity|]. split.
  - intros kv entry Hkv Hread Hfresh. rewrite get_result.
    unfold fresh_in_memory. cbn [clearAll cache jm_get].
    apply fresh_in_kv_spec. exists kv. cbn [clearAll kvNamespace].
    repeat split; assumption.
  - intros Hnone. rewrite get_result.
    unfold fresh_in_memory, fresh_in_kv. cbn [clearAll cache jm_get kvNamespace].
    now rewrite Hnone.
Qed.

Lemma clearAll_leaves_kv_witness :
  fst (RoutingCache.get (clearAll old_cache) (mkGetClock 2000 2000) "h0")
    = Some old_entry.
Proof.
  apply (proj1 (proj2 (clearAll_leaves_kv old_cache (mkGetClock 2000 2000)
                                          "h0"))
           (mkKV (fun k => if String.eqb k "routing:h0"
                           then KvValue old_entry else KvNull) true)
           old_entry).
  - reflexivity.
  - reflexivity.
  - unfold fresh_at. vm_compute. intros H. discriminate H.
Defined.

End CacheMaintenance.

(* ================================================================= *)
(** ** Repeated requests and the audit trail *)

Section HandlerComposition.
Import Js KeywordMatcher ComplexityClassifier RouterEngine RoutingCache.
Import Worker Registry Notions Scenarios Samples.
Local Open Scope Z_scope.


(** The handler on a message that passed the check, by cases of the
    cache lookup. *)
Lemma routeMessage_cases (generateHash : string -> string) (s : Services)
    (message : string) (userId context : option string) (amb : Ambient) :
  let h := generateHash message in
  let looked := RoutingCache.get (routingCache s) (am_get_clock amb) h in
  let latency := round2 (fsub (am_perf_end amb) (am_perf_start amb)) in
  (exists entry,
     fst looked = Some entry /\
     routeMessage generateHash s message userId context amb =
     (Json200
        (mkRouteResponse (crd_agent entry) (crd_confidence entry)
           (crd_reason entry) [] 0%Q "unknown" latency
           (any_timestamp (FromCache entry) (am_iso_now amb)) true []),
      mkServices (routerEngine s) (snd looked)
        (auditLogger s ++
         [mkAudit (am_uuid amb) (am_date_now_audit amb) h
                  (substring 0 500 message) (crd_agent entry)
                  (crd_confidence entry) "unknown" 0%Q true latency
                  userId context])))
  \/
  (exists d,
     fst looked = None /\
     route (routerEngine s) message userId context (am_route_clock amb)
       = Resolved d /\
     routeMessage generateHash s message userId context amb =
     (Json200
        (mkRouteResponse (rd_agent d) (rd_confidence d) (rd_reason d)
           (rd_skillFilesUsed d) (any_estimatedCost (FromEngine d))
           (any_complexity (FromEngine d)) latency
           (any_timestamp (FromEngine d) (am_iso_now amb)) false
           (rd_matchedKeywords d)),
      mkServices (routerEngine s)
        (RoutingCache.set (snd looked) h
           (mkCached (rd_agent d) (rd_confidence d) (rd_reason d)
                     (am_date_now_cache amb) 3600 h))
        (auditLogger s ++
         [mkAudit (am_uuid amb) (am_date_now_audit amb) h
                  (substring 0 500 message) (rd_agent d) (rd_confidence d)
                  (any_complexity (FromEngine d))
                  (any_estimatedCost (FromEngine d)) false latency
                  userId context]))).
Proof.
  cbv zeta. unfold routeMessage.
  destruct (RoutingCache.get (routingCache s) (am_get_clock amb)
                             (generateHash message)) as [hit cache1].
  destruct hit as [entry|].
  - left. exists entry. split; reflexivity.
  - right.
    destruct (route_resolves (routerEngine s) message userId context
                             (am_route_clock amb)) as [d [Hr _]].
    exists d. rewrite Hr. split; [reflexivity|]. split; reflexivity.
Qed.





End HandlerComposition.

(* ================================================================= *)
(** ** Two calls of route in the life of a worker (C9) *)

Section WorkerLife.
Import Js KeywordMatcher ComplexityClassifier RouterEngine RoutingCache.
Import Worker Registry Notions Scenarios Samples.

(** No request replaces or changes the engine of an initialized worker,
    and the first request of any kind initializes it the same way. *)
Lemma postRoute_engine (generateHash : string -> string) (env : Env)
    (st : option Services) (body : option Body) (amb : Ambient) :
  routerEngine (snd (postRoute generateHash env st body amb))
  = routerEngine (initializeRouter env st).
Proof.
  unfold postRoute.
  destruct body as [b|]; [|reflexivity].
  destruct (body_message b) as [message|]; [|reflexivity].
  destruct (truthy message); [|reflexivity].
  destruct (routeMessage_cases generateHash (initializeRouter env st) message
              (body_userId b) (body_context b) amb)
    as [[entry [_ Heq]]|[d [_ [_ Heq]]]];
    cbv zeta in Heq; rewrite Heq; reflexivity.
Qed.

Lemma serve_engine (generateHash : string -> string) (env : Env)
    (st : option Services) (request : Request) :
  routerEngine (serve generateHash env st request)
  = routerEngine (initializeRouter env st).
Proof.
  destruct request as [body amb| |]; cbn [serve].
  - apply postRoute_engine.
  - reflexivity.
  - reflexivity.
Qed.

Lemma served_engine_from (generateHash : string -> string) (env : Env)
    (requests : list Request) :
  forall st : option Services,
    routerEngine
      (initializeRouter env
         (fold_left (fun st request => Some (serve generateHash env st request))
                    requests st))
    = routerEngine (initializeRouter env st).
Proof.
  induction requests as [|request rest IH]; intros st; [reflexivity|].
  cbn [fold_left]. rewrite IH. cbn [initializeRouter].
  apply serve_engine.
Qed.

(** The engine a request finds, whatever the worker has served before,
    is the one the first request would have built. *)
Lemma served_engine (generateHash : string -> string) (env : Env)
    (requests : list Request) :
  routerEngine (initializeRouter env (served generateHash env requests))
  = routerEngine (initializeRouter env None).
Proof. unfold served. apply served_engine_from. Qed.

(** C9: take two calls of [route] with the same text, each made by a
    worker started on the same environment (so on the same registry
    snapshot) after it has served any requests whatsoever, each with
    its own clock readings, user id and context.  The two decisions
    have the same agent, the same complexity and the same matched
    keywords, and the same confidence, reason, skill files and
    estimated cost as well: what a worker has done before does not
    reach a decision, and the clock reaches only latency and
    timestamp.  Agent, complexity, matched keywords and confidence are
    the same even on two engines that hold different registries.  The
    ranking behind a decision does not depend on how the runtime sorts
    either: every stable sort of the agents' scores in descending order
    is the ranking of [scoreMessage]. *)
Theorem route_is_deterministic
    (generateHash : string -> string) (env : Env)
    (served1 served2 : list Request) (message : string)
    (userId1 context1 userId2 context2 : option string)
    (clock1 clock2 : Clock) :
  (let engine1 :=
     routerEngine (initializeRouter env (served generateHash env served1)) in
   let engine2 :=
     routerEngine (initializeRouter env (served generateHash env served2)) in
   exists d1 d2,
     route engine1 message userId1 context1 clock1 = Resolved d1 /\
     route engine2 message userId2 context2 clock2 = Resolved d2 /\
     rd_agent d1 = rd_agent d2 /\
     rd_complexity d1 = rd_complexity d2 /\
     rd_matchedKeywords d1 = rd_matchedKeywords d2 /\
     rd_confidence d1 = rd_confidence d2 /\
     rd_reason d1 = rd_reason d2 /\
     rd_skillFilesUsed d1 = rd_skillFilesUsed d2 /\
     rd_estimatedCost d1 = rd_estimatedCost d2) /\
  (forall engine1 engine2 : Engine,
   exists d1 d2,
     route engine1 message userId1 context1 clock1 = Resolved d1 /\
     route engine2 message userId2 context2 clock2 = Resolved d2 /\
     rd_agent d1 = rd_agent d2 /\
     rd_complexity d1 = rd_complexity d2 /\
     rd_matchedKeywords d1 = rd_matchedKeywords d2 /\
     rd_confidence d1 = rd_confidence d2) /\
  (forall ranking : list AgentScore,
     Permutation ranking (unsortedScores message) ->
     ranked ranking ->
     (forall q,
        filter (fun s => Qeq_bool (as_score s) q) ranking
        = filter (fun s => Qeq_bool (as_score s) q)
                 (unsortedScores message)) ->
     ranking = scoreMessage message).
Proof.
  split; [|split].
  - cbv zeta. rewrite !served_engine.
    apply route_reads_engine_and_text.
  - intros engine1 engine2.
    destruct (route_resolves engine1 message userId1 context1 clock1)
      as [d1 [Hr1 [Ha1 [Hk1 [_ [Hc1 Hl1]]]]]].
    destruct (route_resolves engine2 message userId2 context2 clock2)
      as [d2 [Hr2 [Ha2 [Hk2 [_ [Hc2 Hl2]]]]]].
    exists d1, d2. split; [exact Hr1|]. split; [exact Hr2|].
    rewrite Ha1, Ha2, Hl1, Hl2, Hk1, Hk2, Hc1, Hc2.
    split; [reflexivity|]. split; [reflexivity|]. split; reflexivity.
  - intros ranking Hperm Hranked Hstable.
    rewrite scoreMessage_sorts_unsorted.
    apply toSorted_desc_unique; assumption.
Qed.

End WorkerLife.

(* ================================================================= *)
(** ** The analyze endpoint *)

Section AnalyzeFacts.
Import Js KeywordMatcher ComplexityClassifier RouterEngine RoutingCache.
Import Worker Registry Notions Scenarios Samples.
Local Open Scope Q_scope.

(** X20: for a non-empty message, POST /api/analyze answers 200 with the
    confidence and the complexity level that [route] puts into its
    decision for the same message, and lists the agents in the order of
    the ranking, each with at most five matches; when the level is not
    complex, the first agent listed is the agent [route] returns. *)
Theorem analyze_agrees_with_route
    (e : Engine) (message : string) (userId context : option string)
    (clock : Clock) (iso bodyError : string) :
  truthy message = true ->
  exists a d,
    postAnalyze (Some (mkBody (Some message) userId context)) iso bodyError
      = Analyze200 a /\
    route e message userId context clock = Resolved d /\
    an_confidence a = rd_confidence d /\
    cv_level (an_complexity a) = rd_complexity d /\
    map av_agent (an_agents a) = map as_agent (scoreMessage message) /\
    Forall (fun v => (List.length (av_matches v) <= 5)%nat) (an_agents a) /\
    (rd_complexity d <> "complex"%string ->
     option_map av_agent (hd_error (an_agents a)) = Some (rd_agent d)).
Proof.
  intros Ht.
  destruct (route_agent_cases e message userId context clock)
    as [d [top [rest [p [Hr [Heq [_ [_ [_ Hnot]]]]]]]]].
  destruct (route_resolves e message userId context clock)
    as [d' [Hr' [_ [_ [_ [Hc Hl]]]]]].
  rewrite Hr in Hr'. inversion Hr'; subst d'. clear Hr'.
  unfold postAnalyze. cbn [body_message]. rewrite Ht.
  eexists. exists d. split; [reflexivity|]. split; [exact Hr|].
  cbn [an_confidence an_complexity cv_level an_agents].
  split; [now rewrite Hc|]. split; [now rewrite Hl|].
  split.
  - rewrite map_map. apply map_ext. intros s. reflexivity.
  - split.
    + apply Forall_forall. intros v Hv. apply in_map_iff in Hv.
      destruct Hv as [s [<- _]]. unfold agentView. cbn [av_matches].
      rewrite length_map. apply slice0_length.
    + intros Hnc. rewrite Heq. cbn [map hd_error option_map agentView av_agent].
      now rewrite (Hnot (or_introl Hnc)).
Qed.

Lemma analyze_agrees_witness :
  exists a d,
    postAnalyze (Some (mkBody (Some login_text) None None)) "now" ""
      = Analyze200 a /\
    route (new_default None) login_text None None clock0 = Resolved d /\
    an_confidence a = rd_confidence d /\
    cv_level (an_complexity a) = rd_complexity d.
Proof.
  destruct (analyze_agrees_with_route (new_default None) login_text None None
              clock0 "now" "" eq_refl)
    as [a [d [Ha [Hd [Hc [Hl _]]]]]].
  exists a, d. repeat split; assumption.
Defined.

(** X21: for a non-empty message of at most 2664 characters, the
    estimated cost that POST /api/analyze reports, at the default price
    of 3 per million tokens and rounded to two decimals, is 0. *)
Theorem analyze_cost_rounds_to_zero
    (message : string) (userId context : option string)
    (iso bodyError : string) :
  truthy message = true ->
  (String.length message <= 2664)%nat ->
  exists a,
    postAnalyze (Some (mkBody (Some message) userId context)) iso bodyError
      = Analyze200 a /\
    an_estimatedCost a == 0.
Proof.
  intros Ht Hlen. unfold postAnalyze. cbn [body_message]. rewrite Ht.
  eexists. split; [reflexivity|]. cbn [an_estimatedCost].
  unfold ComplexityClassifier.estimateCost, DEFAULT_PRICING.
  assert (Htok : (0 <= ca_estimatedTokens (assessComplexity message None)
                  <= 666)%Z).
  { change (ca_estimatedTokens (assessComplexity message None))
      with (ceil_div4 (String.length message)).
    unfold ceil_div4. split.
    - apply Z.div_pos; lia.
    - assert (((Z.of_nat (String.length message) + 3) / 4 < 667)%Z)
        by (apply Z.div_lt_upper_bound; lia).
      lia. }
  destruct Htok as [Ht0 Ht1].
  rewrite Zle_Qle in Ht0. rewrite Zle_Qle in Ht1.
  set (tokens := inject_Z (ca_estimatedTokens _)) in *.
  change (inject_Z 0) with 0 in Ht0. change (inject_Z 666) with 666 in Ht1.
  destruct (multiplier_range (ca_level (assessComplexity message None)))
    as [Hm0 Hm1].
  set (m := multiplierOf _) in *.
  assert (Hd : 0 <= fdiv tokens 1000000)
    by (apply fdiv_nonneg; [assumption | reflexivity]).
  assert (Hb : 0 <= fmul (fdiv tokens 1000000) 3)
    by (apply fmul_nonneg; [assumption | discriminate]).
  apply round2_small.
  - apply fmul_nonneg; [assumption | lra].
  - apply Qle_trans with (fmul (fmul (fdiv 666 1000000) 3) (fl 2.5));
      [| vm_compute; discriminate].
    apply fmul_le; [assumption | lra | | assumption].
    apply fmul_le; [assumption | discriminate | | apply Qle_refl].
    apply fdiv_le; [assumption | assumption | reflexivity].
Qed.

Lemma analyze_cost_witness :
  exists a,
    postAnalyze (Some (mkBody (Some login_text) None None)) "now" ""
      = Analyze200 a /\
    an_estimatedCost a == 0.
Proof.
  apply (analyze_cost_rounds_to_zero login_text None None "now" "").
  - reflexivity.
  - cbv [login_text String.length]. lia.
Defined.

End AnalyzeFacts.

(* ================================================================= *)
(** ** Levels and scores of the complexity classifier *)

Section ClassifierFacts.
Import Js KeywordMatcher ComplexityClassifier RouterEngine RoutingCache.
Import Worker Registry Notions Scenarios Samples.
Local Open Scope Z_scope.

Lemma add_factor_fst (t : Tally) (points : Z) (factor : string) :
  fst (add_factor t points factor) = fst t + points.
Proof. reflexivity. Qed.

Lemma lengthStep_points (text : string) (t : Tally) :
  fst t <= fst (lengthStep text t) <= fst t + 2.
Proof.
  unfold lengthStep.
  destruct (Nat.ltb 1500 (String.length text));
    [rewrite add_factor_fst; lia|].
  destruct (Nat.ltb 500 (String.length text));
    [rewrite add_factor_fst; lia | lia].
Qed.

Lemma sentenceStep_points (text : string) (t : Tally) :
  fst t <= fst (sentenceStep text t) <= fst t + 2.
Proof.
  unfold sentenceStep. cbv zeta.
  destruct (Nat.ltb 10 (List.length (sentencesOf text)));
    [rewrite add_factor_fst; lia|].
  destruct (Nat.ltb 5 (List.length (sentencesOf text)));
    [rewrite add_factor_fst; lia | lia].
Qed.

Lemma indicatorStep_points (label : string) (weight : Z)
    (keywords : list string) (nt : string) (t : Tally) :
  fst (indicatorStep label weight keywords nt t)
  = fst t + found keywords nt * weight.
Proof.
  unfold indicatorStep, found. cbv zeta.
  destruct (Nat.ltb 0 (List.length (filter (fun k => includes nt k) keywords)));
    reflexivity.
Qed.

Lemma found_bounds (keywords : list string) (nt : string) :
  0 <= found keywords nt <= Z.of_nat (List.length keywords).
Proof.
  unfold found. split; [lia|].
  apply Nat2Z.inj_le. apply filter_length_le.
Qed.

Lemma codeStep_points (text : string) (t : Tally) :
  fst t <= fst (codeStep text t) <= fst t + 1.
Proof.
  unfold codeStep. destruct (hasCodeBlocks text);
    [rewrite add_factor_fst; lia | lia].
Qed.

Lemma topicStep_points (nt : string) (t : Tally) :
  fst t <= fst (topicStep nt t) <= fst t + 1.
Proof.
  unfold topicStep. cbv zeta.
  destruct (Nat.ltb 2 (List.length (detectTopics nt)));
    [rewrite add_factor_fst; lia | lia].
Qed.

Lemma constraintStep_points (nt : string) (t : Tally) :
  fst t <= fst (constraintStep nt t) <= fst t + 1.
Proof.
  unfold constraintStep. destruct (hasConstraints nt);
    [rewrite add_factor_fst; lia | lia].
Qed.

(** The score and the level before the adjustment for the agent. *)
Lemma assessComplexity_fields (text : string) (agent : option string) :
  ca_score (assessComplexity text agent)
    = ca_score (assessComplexity text None) /\
  ca_estimatedTokens (assessComplexity text agent)
    = ceil_div4 (String.length text) /\
  ca_suggestedAgent (assessComplexity text agent)
    = suggestAgent (ca_level (assessComplexity text agent)) /\
  ca_level (assessComplexity text None)
    = levelOfScore (ca_score (assessComplexity text None)) /\
  ca_level (assessComplexity text agent)
    = if complex_baseline agent
         && Level_eqb (ca_level (assessComplexity text None)) simple
      then moderate
      else ca_level (assessComplexity text None).
Proof.
  unfold assessComplexity, complex_baseline. cbv zeta.
  set (t7 := constraintStep _ _).
  destruct agent as [a|]; [|repeat split; reflexivity].
  destruct a as [|c a'].
  { cbn [truthy jm_get AGENT_COMPLEXITY_MAPPING].
    repeat split; reflexivity. }
  cbn [truthy].
  destruct (jm_get AGENT_COMPLEXITY_MAPPING (String c a')) as [[| |]|];
    try (repeat split; reflexivity).
  cbn [andb]. cbn [ca_level].
  destruct (Level_eqb (levelOfScore (fst t7)) simple);
    repeat split; reflexivity.
Qed.

Lemma assessComplexity_score (text : string) :
  let nt := toLowerCase text in
  let score := ca_score (assessComplexity text None) in
  2 * found complex_keywords nt + found moderate_keywords nt <= score /\
  score <= 2 * found complex_keywords nt + found moderate_keywords nt + 7.
Proof.
  cbv zeta. unfold assessComplexity. cbv zeta. cbn [ca_score].
  set (nt := toLowerCase text).
  set (t1 := lengthStep text (0, [])).
  set (t2 := sentenceStep text t1).
  set (t3 := indicatorStep "Complex indicators: " 2 complex_keywords nt t2).
  set (t4 := indicatorStep "Moderate indicators: " 1 moderate_keywords nt t3).
  set (t5 := codeStep text t4).
  set (t6 := topicStep nt t5).
  set (t7 := constraintStep nt t6).
  pose proof (lengthStep_points text (0, [])) as H1. fold t1 in H1.
  pose proof (sentenceStep_points text t1) as H2. fold t2 in H2.
  pose proof (indicatorStep_points "Complex indicators: " 2 complex_keywords
                nt t2) as H3. fold t3 in H3.
  pose proof (indicatorStep_points "Moderate indicators: " 1 moderate_keywords
                nt t3) as H4. fold t4 in H4.
  pose proof (codeStep_points text t4) as H5. fold t5 in H5.
  pose proof (topicStep_points nt t5) as H6. fold t6 in H6.
  pose proof (constraintStep_points nt t6) as H7. fold t7 in H7.
  cbn [fst] in H1. lia.
Qed.

Lemma level_cases (score : Z) (b : bool) :
  let l0 := levelOfScore score in
  let l := if b && Level_eqb l0 simple then moderate else l0 in
  (l = complex <-> 6 <= score) /\
  (l = simple <-> score < 3 /\ b = false) /\
  (l = moderate <-> 3 <= score < 6 \/ (score < 3 /\ b = true)) /\
  suggestAgent l
    = (if Level_eqb l complex then "planning" else "codegen")%string.
Proof.
  cbv zeta. unfold levelOfScore.
  destruct (Z.leb_spec 6 score) as [H6|H6];
    [|destruct (Z.leb_spec 3 score) as [H3|H3]];
    destruct b; cbn [Level_eqb andb suggestAgent];
    (split; [split; [intros H; try discriminate H; try lia
                    | intros H; try reflexivity; lia]|]);
    (split; [split; [intros H; try discriminate H; (split; [lia | reflexivity])
                    | intros [H1 H2]; try reflexivity; try discriminate H2;
                      lia]|]);
    (split; [split; [intros H; try discriminate H;
                     try (left; lia); try (right; split; [lia | reflexivity])
                    | intros [H1|[H1 H2]]; try reflexivity;
                      try discriminate H2; lia]
            | reflexivity]).
Qed.

(** X22: the complexity score does not depend on the agent hint, is at
    least 2 for each complex keyword and 1 for each moderate keyword the
    lowercased text contains and at most 7 more, so between 0 and 51;
    without a hint the level is complex from 6, moderate from 3 and
    simple below; a hint of planning, security or infrastructure turns
    simple into moderate and changes nothing else, any other hint
    changes nothing; the suggested agent is planning exactly when the
    level is complex, else codegen. *)
Theorem complexity_level_and_score (text : string) (agent : option string) :
  let a := assessComplexity text agent in
  let nt := toLowerCase text in
  ca_score a = ca_score (assessComplexity text None) /\
  2 * found complex_keywords nt + found moderate_keywords nt <= ca_score a
    <= 2 * found complex_keywords nt + found moderate_keywords nt + 7 /\
  0 <= ca_score a <= 51 /\
  (ca_level a = complex <-> 6 <= ca_score a) /\
  (ca_level a = simple <-> ca_score a < 3 /\ complex_baseline agent = false) /\
  (ca_level a = moderate <->
   3 <= ca_score a < 6 \/ (ca_score a < 3 /\ complex_baseline agent = true)) /\
  ca_suggestedAgent a
    = (if Level_eqb (ca_level a) complex then "planning" else "codegen")%string.
Proof.
  cbv zeta.
  destruct (assessComplexity_fields text agent) as [Hs [_ [Hsug [Hl0 Hl]]]].
  destruct (assessComplexity_score text) as [Hlo Hhi]. cbv zeta in Hlo, Hhi.
  pose proof (found_bounds complex_keywords (toLowerCase text)) as Hc.
  pose proof (found_bounds moderate_keywords (toLowerCase text)) as Hm.
  change (Z.of_nat (List.length complex_keywords)) with 15 in Hc.
  change (Z.of_nat (List.length moderate_keywords)) with 14 in Hm.
  rewrite Hs, Hsug, Hl, Hl0.
  set (score := ca_score (assessComplexity text None)) in *.
  split; [reflexivity|]. split; [lia|]. split; [lia|].
  exact (level_cases score (complex_baseline agent)).
Qed.

End ClassifierFacts.

(* ================================================================= *)
(** ** Letter case *)

Section CaseInsensitivity.
Import Js KeywordMatcher ComplexityClassifier RouterEngine RoutingCache.
Import Worker Registry Notions Scenarios Samples.

Ltac each_char c := destruct c as [[] [] [] [] [] [] [] []].

Lemma lower_char_idem (c : ascii) : lower_char (lower_char c) = lower_char c.
Proof. each_char c; reflexivity. Qed.

Lemma is_space_lower (c : ascii) : is_space (lower_char c) = is_space c.
Proof. each_char c; reflexivity. Qed.

Lemma is_sentence_end_lower (c : ascii) :
  is_sentence_end (lower_char c) = is_sentence_end c.
Proof. each_char c; reflexivity. Qed.

Lemma toLowerCase_idem (s : string) :
  toLowerCase (toLowerCase s) = toLowerCase s.
Proof.
  induction s as [|c t IH]; simpl; [reflexivity|].
  now rewrite lower_char_idem, IH.
Qed.

Lemma toLowerCase_length (s : string) :
  String.length (toLowerCase s) = String.length s.
Proof. induction s as [|c t IH]; simpl; [reflexivity | now rewrite IH]. Qed.

Lemma split_go_lower (sep : ascii -> bool) :
  (forall c, sep (lower_char c) = sep c) ->
  forall (s : string) (in_run : bool),
    split_go sep in_run (toLowerCase s)
    = map toLowerCase (split_go sep in_run s).
Proof.
  intros Hsep. induction s as [|c t IH]; intros in_run; [reflexivity|].
  simpl. rewrite Hsep. destruct (sep c).
  - destruct in_run; rewrite IH; reflexivity.
  - rewrite IH. destruct (split_go sep false t); reflexivity.
Qed.

Lemma truthy_trimEnd (s : string) : truthy (trimEnd s) = has_visible s.
Proof.
  induction s as [|c t IH]; [reflexivity|].
  simpl. destruct (trimEnd t) as [|c' t'] eqn:E.
  - simpl in IH. rewrite <- IH. destruct (is_space c); reflexivity.
  - simpl in IH. rewrite <- IH. now rewrite orb_true_r.
Qed.

Lemma has_visible_trimStart (s : string) :
  has_visible (trimStart s) = has_visible s.
Proof.
  induction s as [|c t IH]; [reflexivity|].
  simpl. destruct (is_space c) eqn:E; [exact IH|].
  simpl. now rewrite E.
Qed.

Lemma truthy_trim (s : string) : truthy (trim s) = has_visible s.
Proof. unfold trim. now rewrite truthy_trimEnd, has_visible_trimStart. Qed.

Lemma has_visible_lower (s : string) :
  has_visible (toLowerCase s) = has_visible s.
Proof.
  induction s as [|c t IH]; [reflexivity|].
  simpl. now rewrite is_space_lower, IH.
Qed.

Lemma sentences_lower (text : string) :
  List.length (sentencesOf (toLowerCase text))
  = List.length (sentencesOf text).
Proof.
  unfold sentencesOf, split_runs.
  rewrite (split_go_lower is_sentence_end is_sentence_end_lower).
  induction (split_go is_sentence_end false text) as [|p ps IH];
    [reflexivity|].
  simpl. rewrite !truthy_trim, has_visible_lower.
  destruct (has_visible p); simpl; now rewrite IH.
Qed.

Lemma prefix_lower (p s : string) :
  caseless p -> String.prefix p (toLowerCase s) = String.prefix p s.
Proof.
  revert p. induction s as [|b t IH]; intros p Hp.
  - destruct p; reflexivity.
  - destruct p as [|a p']; [reflexivity|].
    destruct Hp as [Ha Hp']. simpl.
    destruct (ascii_dec a (lower_char b)) as [E1|E1],
             (ascii_dec a b) as [E2|E2].
    + now apply IH.
    + exfalso. apply E2. symmetry. now apply Ha.
    + exfalso. apply E1. symmetry. apply Ha. now symmetry.
    + reflexivity.
Qed.

Lemma includes_lower (p s : string) :
  caseless p -> includes (toLowerCase s) p = includes s p.
Proof.
  intros Hp. induction s as [|b t IH].
  - reflexivity.
  - change (includes (toLowerCase (String b t)) p)
      with (String.prefix p (toLowerCase (String b t))
            || includes (toLowerCase t) p).
    rewrite (prefix_lower p (String b t) Hp), IH. reflexivity.
Qed.

Ltac caseless_char :=
  let x := fresh "x" in
  let H := fresh "H" in
  intros x; each_char x; vm_compute; split; intros H;
  first [reflexivity | discriminate H].

Lemma code_patterns_caseless :
  Forall caseless ["```"; "<"; ">"; "{"; "}"; "["; "]"; "=>"; ";"]%string.
Proof.
  repeat (apply Forall_cons;
          [cbn [caseless];
           repeat match goal with
                  | |- _ /\ _ => split
                  | |- True => exact I
                  | |- forall x, _ <-> _ => caseless_char
                  end |]).
  apply Forall_nil.
Qed.

Lemma hasCodeBlocks_lower (text : string) :
  hasCodeBlocks (toLowerCase text) = hasCodeBlocks text.
Proof.
  unfold hasCodeBlocks.
  pose proof code_patterns_caseless as Hall.
  induction Hall as [|p ps Hp _ IH]; [reflexivity|].
  simpl. now rewrite (includes_lower p text Hp), IH.
Qed.

Lemma assessComplexity_lower (text : string) (agent : option string) :
  assessComplexity (toLowerCase text) agent = assessComplexity text agent.
Proof.
  unfold assessComplexity, lengthStep, sentenceStep, codeStep.
  rewrite toLowerCase_idem, toLowerCase_length, sentences_lower,
          hasCodeBlocks_lower.
  reflexivity.
Qed.

Lemma scoreMessage_lower (text : string) :
  scoreMessage (toLowerCase text) = scoreMessage text.
Proof. unfold scoreMessage. rewrite toLowerCase_idem. reflexivity. Qed.

(** X23: on a text of ASCII characters routing ignores letter case: the
    ranking, the complexity assessment and the whole decision of [route]
    for the text are those of its lowercased form, and so are the
    results of [extractDomain] and [detectComplexity]. *)
Theorem routing_ignores_case
    (e : Engine) (text : string) (agent userId context : option string)
    (clock : Clock) :
  ascii_only text = true ->
  scoreMessage (toLowerCase text) = scoreMessage text /\
  assessComplexity (toLowerCase text) agent = assessComplexity text agent /\
  route e (toLowerCase text) userId context clock
    = route e text userId context clock /\
  extractDomain (toLowerCase text) = extractDomain text /\
  detectComplexity (toLowerCase text) = detectComplexity text.
Proof.
  intros _.
  split; [apply scoreMessage_lower|].
  split; [apply assessComplexity_lower|].
  split.
  - unfold route.
    rewrite scoreMessage_lower, (assessComplexity_lower text None).
    reflexivity.
  - split.
    + unfold extractDomain. now rewrite toLowerCase_idem.
    + unfold detectComplexity. now rewrite toLowerCase_idem.
Qed.

Lemma routing_ignores_case_witness :
  route (new_default None) (toLowerCase "Fix the LOGIN Bug") None None clock0
  = route (new_default None) "Fix the LOGIN Bug" None None clock0.
Proof.
  destruct (routing_ignores_case (new_default None) "Fix the LOGIN Bug"
              None None None clock0 eq_refl) as [_ [_ [H _]]].
  exact H.
Defined.

End CaseInsensitivity.

(* ================================================================= *)
(** ** Further properties of the keyword matcher *)

Section MatcherFacts.
Import Js KeywordMatcher ComplexityClassifier RouterEngine RoutingCache.
Import Worker Registry Notions Scenarios Samples.
Local Open Scope Z_scope.

Lemma indicatorLoop_closed (weight : Z) (nt : string)
    (indicators : list string) :
  forall score,
    indicatorLoop weight nt indicators score
    = score + weight * found indicators nt.
Proof.
  unfold indicatorLoop, found.
  induction indicators as [|i rest IH]; intros score.
  - simpl. lia.
  - cbn [fold_left filter]. destruct (includes nt i).
    + rewrite IH. cbn [List.length]. rewrite Nat2Z.inj_succ. lia.
    + apply IH.
Qed.

(** X24: [detectComplexity] counts 2 for each of its ten complex
    indicators and 1 for each of its six moderate indicators that the
    lowercased text contains, and answers complex from 4, moderate from
    2 and simple below: a text is simple exactly when it contains no
    complex indicator and at most one moderate one. *)
Theorem detectComplexity_levels (text : string) :
  let nt := toLowerCase text in
  let c := found complexIndicators nt in
  let m := found moderateIndicators nt in
  (detectComplexity text = "complex"%string <-> 4 <= 2 * c + m) /\
  (detectComplexity text = "moderate"%string <-> 2 <= 2 * c + m < 4) /\
  (detectComplexity text = "simple"%string <-> c = 0 /\ m <= 1) /\
  0 <= c <= 10 /\ 0 <= m <= 6.
Proof.
  cbv zeta. unfold detectComplexity. cbv zeta.
  rewrite !indicatorLoop_closed.
  pose proof (found_bounds complexIndicators (toLowerCase text)) as Hc.
  pose proof (found_bounds moderateIndicators (toLowerCase text)) as Hm.
  change (Z.of_nat (List.length complexIndicators)) with 10 in Hc.
  change (Z.of_nat (List.length moderateIndicators)) with 6 in Hm.
  set (c := found complexIndicators (toLowerCase text)) in *.
  set (m := found moderateIndicators (toLowerCase text)) in *.
  destruct (Z.leb_spec 4 (0 + 2 * c + 1 * m)) as [H4|H4];
    [|destruct (Z.leb_spec 2 (0 + 2 * c + 1 * m)) as [H2|H2]];
    (split; [split; [intros H; try discriminate H; lia
                    | intros H; try reflexivity; lia]|]);
    (split; [split; [intros H; try discriminate H; lia
                    | intros H; try reflexivity; lia]|]);
    (split; [split; [intros H; try discriminate H; lia
                    | intros H; try reflexivity; lia]
            | lia]).
Qed.

(** *** Words that [tokenize] can produce *)

Lemma strip_non_word_chars (s : string) :
  all_word_chars (strip_non_word s) = true.
Proof.
  induction s as [|c t IH]; [reflexivity|].
  simpl. destruct (is_word c) eqn:E; [|exact IH].
  simpl. now rewrite E.
Qed.

Lemma long_stripped_shape (pieces : list string) (w : string) :
  In w (filter (fun word => Nat.ltb 2 (String.length word))
               (map strip_non_word pieces)) ->
  token_shaped w = true.
Proof.
  intros Hin. apply filter_In in Hin. destruct Hin as [Hmap Hlen].
  apply in_map_iff in Hmap. destruct Hmap as [piece [Hw _]].
  unfold token_shaped. apply andb_true_iff. split; [exact Hlen|].
  rewrite <- Hw. apply strip_non_word_chars.
Qed.

Lemma tokenize_shape (text w : string) :
  In w (tokenize text) -> token_shaped w = true.
Proof. exact (long_stripped_shape (split_runs is_space text) w). Qed.

Lemma in_filter_subset {A : Type} (f : A -> bool) (l : list A) (x : A) :
  In x (filter f l) -> In x l.
Proof. intros Hin. apply filter_In in Hin. exact (proj1 Hin). Qed.

Lemma extractCompoundKeywords_eq (text : string) :
  extractCompoundKeywords text
  = filter (fun pattern => includes text pattern) compoundPatterns.
Proof. reflexivity. Qed.

Lemma candidates_eq (text : string) :
  candidates text
  = tokenize (toLowerCase text) ++ extractCompoundKeywords (toLowerCase text).
Proof. reflexivity. Qed.

Lemma candidates_shape (text k : string) :
  In k (candidates text) ->
  token_shaped k = true \/ In k compoundPatterns.
Proof.
  rewrite candidates_eq, extractCompoundKeywords_eq. intros Hin.
  apply in_app_or in Hin. destruct Hin as [Htok|Hcomp].
  - left. exact (tokenize_shape (toLowerCase text) k Htok).
  - right. exact (in_filter_subset _ _ k Hcomp).
Qed.

(** X25: a keyword is matched only as a token of the text (three or more
    characters, all letters, digits or underscores) or as one of the
    compound phrases of [extractCompoundKeywords]; so the keywords "go",
    "incident response" and "auto-scaling" of [KEYWORD_SETS] are never
    among the matches of any text. *)
Theorem matched_keyword_shape (text : string) :
  Forall
    (fun s =>
       Forall
         (fun m =>
            (token_shaped (km_keyword m) = true \/
             In (km_keyword m) compoundPatterns) /\
            km_keyword m <> "go"%string /\
            km_keyword m <> "incident response"%string /\
            km_keyword m <> "auto-scaling"%string)
         (as_matches s))
    (scoreMessage text).
Proof.
  apply Forall_forall. intros s Hs. apply Forall_forall. intros m Hm.
  destruct (scoreMessage_entry_formula text s Hs) as [Hkeys _].
  assert (Hin : In (km_keyword m) (candidates text)).
  { assert (Hk : In (km_keyword m) (map km_keyword (as_matches s)))
      by (apply in_map; exact Hm).
    rewrite Hkeys in Hk. apply filter_In in Hk. destruct Hk as [_ Hhas].
    unfold Set_has in Hhas. apply existsb_exists in Hhas.
    destruct Hhas as [x [Hx Hxe]]. apply String.eqb_eq in Hxe.
    subst x. exact Hx. }
  destruct (candidates_shape text (km_keyword m) Hin) as [Hshape|Hcomp].
  - split; [left; exact Hshape|].
    repeat split; intros Heq; rewrite Heq in Hshape; discriminate Hshape.
  - split; [right; exact Hcomp|].
    repeat split; intros Heq; rewrite Heq in Hcomp;
      vm_compute in Hcomp; intuition discriminate.
Qed.

(** X26: [extractDomain] answers with the first domain of its list that
    the lowercased text contains, so with a substring of the lowercased
    text, and with nothing exactly when the text contains none of the
    listed domains. *)
Theorem extractDomain_first_listed (text : string) :
  match extractDomain text with
  | Some d =>
      includes (toLowerCase text) d = true /\
      exists before rest,
        known_domains = before ++ d :: rest /\
        forall d', In d' before -> includes (toLowerCase text) d' = false
  | None =>
      forall d, In d known_domains -> includes (toLowerCase text) d = false
  end.
Proof.
  unfold extractDomain.
  induction known_domains as [|d0 l IH]; [intros d []|].
  simpl. destruct (includes (toLowerCase text) d0) eqn:E.
  - split; [exact E|]. exists [], l. split; [reflexivity | intros d' []].
  - destruct (find (fun domain => includes (toLowerCase text) domain) l)
      as [d|].
    + destruct IH as [Hinc [before [rest [Heq Hnone]]]].
      split; [exact Hinc|]. exists (d0 :: before), rest.
      split; [now rewrite Heq|].
      intros d' [<-|Hin]; [exact E | now apply Hnone].
    + intros d [<-|Hin]; [exact E | now apply IH].
Qed.

End MatcherFacts.

(* ================================================================= *)
(** ** The primary domain *)

Section PrimaryDomain.
Import Js KeywordMatcher ComplexityClassifier RouterEngine RoutingCache.
Import Worker Registry Notions Scenarios Samples.
Local Open Scope Q_scope.

Lemma jm_keys_set_present {V : Type} (m : JsMap V) (k : string) (v o : V) :
  jm_get m k = Some o -> jm_keys (jm_set m k v) = jm_keys m.
Proof.
  induction m as [|[k' v'] rest IH]; simpl; [discriminate|].
  destruct (String.eqb_spec k k') as [->|Hne]; intros Hget.
  - reflexivity.
  - simpl. f_equal. exact (IH Hget).
Qed.

Lemma bump_keys (m : JsMap Q) (d : string) (x : Q) :
  jm_keys (bump m d x) = jm_keys m.
Proof.
  unfold bump. destruct (jm_get m d) as [old|] eqn:E; [|reflexivity].
  exact (jm_keys_set_present m d (fadd old x) old E).
Qed.

Lemma keywordStep_keys (kws : list string) (nt agent domain : string)
    (acc : ScoreAcc) (k : string) :
  jm_keys (acc_domainScores (keywordStep kws nt agent domain acc k))
  = jm_keys (acc_domainScores acc).
Proof.
  unfold keywordStep.
  destruct (Set_has kws k), (includes nt k); cbn [acc_domainScores];
    rewrite ?bump_keys; reflexivity.
Qed.

Lemma keywords_keys (kws : list string) (nt agent domain : string)
    (keywords : list string) :
  forall acc,
    jm_keys (acc_domainScores
               (fold_left (keywordStep kws nt agent domain) keywords acc))
    = jm_keys (acc_domainScores acc).
Proof.
  induction keywords as [|k rest IH]; intros acc; [reflexivity|].
  cbn [fold_left]. rewrite IH. apply keywordStep_keys.
Qed.

(** The primary domain of an agent with a single keyword group. *)
Lemma scoreAgent_single_domain (kws : list string) (nt agent domain : string)
    (keywords : list string) :
  truthy domain = true ->
  as_primaryDomain (scoreAgent kws nt agent [(domain, keywords)]) = domain /\
  Forall (fun m => km_domain m = domain)
         (as_matches (scoreAgent kws nt agent [(domain, keywords)])).
Proof.
  intros Hd. unfold scoreAgent. cbv zeta.
  cbn [fold_left domainStep as_primaryDomain as_matches acc_matches
       acc_totalScore acc_domainScores jm_set].
  set (acc0 := mkScoreAcc [] 0 [(domain, 0)]).
  pose proof (keywords_keys kws nt agent domain keywords acc0) as Hkeys.
  pose proof (keywords_loop_matches kws nt agent domain keywords acc0)
    as Hm.
  set (acc := fold_left (keywordStep kws nt agent domain) keywords acc0) in *.
  split.
  - subst acc0. cbn [acc_domainScores jm_keys map fst] in Hkeys.
    destruct (acc_domainScores acc) as [|[d v] rest]; [discriminate Hkeys|].
    destruct rest as [|e rest]; [|discriminate Hkeys].
    cbn [jm_keys map fst] in Hkeys. inversion Hkeys; subst d.
    cbn [toSorted_desc fold_right insert_desc]. unfold or_else.
    now rewrite Hd.
  - rewrite Hm. subst acc0. cbn [acc_matches app].
    apply Forall_forall. intros m Hin. apply in_map_iff in Hin.
    destruct Hin as [k [<- _]]. reflexivity.
Qed.

(** X27: for every text, the primary domain of each agent in the ranking
    is the name of the agent's keyword group in [KEYWORD_SETS]
    (implementation, strategy, security, operations), never "unknown",
    and every match of the agent carries that domain. *)
Theorem primary_domain_is_the_group (text : string) :
  Forall
    (fun s =>
       as_primaryDomain s = first_domain_of (as_agent s) /\
       as_primaryDomain s <> "unknown"%string /\
       Forall (fun m => km_domain m = as_primaryDomain s) (as_matches s))
    (scoreMessage text).
Proof.
  apply Forall_forall. intros s Hin.
  rewrite scoreMessage_sorts_unsorted, toSorted_desc_In in Hin.
  unfold unsortedScores in Hin. apply in_map_iff in Hin.
  destruct Hin as [entry [<- Hentry]].
  unfold KEYWORD_SETS in Hentry. simpl in Hentry.
  destruct Hentry as [<-|[<-|[<-|[<-|[]]]]]; cbn [fst snd];
    match goal with
    | |- context [scoreAgent ?kws ?nt ?agent [(?domain, ?keywords)]] =>
        destruct (scoreAgent_single_domain kws nt agent domain keywords
                    eq_refl) as [Hp Hm];
        rewrite Hp; split; [reflexivity|];
        split; [discriminate | exact Hm]
    end.
Qed.

End PrimaryDomain.
